(** * LetsFocus: the generative audio engine (js/audio/profileEngine.js,
      js/audio/soundProfiles.js), its controller and the timer

    A shallow embedding of the profile engine: the profile catalog, the
    master-chain builder, the eight sound engines with their scheduled
    loops, and the module-level lifecycle functions [createEngine],
    [stopEngine], [disposeEngine] and [getCurrentEngine].

    JavaScript objects that the code shares by reference (Tone.js nodes,
    Tone.Loop instances, engine instances) live in explicit stores indexed
    by allocation order; the lists [components] and [loops] of an engine
    hold indices into these stores.  Functions that can throw or reject
    return a result in a small state-and-error monad; an [await] is
    sequenced like an ordinary call (the model runs one call to completion
    before the next one starts).

    Around the engine, the development covers the audio controller
    (js/audio/audioController.js), the timer state (js/timer/timerState.js),
    the timer controls (js/timer/timerControls.js) and the event handlers of
    the page (js/main.js). *)

From stdpp Require Import gmap strings list pretty.
From Stdlib Require Import ZArith QArith Lia.

Open Scope Z_scope.
Open Scope string_scope.
Open Scope list_scope.

(** ** JavaScript values used by the configuration data *)

(** [undefined] is the absence of a value ([None] of [option JSValue]). *)
#[local] Set Warnings "-register-all".
Inductive JSValue : Type :=
  | JNull
  | JBool (b : bool)
  | JNum (q : Q)
  | JStr (s : string)
  | JArr (items : list JSValue)
  | JObj (fields : list (string * JSValue)).

(** Truthiness as tested by [if (x)] and [x || y]. *)
Definition truthy (v : option JSValue) : bool :=
  match v with
  | None => false
  | Some JNull => false
  | Some (JBool b) => b
  | Some (JNum q) => negb (Qeq_bool q 0)
  | Some (JStr s) => negb (String.eqb s "")
  | Some (JArr _) => true
  | Some (JObj _) => true
  end.

(** [x !== false] *)
Definition not_false (v : option JSValue) : bool :=
  match v with
  | Some (JBool false) => false
  | _ => true
  end.

(** [x || d] *)
Definition or_default (v : option JSValue) (d : JSValue) : JSValue :=
  match v with
  | Some x => if truthy v then x else d
  | None => d
  end.

Definition JInt (z : Z) : JSValue := JNum (inject_Z z).

(** Arithmetic on two numbers.  With any other operand the result is not
    modelled and reads as a missing value. *)
Definition js_arith (op : Q -> Q -> Q) (a b : option JSValue) : option JSValue :=
  match a, b with
  | Some (JNum x), Some (JNum y) => Some (JNum (op x y))
  | _, _ => None
  end.
Definition js_add := js_arith Qplus.
Definition js_mul := js_arith Qmult.
Definition js_div := js_arith Qdiv.

(** ** Sound profiles (soundProfiles.js) *)

(** [config.type] selects the engine class and is kept as a string field;
    the remaining, variant-specific parameters stay a JavaScript object. *)
Record Config : Type := mkConfig {
  type : string;
  params : gmap string JSValue
}.

Definition prop (c : Config) (k : string) : option JSValue := params c !! k.

Record SoundProfile : Type := mkProfile {
  id : string;
  name : string;
  description : string;
  icon : string;
  config : Config
}.

Definition notes_of (l : list string) : JSValue := JArr (JStr <$> l).

Definition reverb_obj (decay preDelay wet : Q) : JSValue :=
  JObj [("decay", JNum decay); ("preDelay", JNum preDelay); ("wet", JNum wet)].

Definition delay_obj (delayTime : string) (feedback wet : Q) : JSValue :=
  JObj [("delayTime", JStr delayTime); ("feedback", JNum feedback); ("wet", JNum wet)].

Definition SCIENCE_FOCUS : SoundProfile :=
  mkProfile "science_focus" "Science Focus" "Research-backed focus enhancement" "🔬"
    (mkConfig "scientific" (list_to_map [
       ("notes", notes_of ["C3"; "G3"; "C4"; "E4"; "G4"; "Bb4"; "C5"]);
       ("primeIntervals", JArr [JInt 17; JInt 19; JInt 23; JInt 29; JInt 31]);
       ("padVolume", JInt (-16));
       ("noiseVolume", JInt (-52));
       ("gammaVolume", JInt (-45));
       ("textureVolume", JInt (-28));
       ("gammaEnabled", JBool true);
       ("textureEnabled", JBool true);
       ("textureProbability", JNum 0.25);
       ("reverb", reverb_obj 10 0.15 0.35);
       ("delay", delay_obj "4n." 0.2 0.2)])).

Definition DEEP_FOCUS : SoundProfile :=
  mkProfile "deep_focus" "Deep Focus" "Ambient generative soundscape" "🎵"
    (mkConfig "generative" (list_to_map [
       ("notes", notes_of ["C3"; "E3"; "G3"; "B3"; "D4"; "F#4"; "A4"]);
       ("padVolume", JInt (-14));
       ("modularVolume", JInt (-20));
       ("noiseVolume", JInt (-58));
       ("noiseType", JStr "pink");
       ("padTriggerProb", JNum 0.6);
       ("modularTriggerProb", JNum 0.4);
       ("padInterval", JStr "7n");
       ("modularInterval", JStr "8n");
       ("reverb", reverb_obj 8 0.1 0.3);
       ("delay", delay_obj "8n." 0.15 0.25)])).

Definition BINAURAL_ALPHA : SoundProfile :=
  mkProfile "binaural_alpha" "Alpha Waves" "Binaural beats for relaxed focus (8-13 Hz)" "🧠"
    (mkConfig "binaural" (list_to_map [
       ("baseFrequency", JInt 180);
       ("binauralBeat", JInt 10);
       ("volume", JInt (-16));
       ("noiseVolume", JInt (-55));
       ("noiseType", JStr "pink");
       ("reverb", reverb_obj 5 0.08 0.2)])).

Definition BINAURAL_BETA : SoundProfile :=
  mkProfile "binaural_beta" "Beta Waves" "Binaural beats for active concentration (14-30 Hz)" "⚡"
    (mkConfig "binaural" (list_to_map [
       ("baseFrequency", JInt 180);
       ("binauralBeat", JInt 18);
       ("volume", JInt (-16));
       ("noiseVolume", JInt (-55));
       ("noiseType", JStr "pink");
       ("reverb", reverb_obj 4 0.08 0.18)])).

Definition BROWN_NOISE : SoundProfile :=
  mkProfile "brown_noise" "Brown Noise" "Deep noise for blocking distractions" "🌊"
    (mkConfig "noise" (list_to_map [
       ("noiseType", JStr "brown");
       ("noiseVolume", JInt (-18));
       ("lowPassFreq", JInt 1000);
       ("highPassFreq", JInt 50);
       ("reverb", reverb_obj 2 0 0.05)])).

Definition WHITE_NOISE : SoundProfile :=
  mkProfile "white_noise" "White Noise" "Classic white noise for focus" "❄️"
    (mkConfig "noise" (list_to_map [
       ("noiseType", JStr "white");
       ("noiseVolume", JInt (-18));
       ("lowPassFreq", JInt 3000);
       ("highPassFreq", JInt 100);
       ("reverb", reverb_obj 1.5 0 0.03)])).

Definition RAIN : SoundProfile :=
  mkProfile "rain" "Rain Sounds" "Realistic rain with distant thunder" "🌧️"
    (mkConfig "rain" (list_to_map [
       ("backgroundNoiseType", JStr "white");
       ("backgroundVolume", JInt (-20));
       ("backgroundLowPass", JInt 3000);
       ("backgroundHighPass", JInt 350);
       ("dropletVolume", JInt (-28));
       ("dropletFrequency", JStr "16n");
       ("dropletIntensity", JNum 0.5);
       ("dropletLowPass", JInt 4000);
       ("reverb", reverb_obj 2.5 0.02 0.35);
       ("thunderEnabled", JBool true)])).

Definition LOFI : SoundProfile :=
  mkProfile "lofi" "Lo-fi Beats" "Chill hip-hop inspired beats (75 BPM)" "🎧"
    (mkConfig "lofi" (list_to_map [
       ("bpm", JInt 75);
       ("notes", notes_of ["C3"; "Eb3"; "F3"; "G3"; "Bb3"; "C4"; "Eb4"]);
       ("bassVolume", JInt (-14));
       ("chordVolume", JInt (-16));
       ("noiseVolume", JInt (-45));
       ("noiseType", JStr "pink");
       ("reverb", reverb_obj 1.5 0.015 0.3);
       ("delay", delay_obj "8n." 0.35 0.2);
       ("bitCrush", JInt 6);
       ("vinylNoise", JBool true)])).

Definition MINIMAL : SoundProfile :=
  mkProfile "minimal" "Minimal Tones" "Simple sine wave patterns" "〰️"
    (mkConfig "minimal" (list_to_map [
       ("notes", notes_of ["A3"; "C4"; "E4"; "G4"]);
       ("volume", JInt (-20));
       ("interval", JStr "2n");
       ("triggerProb", JNum 0.4);
       ("reverb", reverb_obj 7 0.12 0.6);
       ("delay", delay_obj "4n." 0.3 0.35)])).

Definition FOREST : SoundProfile :=
  mkProfile "forest" "Forest" "Birds, crickets, wind & stream" "🌲"
    (mkConfig "forest" (list_to_map [
       ("noiseType", JStr "brown");
       ("noiseVolume", JInt (-24));
       ("lowPassFreq", JInt 2500);
       ("highPassFreq", JInt 80);
       ("reverb", reverb_obj 4.5 0.1 0.4);
       ("birdFrequency", JStr "2n");
       ("birdProb", JNum 0.15);
       ("birdVolume", JInt (-28));
       ("insectsEnabled", JBool true);
       ("streamEnabled", JBool true)])).

(** The catalog object, in the order of its literal (the order
    [Object.values] enumerates). *)
Definition SOUND_PROFILES : list (string * SoundProfile) :=
  [ ("SCIENCE_FOCUS", SCIENCE_FOCUS);
    ("DEEP_FOCUS", DEEP_FOCUS);
    ("BINAURAL_ALPHA", BINAURAL_ALPHA);
    ("BINAURAL_BETA", BINAURAL_BETA);
    ("BROWN_NOISE", BROWN_NOISE);
    ("WHITE_NOISE", WHITE_NOISE);
    ("RAIN", RAIN);
    ("LOFI", LOFI);
    ("MINIMAL", MINIMAL);
    ("FOREST", FOREST) ].

Definition getAllProfiles : list SoundProfile := snd <$> SOUND_PROFILES.

Definition getProfileById (i : string) : option SoundProfile :=
  find (fun profile => String.eqb (id profile) i) getAllProfiles.

Definition getDefaultProfile : SoundProfile := SCIENCE_FOCUS.

(** ** Tone.js objects held by the engine *)

(** The Tone.js classes the engine instantiates. *)
Inductive ToneClass : Type :=
  | Tone_Limiter | Tone_Filter | Tone_BitCrusher | Tone_Reverb | Tone_PingPongDelay
  | Tone_PolySynth | Tone_FMSynth | Tone_Synth | Tone_MonoSynth | Tone_NoiseSynth
  | Tone_Noise | Tone_Oscillator | Tone_LFO | Tone_Gain | Tone_Panner
  | Tone_AutoPanner | Tone_Tremolo.

(** Where [connect] can lead: the audio destination, the input of another
    node, or one of its parameters ([filter.frequency], [gain.gain], ...). *)
Inductive Target : Type :=
  | Destination
  | ToNode (n : nat)
  | ToParam (n : nat) (param : string).

(** A Tone.js node.  [args] keeps the constructor arguments of sources,
    filters, modulators and effects; the option objects of synths (envelopes
    and oscillator settings) and the volumes assigned after construction are
    tuning data and are left out. *)
Record ToneNode : Type := mkNode {
  cls : ToneClass;
  args : list (option JSValue);
  outputs : list Target;
  started : bool;
  generated : bool;
  disposed : bool
}.

(** Which optional methods an object has: [comp?.releaseAll], [comp?.stop].
    Every Tone.js node has [dispose]. *)
Definition has_releaseAll (c : ToneClass) : bool :=
  match c with Tone_PolySynth => true | _ => false end.

Definition has_stop (c : ToneClass) : bool :=
  match c with
  | Tone_Noise | Tone_Oscillator | Tone_LFO | Tone_AutoPanner | Tone_Tremolo => true
  | _ => false
  end.

(** A [Tone.Loop]: its interval (seconds as a number, or a tempo-relative
    notation string) and, once [start(t)] was called, the start offset on
    the Transport timeline.  The callback is not part of the record: what a
    generator plays on a tick does not change the stores. *)
Record ToneLoop : Type := mkLoop {
  interval : option JSValue;
  startTime : option Z;
  running : bool
}.

Inductive PlaybackState : Type := Started | Stopped | Paused.

(** [Tone.Transport]: playback state, position, tempo, and the loops that
    currently have a registration on its timeline, in registration order. *)
Record TransportState : Type := mkTransport {
  state : PlaybackState;
  position : Z;
  bpm : option JSValue;
  scheduled : list nat
}.

(** ** Engines and the module state *)

Inductive EngineClass : Type :=
  | GenerativeEngine | ScientificFocusEngine | BinauralEngine | NoiseEngine
  | RainEngine | ForestEngine | LofiEngine | MinimalEngine.

(** An instance of (a subclass of) [SoundEngine]: [this.config],
    [this.components], [this.loops]. *)
Record SoundEngine : Type := mkEngine {
  engineClass : EngineClass;
  engineConfig : Config;
  components : list nat;
  loops : list nat
}.

(** What the variable [currentEngine] can refer to: an engine instance, or,
    when the registry lookup returned [Object] (see [lookup_ENGINE_TYPES]),
    the profile's own config object. *)
Inductive Ref : Type :=
  | RefEngine (e : nat)
  | RefConfig (c : Config).

(** Method calls on engines and assignments of a new instance to
    [currentEngine], in program order.  The history is instrumentation: no
    function reads it. *)
Inductive Event : Type :=
  | Call_start (e : nat)
  | Call_stop (e : nat)
  | Call_dispose (e : nat)
  | Install (e : nat).

Record Session : Type := mkSession {
  nodes : list ToneNode;
  toneLoops : list ToneLoop;
  engines : list SoundEngine;
  currentEngine : option Ref;
  audioInitialized : bool;
  Transport : TransportState;
  history : list Event
}.

Definition initial_session : Session :=
  mkSession [] [] [] None false (mkTransport Stopped 0 (Some (JInt 120)) []) [].

(** Outcomes of the asynchronous Tone.js operations awaited during one
    call: [Tone.start()], the master chain's [reverbNode.generate()], and
    the rain engine's [thunderReverb.generate()]. *)
Record Env : Type := mkEnv {
  Tone_start_ok : bool;
  chain_generate_ok : bool;
  thunder_generate_ok : bool
}.

Definition all_ok : Env := mkEnv true true true.

Inductive JSError : Type :=
  | Error (message : string)
  | TypeError (message : string)
  | Rejected (operation : string).

Inductive Res (A : Type) : Type :=
  | Ok (a : A)
  | Throw (e : JSError).
Arguments Ok {A} a.
Arguments Throw {A} e.

(** State-and-error monad; a thrown error keeps the state reached so far. *)
Definition M (A : Type) : Type := Env -> Session -> Res A * Session.

Definition ret {A} (a : A) : M A := fun _ s => (Ok a, s).
Definition bind {A B} (m : M A) (f : A -> M B) : M B := fun env s =>
  match m env s with
  | (Ok a, s') => f a env s'
  | (Throw e, s') => (Throw e, s')
  end.

Declare Scope engine_scope.
Delimit Scope engine_scope with engine.
Bind Scope engine_scope with M.
Notation "x ← y ; z" := (bind y (fun x => z))
  (at level 20, y at level 100, z at level 200, only parsing) : engine_scope.
Notation "' x ← y ; z" := (bind y (fun x => z))
  (at level 20, x pattern, y at level 100, z at level 200, only parsing) : engine_scope.
Notation "x ;; z" := (bind x (fun _ => z))
  (at level 100, z at level 200, only parsing, right associativity) : engine_scope.
Open Scope engine_scope.

Definition throw {A} (e : JSError) : M A := fun _ s => (Throw e, s).
Definition gets {A} (f : Session -> A) : M A := fun _ s => (Ok (f s), s).
Definition asks {A} (f : Env -> A) : M A := fun env s => (Ok (f env), s).
Definition modify (f : Session -> Session) : M unit := fun _ s => (Ok tt, f s).

(** [try { m } catch { h }] *)
Definition try_catch {A} (m : M A) (h : JSError -> M A) : M A := fun env s =>
  match m env s with
  | (Ok a, s') => (Ok a, s')
  | (Throw e, s') => h e env s'
  end.

(** [l.forEach(f)] *)
Fixpoint forEach {A} (l : list A) (f : A -> M unit) : M unit :=
  match l with
  | [] => ret tt
  | x :: l' => f x ;; forEach l' f
  end.

Definition when (b : bool) (m : M unit) : M unit := if b then m else ret tt.

(** Field updates *)
Definition set_nodes (f : list ToneNode -> list ToneNode) (s : Session) : Session :=
  mkSession (f (nodes s)) (toneLoops s) (engines s) (currentEngine s)
            (audioInitialized s) (Transport s) (history s).
Definition set_toneLoops (f : list ToneLoop -> list ToneLoop) (s : Session) : Session :=
  mkSession (nodes s) (f (toneLoops s)) (engines s) (currentEngine s)
            (audioInitialized s) (Transport s) (history s).
Definition set_engines (f : list SoundEngine -> list SoundEngine) (s : Session) : Session :=
  mkSession (nodes s) (toneLoops s) (f (engines s)) (currentEngine s)
            (audioInitialized s) (Transport s) (history s).
Definition set_currentEngine (r : option Ref) (s : Session) : Session :=
  mkSession (nodes s) (toneLoops s) (engines s) r
            (audioInitialized s) (Transport s) (history s).
Definition set_audioInitialized (b : bool) (s : Session) : Session :=
  mkSession (nodes s) (toneLoops s) (engines s) (currentEngine s)
            b (Transport s) (history s).
Definition set_Transport (f : TransportState -> TransportState) (s : Session) : Session :=
  mkSession (nodes s) (toneLoops s) (engines s) (currentEngine s)
            (audioInitialized s) (f (Transport s)) (history s).
Definition record (ev : Event) : M unit := modify (fun s =>
  mkSession (nodes s) (toneLoops s) (engines s) (currentEngine s)
            (audioInitialized s) (Transport s) (history s ++ [ev])).

Definition set_outputs (f : list Target -> list Target) (n : ToneNode) : ToneNode :=
  mkNode (cls n) (args n) (f (outputs n)) (started n) (generated n) (disposed n).
Definition set_started (b : bool) (n : ToneNode) : ToneNode :=
  mkNode (cls n) (args n) (outputs n) b (generated n) (disposed n).
Definition set_generated (b : bool) (n : ToneNode) : ToneNode :=
  mkNode (cls n) (args n) (outputs n) (started n) b (disposed n).
Definition set_disposed (n : ToneNode) : ToneNode :=
  mkNode (cls n) (args n) [] false (generated n) true.

Definition set_components (f : list nat -> list nat) (e : SoundEngine) : SoundEngine :=
  mkEngine (engineClass e) (engineConfig e) (f (components e)) (loops e).
Definition set_loops (f : list nat -> list nat) (e : SoundEngine) : SoundEngine :=
  mkEngine (engineClass e) (engineConfig e) (components e) (f (loops e)).

Definition set_scheduled (f : list nat -> list nat) (t : TransportState) : TransportState :=
  mkTransport (state t) (position t) (bpm t) (f (scheduled t)).

(** *** Tone.js primitives *)

(** [new Tone.C(args)]: the new node's index. *)
Definition new_node (c : ToneClass) (a : list (option JSValue)) : M nat := fun _ s =>
  (Ok (length (nodes s)), set_nodes (fun l => l ++ [mkNode c a [] false false false]) s).

(** [src.connect(tgt)] *)
Definition connect (src : nat) (tgt : Target) : M unit :=
  modify (set_nodes (alter (set_outputs (fun o => o ++ [tgt])) src)).

(** [new Tone.C(args).connect(tgt)] *)
Definition new_connected (c : ToneClass) (a : list (option JSValue)) (tgt : Target) : M nat :=
  n ← new_node c a; connect n tgt;; ret n.

(** [src.disconnect()] *)
Definition disconnect (src : nat) : M unit :=
  modify (set_nodes (alter (set_outputs (fun _ => [])) src)).

(** [node.start()] and [node.stop()] of sources, LFOs and LFO-driven effects *)
Definition node_start (n : nat) : M unit :=
  modify (set_nodes (alter (set_started true) n)).
Definition node_stop (n : nat) : M unit :=
  modify (set_nodes (alter (set_started false) n)).

(** [synth.releaseAll()]: voices are only ever triggered from loop
    callbacks, so there is nothing held in the stores to release. *)
Definition node_releaseAll (n : nat) : M unit := ret tt.

(** [node.dispose()]: disconnects and frees the node. *)
Definition node_dispose (n : nat) : M unit :=
  modify (set_nodes (alter set_disposed n)).

(** [await reverb.generate()] *)
Definition Reverb_generate (ok : Env -> bool) (n : nat) : M unit :=
  b ← asks ok;
  if b then modify (set_nodes (alter (set_generated true) n))
  else throw (Rejected "Reverb.generate").

Definition class_of (s : Session) (n : nat) : option ToneClass := cls <$> nodes s !! n.

(** [new Tone.Loop(callback, interval)] *)
Definition new_Loop (i : option JSValue) : M nat := fun _ s =>
  (Ok (length (toneLoops s)), set_toneLoops (fun l => l ++ [mkLoop i None false]) s).

(** [loop.start(t)]: registers the loop on the Transport timeline. *)
Definition Loop_start (l : nat) (t : Z) : M unit :=
  modify (set_toneLoops (alter (fun lp => mkLoop (interval lp) (Some t) true) l));;
  modify (set_Transport (set_scheduled (fun q => q ++ [l]))).

Definition unschedule (l : nat) : list nat -> list nat :=
  filter (fun x => x ≠ l).

(** [loop.stop()] and [loop.cancel()]: both remove the loop's registration.
    ([stop()] of the engine guards them with [if (loop)]; the list only ever
    holds loop objects.) *)
Definition Loop_stop (l : nat) : M unit :=
  modify (set_toneLoops (alter (fun lp => mkLoop (interval lp) (startTime lp) false) l));;
  modify (set_Transport (set_scheduled (unschedule l))).
Definition Loop_cancel (l : nat) : M unit :=
  modify (set_Transport (set_scheduled (unschedule l))).

(** [Tone.Transport.stop()] (which also rewinds to position 0),
    [.cancel()] (without argument: every registration is cleared),
    [.position = 0], [.start()], [.bpm.value = v] *)
Definition Transport_stop : M unit :=
  modify (set_Transport (fun t => mkTransport Stopped 0 (bpm t) (scheduled t))).
Definition Transport_cancel : M unit :=
  modify (set_Transport (set_scheduled (fun _ => []))).
Definition Transport_set_position (p : Z) : M unit :=
  modify (set_Transport (fun t => mkTransport (state t) p (bpm t) (scheduled t))).
Definition Transport_start : M unit :=
  modify (set_Transport (fun t => mkTransport Started (position t) (bpm t) (scheduled t))).
Definition Transport_set_bpm (v : option JSValue) : M unit :=
  modify (set_Transport (fun t => mkTransport (state t) (position t) v (scheduled t))).

(** [Tone.Transport.pause()], which the audio controller calls directly:
    it only acts on a started Transport. *)
Definition Transport_pause : M unit :=
  modify (set_Transport (fun t =>
    match state t with
    | Started => mkTransport Paused (position t) (bpm t) (scheduled t)
    | _ => t
    end)).

(** ** The master chain builder *)

Record ChainOptions : Type := mkOptions {
  o_reverb : option JSValue;
  o_delay : option JSValue;
  o_highPass : option JSValue;
  o_lowPass : option JSValue;
  o_bitCrush : option JSValue;
  o_limiterThreshold : option JSValue
}.

(** [createMasterChain()] called without argument: [options = {}]. *)
Definition no_options : ChainOptions := mkOptions None None None None None None.

(** The object [createMasterChain] returns. *)
Record MasterChain : Type := mkChain {
  chain_components : list nat;
  chain_connect : nat;
  chain_limiter : nat;
  chain_reverb : nat;
  chain_delay : option nat
}.

(** A destructuring default [{ x = d }] applies when [x] is undefined. *)
Definition defaulted (v : option JSValue) (d : JSValue) : option JSValue :=
  match v with None => Some d | Some x => Some x end.

Definition createMasterChain (options : ChainOptions) : M MasterChain :=
  let reverb := defaulted (o_reverb options) (JNum 1.5) in
  let delay := defaulted (o_delay options) JNull in
  let highPass := defaulted (o_highPass options) JNull in
  let lowPass := defaulted (o_lowPass options) JNull in
  let bitCrush := defaulted (o_bitCrush options) JNull in
  let limiterThreshold := defaulted (o_limiterThreshold options) (JInt (-2)) in
  (* Limiter always at the end *)
  limiter ← new_connected Tone_Limiter [limiterThreshold] Destination;
  let components := [limiter] in
  let outputNode := limiter in
  (* Filters (optional) *)
  '(components, outputNode) ←
    (if truthy highPass then
       highPassFilter ← new_connected Tone_Filter [highPass; Some (JStr "highpass")]
                                      (ToNode outputNode);
       ret (components ++ [highPassFilter], highPassFilter)
     else ret (components, outputNode));
  '(components, outputNode) ←
    (if truthy lowPass then
       lowPassFilter ← new_connected Tone_Filter [lowPass; Some (JStr "lowpass")]
                                     (ToNode outputNode);
       ret (components ++ [lowPassFilter], lowPassFilter)
     else ret (components, outputNode));
  (* BitCrusher for lo-fi effects (optional) *)
  '(components, outputNode) ←
    (if truthy bitCrush then
       bitCrusher ← new_connected Tone_BitCrusher [bitCrush] (ToNode outputNode);
       ret (components ++ [bitCrusher], bitCrusher)
     else ret (components, outputNode));
  (* Reverb *)
  reverbNode ← new_connected Tone_Reverb [reverb] (ToNode outputNode);
  Reverb_generate chain_generate_ok reverbNode;;
  let components := components ++ [reverbNode] in
  let outputNode := reverbNode in
  (* Delay (optional) *)
  '(components, outputNode, delayNode) ←
    (if truthy delay then
       delayNode ← new_connected Tone_PingPongDelay [delay] (ToNode reverbNode);
       ret (components ++ [delayNode], delayNode, Some delayNode)
     else ret (components, outputNode, None));
  ret (mkChain components outputNode limiter reverbNode delayNode).

(** ** The base class [SoundEngine] *)

(** [new EngineClass(config)] *)
Definition new_engine (c : EngineClass) (cfg : Config) : M nat := fun _ s =>
  (Ok (length (engines s)), set_engines (fun l => l ++ [mkEngine c cfg [] []]) s).

(** Reading [this]; a reference into the engine store that names no
    instance behaves like a property read on [undefined]. *)
Definition this_engine (this : nat) : M SoundEngine := fun _ s =>
  match engines s !! this with
  | Some e => (Ok e, s)
  | None => (Throw (TypeError "Cannot read properties of undefined"), s)
  end.

(** [this.components.push(...)], [this.loops.push(...)] *)
Definition push_components (this : nat) (l : list nat) : M unit :=
  modify (set_engines (alter (set_components (fun c => c ++ l)) this)).
Definition push_loops (this : nat) (l : list nat) : M unit :=
  modify (set_engines (alter (set_loops (fun c => c ++ l)) this)).

Definition SoundEngine_stop (this : nat) : M unit :=
  record (Call_stop this);;
  e ← this_engine this;
  forEach (loops e) (fun loop =>
    Loop_stop loop;;
    Loop_cancel loop);;
  forEach (components e) (fun comp =>
    c ← gets (fun s => class_of s comp);
    when (from_option has_releaseAll false c) (node_releaseAll comp);;
    when (from_option has_stop false c) (node_stop comp)).

Definition SoundEngine_dispose (this : nat) : M unit :=
  record (Call_dispose this);;
  SoundEngine_stop this;;
  modify (set_engines (alter (set_loops (fun _ => [])) this));;
  e ← this_engine this;
  forEach (components e) (fun comp => node_dispose comp);;
  modify (set_engines (alter (set_components (fun _ => [])) this)).

(** ** The eight engines: [start()] *)

Definition num (q : Q) : option JSValue := Some (JNum q).
Definition str (s : string) : option JSValue := Some (JStr s).

(** Generative ambient engine (Deep Focus) *)
Definition GenerativeEngine_start (this : nat) : M unit :=
  e ← this_engine this;
  let config := engineConfig e in
  chain ← createMasterChain
    (mkOptions (prop config "reverb") (prop config "delay") (num 100) (num 2000) None None);
  push_components this (chain_components chain);;
  (* Pad synth *)
  padSynth ← new_connected Tone_PolySynth [] (ToNode (chain_connect chain));
  (* Modular synth *)
  modSynth ← new_connected Tone_PolySynth [] (ToNode (chain_reverb chain));
  (* Noise *)
  noise ← new_connected Tone_Noise [prop config "noiseType"] (ToNode (chain_reverb chain));
  node_start noise;;
  push_components this [padSynth; modSynth; noise];;
  (* Create loops *)
  padLoop ← new_Loop (prop config "padInterval");
  Loop_start padLoop 0;;
  push_loops this [padLoop];;
  modLoop ← new_Loop (prop config "modularInterval");
  Loop_start modLoop 0;;
  push_loops this [modLoop].

(** Binaural beats engine *)
Definition BinauralEngine_start (this : nat) : M unit :=
  e ← this_engine this;
  let config := engineConfig e in
  chain ← createMasterChain
    (mkOptions (prop config "reverb") None None (num 800) None None);
  push_components this (chain_components chain);;
  (* Create stereo panners *)
  leftPanner ← new_connected Tone_Panner [num (-0.95)] (ToNode (chain_reverb chain));
  rightPanner ← new_connected Tone_Panner [num 0.95] (ToNode (chain_reverb chain));
  (* Primary carriers *)
  leftOsc ← new_connected Tone_Oscillator [prop config "baseFrequency"; str "sine"]
                          (ToNode leftPanner);
  node_start leftOsc;;
  rightOsc ← new_connected Tone_Oscillator
                [js_add (prop config "baseFrequency") (prop config "binauralBeat"); str "sine"]
                (ToNode rightPanner);
  node_start rightOsc;;
  (* Secondary harmonic layer *)
  leftSubOsc ← new_connected Tone_Oscillator
                  [js_div (prop config "baseFrequency") (num 2); str "sine"]
                  (ToNode leftPanner);
  node_start leftSubOsc;;
  rightSubOsc ← new_connected Tone_Oscillator
                   [js_div (js_add (prop config "baseFrequency") (prop config "binauralBeat"))
                           (num 2); str "sine"]
                   (ToNode rightPanner);
  node_start rightSubOsc;;
  (* Organic frequency drift *)
  driftLFO ← new_node Tone_LFO [num 0.02; num (-1); num 1];
  node_start driftLFO;;
  driftGain ← new_node Tone_Gain [num 0.5];
  connect driftLFO (ToNode driftGain);;
  connect driftGain (ToParam leftOsc "frequency");;
  connect driftGain (ToParam rightOsc "frequency");;
  (* Background texture *)
  noiseFilter ← new_connected Tone_Filter [num 400; str "lowpass"] (ToNode (chain_reverb chain));
  noise ← new_connected Tone_Noise [Some (or_default (prop config "noiseType") (JStr "pink"))]
                        (ToNode noiseFilter);
  node_start noise;;
  (* Breathing modulation on noise *)
  breathLFO ← new_node Tone_LFO [num 0.08; num 300; num 500];
  connect breathLFO (ToParam noiseFilter "frequency");;
  node_start breathLFO;;
  push_components this
    [leftOsc; rightOsc; leftSubOsc; rightSubOsc;
     leftPanner; rightPanner;
     driftLFO; driftGain; breathLFO;
     noise; noiseFilter].

(** Noise engine *)
Definition NoiseEngine_start (this : nat) : M unit :=
  e ← this_engine this;
  let config := engineConfig e in
  chain ← createMasterChain
    (mkOptions (prop config "reverb") None (prop config "highPassFreq")
               (prop config "lowPassFreq") None None);
  push_components this (chain_components chain);;
  (* Primary noise layer *)
  primaryNoise ← new_connected Tone_Noise [prop config "noiseType"] (ToNode (chain_reverb chain));
  node_start primaryNoise;;
  (* Secondary texture layer *)
  let secondaryType :=
    match prop config "noiseType" with
    | Some (JStr t) => if String.eqb t "brown" then "pink" else "brown"
    | _ => "brown"
    end in
  secondaryFilter ← new_connected Tone_Filter
                       [js_mul (prop config "lowPassFreq") (num 0.6); str "lowpass"]
                       (ToNode (chain_reverb chain));
  secondaryNoise ← new_connected Tone_Noise [str secondaryType] (ToNode secondaryFilter);
  node_start secondaryNoise;;
  (* Breathing modulation *)
  breathFilter ← new_connected Tone_Filter [prop config "lowPassFreq"; str "lowpass"]
                               (ToNode (chain_limiter chain));
  breathLFO ← new_node Tone_LFO
                 [num 0.04; js_mul (prop config "lowPassFreq") (num 0.7);
                  js_mul (prop config "lowPassFreq") (num 1.1)];
  connect breathLFO (ToParam breathFilter "frequency");;
  node_start breathLFO;;
  (* Reconnect primary through breath filter *)
  disconnect primaryNoise;;
  connect primaryNoise (ToNode breathFilter);;
  (* Subtle stereo widening with auto-pan *)
  autoPan ← new_connected Tone_AutoPanner
               [Some (JObj [("frequency", JNum 0.03); ("depth", JNum 0.15)])]
               (ToNode (chain_reverb chain));
  node_start autoPan;;
  (* Third layer through stereo widener *)
  wideNoise ← new_connected Tone_Noise [prop config "noiseType"] (ToNode autoPan);
  node_start wideNoise;;
  push_components this
    [primaryNoise; secondaryNoise; wideNoise;
     secondaryFilter; breathFilter; breathLFO; autoPan].

(** Rain engine *)
Definition RainEngine_start (this : nat) : M unit :=
  e ← this_engine this;
  let config := engineConfig e in
  chain ← createMasterChain (mkOptions (prop config "reverb") None None None None None);
  push_components this (chain_components chain);;
  (* LAYER 1: Distant rain *)
  distantFilter ← new_connected Tone_Filter [num 800; str "lowpass"] (ToNode (chain_reverb chain));
  distantNoise ← new_connected Tone_Noise [str "brown"] (ToNode distantFilter);
  node_start distantNoise;;
  (* LAYER 2: Close rain *)
  closeHighPass ← new_connected Tone_Filter [prop config "backgroundHighPass"; str "highpass"]
                                (ToNode (chain_reverb chain));
  closeLowPass ← new_connected Tone_Filter [prop config "backgroundLowPass"; str "lowpass"]
                               (ToNode closeHighPass);
  closeNoise ← new_connected Tone_Noise [prop config "backgroundNoiseType"] (ToNode closeLowPass);
  node_start closeNoise;;
  windLFO1 ← new_node Tone_LFO
                [num 0.03; js_mul (prop config "backgroundLowPass") (num 0.7);
                 js_mul (prop config "backgroundLowPass") (num 1.1)];
  windLFO2 ← new_node Tone_LFO
                [num 0.08; js_mul (prop config "backgroundLowPass") (num 0.9);
                 js_mul (prop config "backgroundLowPass") (num 1.05)];
  connect windLFO1 (ToParam closeLowPass "frequency");;
  connect windLFO2 (ToParam closeLowPass "frequency");;
  node_start windLFO1;;
  node_start windLFO2;;
  push_components this
    [distantNoise; distantFilter;
     closeNoise; closeLowPass; closeHighPass;
     windLFO1; windLFO2];;
  (* LAYER 3: Small droplets *)
  smallDropFilter ← new_connected Tone_Filter [num 6000; str "lowpass"]
                                  (ToNode (chain_reverb chain));
  smallDropSynth ← new_connected Tone_NoiseSynth [] (ToNode smallDropFilter);
  smallDropLoop ← new_Loop (str "32n");
  Loop_start smallDropLoop 0;;
  (* LAYER 4: Medium droplets *)
  medDropFilter ← new_connected Tone_Filter [num 3500; str "lowpass"]
                                (ToNode (chain_reverb chain));
  medDropSynth ← new_connected Tone_NoiseSynth [] (ToNode medDropFilter);
  medDropLoop ← new_Loop (prop config "dropletFrequency");
  Loop_start medDropLoop 0;;
  (* LAYER 5: Large drops *)
  largeDropFilter ← new_connected Tone_Filter [num 2000; str "lowpass"]
                                  (ToNode (chain_reverb chain));
  largeDropSynth ← new_connected Tone_NoiseSynth [] (ToNode largeDropFilter);
  largeDropLoop ← new_Loop (str "4n");
  Loop_start largeDropLoop 0;;
  push_loops this [smallDropLoop; medDropLoop; largeDropLoop];;
  push_components this
    [smallDropSynth; smallDropFilter;
     medDropSynth; medDropFilter;
     largeDropSynth; largeDropFilter];;
  (* LAYER 6: Distant thunder *)
  when (not_false (prop config "thunderEnabled")) (
    thunderFilter ← new_connected Tone_Filter [num 200; str "lowpass"]
                                  (ToNode (chain_reverb chain));
    thunderReverb ← new_connected Tone_Reverb
                      [Some (JObj [("decay", JNum 4); ("wet", JNum 0.8)])]
                      (ToNode thunderFilter);
    Reverb_generate thunder_generate_ok thunderReverb;;
    thunderSynth ← new_connected Tone_NoiseSynth [] (ToNode thunderReverb);
    thunderLoop ← new_Loop (num 47);
    Loop_start thunderLoop 30;;
    push_loops this [thunderLoop];;
    push_components this [thunderSynth; thunderReverb; thunderFilter]).

(** Forest ambience engine *)
Definition ForestEngine_start (this : nat) : M unit :=
  e ← this_engine this;
  let config := engineConfig e in
  chain ← createMasterChain
    (mkOptions (prop config "reverb") None (prop config "highPassFreq")
               (prop config "lowPassFreq") None None);
  push_components this (chain_components chain);;
  (* LAYER 1: Base wind through trees *)
  windFilter ← new_connected Tone_Filter [num 1200; str "lowpass"] (ToNode (chain_reverb chain));
  windNoise ← new_connected Tone_Noise [prop config "noiseType"] (ToNode windFilter);
  node_start windNoise;;
  gustLFO1 ← new_node Tone_LFO [num 0.05; num 600; num 1400];
  gustLFO2 ← new_node Tone_LFO [num 0.02; num 800; num 1600];
  connect gustLFO1 (ToParam windFilter "frequency");;
  connect gustLFO2 (ToParam windFilter "frequency");;
  node_start gustLFO1;;
  node_start gustLFO2;;
  push_components this [windNoise; windFilter; gustLFO1; gustLFO2];;
  (* LAYER 2: Leaves rustling *)
  leavesFilter ← new_connected Tone_Filter [num 4000; str "highpass"]
                               (ToNode (chain_reverb chain));
  leavesNoise ← new_connected Tone_Noise [str "white"] (ToNode leavesFilter);
  node_start leavesNoise;;
  rustleLFO ← new_node Tone_LFO [num 0.08; num (-20); num (-8)];
  connect rustleLFO (ToParam leavesNoise "volume");;
  node_start rustleLFO;;
  push_components this [leavesNoise; leavesFilter; rustleLFO];;
  (* LAYER 3: Small songbirds *)
  smallBirdSynth ← new_connected Tone_FMSynth [] (ToNode (chain_reverb chain));
  smallBirdLoop ← new_Loop (str "2n");
  Loop_start smallBirdLoop 2;;
  (* LAYER 4: Larger birds *)
  largeBirdSynth ← new_connected Tone_FMSynth [] (ToNode (chain_reverb chain));
  largeBirdLoop ← new_Loop (num 4);
  Loop_start largeBirdLoop 5;;
  push_loops this [smallBirdLoop; largeBirdLoop];;
  push_components this [smallBirdSynth; largeBirdSynth];;
  (* LAYER 5: Crickets/Insects *)
  when (not_false (prop config "insectsEnabled")) (
    cricketOsc ← new_node Tone_Oscillator [num 4200; str "sine"];
    cricketTremolo ← new_connected Tone_Tremolo [num 18; num 0.9] (ToNode (chain_reverb chain));
    node_start cricketTremolo;;
    connect cricketOsc (ToNode cricketTremolo);;
    node_start cricketOsc;;
    cricket2Osc ← new_node Tone_Oscillator [num 3800; str "sine"];
    cricket2Tremolo ← new_connected Tone_Tremolo [num 15; num 0.85]
                                    (ToNode (chain_reverb chain));
    node_start cricket2Tremolo;;
    connect cricket2Osc (ToNode cricket2Tremolo);;
    node_start cricket2Osc;;
    push_components this [cricketOsc; cricketTremolo; cricket2Osc; cricket2Tremolo]);;
  (* LAYER 6: Distant stream *)
  when (not_false (prop config "streamEnabled")) (
    streamFilter ← new_connected Tone_Filter [num 2500; str "bandpass"]
                                 (ToNode (chain_reverb chain));
    streamNoise ← new_connected Tone_Noise [str "white"] (ToNode streamFilter);
    node_start streamNoise;;
    streamLFO ← new_node Tone_LFO [num 0.15; num 1800; num 3000];
    connect streamLFO (ToParam streamFilter "frequency");;
    node_start streamLFO;;
    push_components this [streamNoise; streamFilter; streamLFO]).

(** Lo-fi beats engine *)
Definition LofiEngine_start (this : nat) : M unit :=
  e ← this_engine this;
  let config := engineConfig e in
  (* Set tempo for this profile *)
  Transport_set_bpm (prop config "bpm");;
  chain ← createMasterChain
    (mkOptions (prop config "reverb") (prop config "delay") None (num 3500)
               (prop config "bitCrush") None);
  push_components this (chain_components chain);;
  (* TAPE WOBBLE *)
  wobbleFilter ← new_connected Tone_Filter [num 3000; str "lowpass"]
                               (ToNode (chain_connect chain));
  wobbleLFO ← new_node Tone_LFO
                 [Some (JObj [("frequency", JNum 0.3); ("min", JNum 2800);
                              ("max", JNum 3200); ("type", JStr "sine")])];
  connect wobbleLFO (ToParam wobbleFilter "frequency");;
  node_start wobbleLFO;;
  push_components this [wobbleFilter; wobbleLFO];;
  (* RHODES-LIKE KEYS *)
  keys ← new_connected Tone_PolySynth [] (ToNode wobbleFilter);
  (* BASS *)
  bass ← new_connected Tone_MonoSynth [] (ToNode (chain_connect chain));
  push_components this [keys; bass];;
  (* VINYL NOISE *)
  vinylFilter ← new_connected Tone_Filter [num 2000; str "highpass"]
                              (ToNode (chain_reverb chain));
  vinylNoise ← new_connected Tone_Noise [str "white"] (ToNode vinylFilter);
  node_start vinylNoise;;
  popSynth ← new_connected Tone_NoiseSynth [] (ToNode (chain_reverb chain));
  popLoop ← new_Loop (str "16n");
  Loop_start popLoop 0;;
  push_loops this [popLoop];;
  push_components this [vinylNoise; vinylFilter; popSynth];;
  (* CHORD PROGRESSION *)
  chordLoop ← new_Loop (str "1m");
  Loop_start chordLoop 0;;
  (* BASS PATTERN *)
  bassLoop ← new_Loop (str "8n");
  Loop_start bassLoop 0;;
  push_loops this [chordLoop; bassLoop].

(** Minimal tones engine *)
Definition MinimalEngine_start (this : nat) : M unit :=
  e ← this_engine this;
  let config := engineConfig e in
  chain ← createMasterChain
    (mkOptions (prop config "reverb") (prop config "delay") None None None None);
  push_components this (chain_components chain);;
  (* MAIN VOICE, HARMONIC VOICE, SUB VOICE *)
  mainSynth ← new_connected Tone_PolySynth [] (ToNode (chain_connect chain));
  harmonicSynth ← new_connected Tone_PolySynth [] (ToNode (chain_reverb chain));
  subSynth ← new_connected Tone_Synth [] (ToNode (chain_connect chain));
  push_components this [mainSynth; harmonicSynth; subSynth];;
  (* GENTLE FILTER MOVEMENT *)
  breathFilter ← new_connected Tone_Filter [num 4000; str "lowpass"]
                               (ToNode (chain_limiter chain));
  breathLFO ← new_node Tone_LFO [num 0.02; num 2500; num 5000];
  connect breathLFO (ToParam breathFilter "frequency");;
  node_start breathLFO;;
  (* Reconnect delay through breathing filter *)
  match chain_delay chain with
  | Some d => disconnect d;; connect d (ToNode breathFilter)
  | None => ret tt
  end;;
  push_components this [breathFilter; breathLFO];;
  (* SPARSE NOTE PATTERN *)
  mainLoop ← new_Loop (prop config "interval");
  Loop_start mainLoop 0;;
  secondaryLoop ← new_Loop (num 7);
  Loop_start secondaryLoop 3;;
  push_loops this [mainLoop; secondaryLoop].

(** Scientific Focus engine *)
Definition default_primeIntervals : JSValue :=
  JArr [JInt 17; JInt 19; JInt 23; JInt 29; JInt 31].

Definition ScientificFocusEngine_start (this : nat) : M unit :=
  e ← this_engine this;
  let config := engineConfig e in
  chain ← createMasterChain
    (mkOptions (prop config "reverb") (prop config "delay") (num 80) (num 2500) None None);
  push_components this (chain_components chain);;
  (* LAYER 1: Pink Noise Bed *)
  pinkNoise ← new_connected Tone_Noise [str "pink"] (ToNode (chain_reverb chain));
  node_start pinkNoise;;
  push_components this [pinkNoise];;
  (* LAYER 2: 40 Hz Gamma Isochronic Pulse *)
  when (not_false (prop config "gammaEnabled")) (
    gammaCarrier ← new_node Tone_Oscillator [num 200; str "sine"];
    gammaLFO ← new_node Tone_LFO [num 40; num 0; num 1];
    gammaGain ← new_connected Tone_Gain [num 0] (ToNode (chain_reverb chain));
    connect gammaCarrier (ToNode gammaGain);;
    connect gammaLFO (ToParam gammaGain "gain");;
    node_start gammaCarrier;;
    node_start gammaLFO;;
    push_components this [gammaCarrier; gammaLFO; gammaGain]);;
  (* LAYER 3-7: Brian Eno Phasing Layers *)
  match or_default (prop config "primeIntervals") default_primeIntervals with
  | JArr primeIntervals =>
      forEach (imap pair primeIntervals) (fun '(index, intervalSeconds) =>
        synth ← new_connected Tone_PolySynth [] (ToNode (chain_connect chain));
        push_components this [synth];;
        loop ← new_Loop (Some intervalSeconds);
        Loop_start loop (Z.of_nat index * 2);;  (* Stagger start times *)
        push_loops this [loop])
  | _ => throw (TypeError "primeIntervals.forEach is not a function")
  end;;
  (* LAYER 8: Texture accents *)
  when (not_false (prop config "textureEnabled")) (
    textureSynth ← new_connected Tone_FMSynth [] (ToNode (chain_reverb chain));
    push_components this [textureSynth];;
    textureLoop ← new_Loop (num 37);
    Loop_start textureLoop 5;;
    push_loops this [textureLoop]);;
  (* BREATHING *)
  breathingLFO ← new_node Tone_LFO [num 0.03; num 1800; num 2200];
  breathingFilter ← new_connected Tone_Filter [num 2000; str "lowpass"]
                                  (ToNode (chain_limiter chain));
  connect breathingLFO (ToParam breathingFilter "frequency");;
  node_start breathingLFO;;
  (* Reconnect reverb through breathing filter *)
  disconnect (chain_reverb chain);;
  connect (chain_reverb chain) (ToNode breathingFilter);;
  push_components this [breathingLFO; breathingFilter].

(** [this.start()], dispatched on the instance's class.  The base class's
    own [start()], which throws 'Must implement start()', is overridden by
    each of the eight classes and never runs. *)
Definition class_start (c : EngineClass) : nat -> M unit :=
  match c with
  | GenerativeEngine => GenerativeEngine_start
  | ScientificFocusEngine => ScientificFocusEngine_start
  | BinauralEngine => BinauralEngine_start
  | NoiseEngine => NoiseEngine_start
  | RainEngine => RainEngine_start
  | ForestEngine => ForestEngine_start
  | LofiEngine => LofiEngine_start
  | MinimalEngine => MinimalEngine_start
  end.

Definition start (this : nat) : M unit :=
  record (Call_start this);;
  e ← this_engine this;
  class_start (engineClass e) this.

(** ** Engine type registry and the lifecycle functions *)

Definition ENGINE_TYPES : gmap string EngineClass :=
  list_to_map [
    ("generative", GenerativeEngine);
    ("scientific", ScientificFocusEngine);
    ("binaural", BinauralEngine);
    ("noise", NoiseEngine);
    ("rain", RainEngine);
    ("forest", ForestEngine);
    ("lofi", LofiEngine);
    ("minimal", MinimalEngine) ].

(** [ENGINE_TYPES] is an object literal, so a property read that finds no
    own property continues in [Object.prototype]: ["constructor"] yields
    the function [Object]; the other inherited names yield built-in methods
    (for ["__proto__"], the prototype object itself), which are truthy but
    cannot be called with [new]. *)
Definition Object_prototype_members : list string :=
  [ "__defineGetter__"; "__defineSetter__"; "hasOwnProperty"; "__lookupGetter__";
    "__lookupSetter__"; "isPrototypeOf"; "propertyIsEnumerable"; "toString";
    "valueOf"; "__proto__"; "toLocaleString" ].

Inductive Property : Type :=
  | Class (c : EngineClass)
  | Object_constructor
  | Inherited_member
  | Undefined.

(** [ENGINE_TYPES[key]] *)
Definition lookup_ENGINE_TYPES (key : string) : Property :=
  match ENGINE_TYPES !! key with
  | Some c => Class c
  | None =>
      if String.eqb key "constructor" then Object_constructor
      else if bool_decide (key ∈ Object_prototype_members) then Inherited_member
      else Undefined
  end.

(** Initialize audio context with error handling *)
Definition Tone_start : M unit :=
  ok ← asks Tone_start_ok;
  if ok then ret tt else throw (Rejected "Tone.start").

Definition initProfileEngine : M bool :=
  initialized ← gets audioInitialized;
  if initialized then ret true
  else
    try_catch
      (Tone_start;;
       modify (set_audioInitialized true);;
       ret true)
      (fun error => ret false).

(** Method calls through the variable [currentEngine]. *)
Definition ref_dispose (r : Ref) : M unit :=
  match r with
  | RefEngine e => SoundEngine_dispose e
  | RefConfig _ => throw (TypeError "currentEngine.dispose is not a function")
  end.
Definition ref_stop (r : Ref) : M unit :=
  match r with
  | RefEngine e => SoundEngine_stop e
  | RefConfig _ => throw (TypeError "currentEngine.stop is not a function")
  end.
Definition ref_start (r : Ref) : M unit :=
  match r with
  | RefEngine e => start e
  | RefConfig _ => throw (TypeError "currentEngine.start is not a function")
  end.

Definition UnknownProfileType (ty : string) : JSError :=
  Error (String.append "Unknown profile type: " ty).

(** Create and start an engine based on profile config *)
Definition createEngine (profile : SoundProfile) : M Ref :=
  (* Dispose current engine if exists *)
  cur ← gets currentEngine;
  match cur with
  | Some r => ref_dispose r;; modify (set_currentEngine None)
  | None => ret tt
  end;;
  (* Initialize audio if needed *)
  initialized ← initProfileEngine;
  (if negb initialized then throw (Error "Failed to initialize audio context") else ret tt);;
  (* Reset transport state for clean start *)
  Transport_stop;;
  Transport_cancel;;
  Transport_set_position 0;;
  (* Create new engine based on type *)
  let config := config profile in
  match lookup_ENGINE_TYPES (type config) with
  | Undefined => throw (UnknownProfileType (type config))
  | Inherited_member => throw (TypeError "EngineClass is not a constructor")
  | Object_constructor =>
      (* [new Object(config)] is [config] itself *)
      modify (set_currentEngine (Some (RefConfig config)));;
      ref_start (RefConfig config);;
      Transport_start;;
      ret (RefConfig config)
  | Class EngineClass =>
      e ← new_engine EngineClass config;
      modify (set_currentEngine (Some (RefEngine e)));;
      record (Install e);;
      ref_start (RefEngine e);;
      (* Start transport *)
      Transport_start;;
      ret (RefEngine e)
  end.

(** Stop current engine *)
Definition stopEngine : M unit :=
  cur ← gets currentEngine;
  match cur with
  | Some r => ref_stop r
  | None => ret tt
  end;;
  Transport_stop.

(** Dispose current engine completely *)
Definition disposeEngine : M unit :=
  cur ← gets currentEngine;
  match cur with
  | Some r => ref_dispose r;; modify (set_currentEngine None)
  | None => ret tt
  end;;
  Transport_stop;;
  Transport_cancel.

(** Get current engine *)
Definition getCurrentEngine (s : Session) : option Ref := currentEngine s.

(** Running a call: the result and the session it leaves. *)
Definition run {A} (m : M A) (env : Env) (s : Session) : Res A * Session := m env s.
Definition result {A} (m : M A) (env : Env) (s : Session) : Res A := fst (m env s).
Definition after {A} (m : M A) (env : Env) (s : Session) : Session := snd (m env s).

(** ** Notions used to state the properties *)

#[export] Instance Event_eq_dec : EqDecision Event.
Proof. solve_decision. Defined.

(** How often [dispose()] was called on engine [e]. *)
Definition dispose_calls (e : nat) (h : list Event) : nat :=
  length (filter (fun ev => ev = Call_dispose e) h).

(** Event [a] occurs in [h] at an earlier position than event [b]. *)
Definition happens_before (a b : Event) (h : list Event) : Prop :=
  exists i j, h !! i = Some a /\ h !! j = Some b /\ (i < j)%nat.

(** A sequence of [createEngine] calls, each awaited before the next one is
    made; [None] when one of them rejects. *)
Fixpoint createEngine_seq (calls : list (SoundProfile * Env)) (s : Session)
  : option Session :=
  match calls with
  | [] => Some s
  | (profile, env) :: rest =>
      match createEngine profile env s with
      | (Ok _, s') => createEngine_seq rest s'
      | (Throw _, _) => None
      end
  end.

(** Time passing: the Transport position advances while it is started. *)
Definition tick (dt : Z) (s : Session) : Session :=
  match state (Transport s) with
  | Started => set_Transport (fun t => mkTransport (state t) (position t + dt) (bpm t)
                                                    (scheduled t)) s
  | _ => s
  end.

(** Sessions reachable through the module's exported functions, the
    audio controller's own calls of [Tone.Transport.pause()] and
    [Tone.Transport.stop()], and the passing of time. *)
Inductive reachable : Session -> Prop :=
  | reach_initial : reachable initial_session
  | reach_createEngine s profile env :
      reachable s -> reachable (after (createEngine profile) env s)
  | reach_stopEngine s env :
      reachable s -> reachable (after stopEngine env s)
  | reach_disposeEngine s env :
      reachable s -> reachable (after disposeEngine env s)
  | reach_Transport_pause s env :
      reachable s -> reachable (after Transport_pause env s)
  | reach_Transport_stop s env :
      reachable s -> reachable (after Transport_stop env s)
  | reach_tick s dt :
      reachable s -> 0 <= dt -> reachable (tick dt s).

(** [currentEngine] is empty or refers to an engine instance. *)
Definition current_is_program (s : Session) : Prop :=
  match currentEngine s with
  | None => True
  | Some (RefEngine e) => is_Some (engines s !! e)
  | Some (RefConfig _) => False
  end.

(** A call-level specification: whatever the outcome, the session moves
    along [R], and a thrown error satisfies [E]. *)
Definition spec {A} (R : Session -> Session -> Prop) (E : JSError -> Prop) (m : M A) : Prop :=
  forall env s, R s (snd (m env s)) /\ (forall e, fst (m env s) = Throw e -> E e).

(** The lifecycle variables and the call history are untouched. *)
Definition same_control (s s' : Session) : Prop :=
  currentEngine s' = currentEngine s /\
  audioInitialized s' = audioInitialized s /\
  history s' = history s /\
  length (engines s') = length (engines s).

(** No engine's lists change and no node is released. *)
Definition keeps_programs (s s' : Session) : Prop :=
  engines s' = engines s /\
  (forall n, disposed <$> nodes s' !! n = disposed <$> nodes s !! n).

(** Every engine instance keeps its class and config, and its lists keep
    all their entries, in place. *)
Definition extends_programs (s s' : Session) : Prop :=
  forall i e, engines s !! i = Some e ->
    exists e', engines s' !! i = Some e' /\
               engineClass e' = engineClass e /\
               components e `prefix_of` components e' /\
               loops e `prefix_of` loops e'.

(** Engine [i] keeps its class, and its lists keep all their entries. *)
Definition extends_at (i : nat) (s s' : Session) : Prop :=
  forall e, engines s !! i = Some e ->
    exists e', engines s' !! i = Some e' /\
               engineClass e' = engineClass e /\
               components e `prefix_of` components e' /\
               loops e `prefix_of` loops e'.

(** Everything but the call history is equal. *)
Definition same_stores (s s' : Session) : Prop :=
  nodes s' = nodes s /\ toneLoops s' = toneLoops s /\ engines s' = engines s /\
  currentEngine s' = currentEngine s /\ audioInitialized s' = audioInitialized s /\
  Transport s' = Transport s.

Definition not_an_Error (e : JSError) : Prop :=
  match e with Error _ => False | _ => True end.

(** *** The master chain *)

Inductive ChainStage : Type :=
  | Stage_limiter | Stage_highPass | Stage_lowPass | Stage_bitCrusher
  | Stage_reverb | Stage_delay.

Definition stage_of (n : ToneNode) : option ChainStage :=
  match cls n, args n with
  | Tone_Limiter, _ => Some Stage_limiter
  | Tone_Filter, [_; Some (JStr t)] =>
      if String.eqb t "highpass" then Some Stage_highPass
      else if String.eqb t "lowpass" then Some Stage_lowPass
      else None
  | Tone_BitCrusher, _ => Some Stage_bitCrusher
  | Tone_Reverb, _ => Some Stage_reverb
  | Tone_PingPongDelay, _ => Some Stage_delay
  | _, _ => None
  end.

Definition stages (s : Session) (ids : list nat) : list (option ChainStage) :=
  (fun n => nodes s !! n ≫= stage_of) <$> ids.

Definition requested (v : option JSValue) (st : ChainStage) : list (option ChainStage) :=
  if truthy v then [Some st] else [].

(** Follow the single outgoing connection of each node until the audio
    destination is reached; [None] when a node on the way is missing, fans
    out, or the fuel runs out. *)
Fixpoint signal_path (fuel : nat) (l : list ToneNode) (t : Target) : option (list nat) :=
  match t with
  | Destination => Some []
  | ToParam _ _ => None
  | ToNode n =>
      match fuel with
      | O => None
      | S fuel' =>
          match outputs <$> l !! n with
          | Some [t'] => cons n <$> signal_path fuel' l t'
          | _ => None
          end
      end
  end.

(** The node is allocated, not disposed, and still connected. *)
Definition live (s : Session) (n : nat) : Prop :=
  exists nd, nodes s !! n = Some nd /\ disposed nd = false /\ outputs nd <> [].

Definition released (s : Session) (n : nat) : Prop :=
  disposed <$> nodes s !! n = Some true.

(** The nodes allocated between [s] and [s']. *)
Definition created (s s' : Session) : list nat :=
  seq (length (nodes s)) (length (nodes s') - length (nodes s)).

(** *** Schedules *)

(** A time given as a number is in seconds; notation strings depend on the
    tempo and are not resolved here. *)
Definition seconds (v : option JSValue) : option Q :=
  match v with
  | Some (JNum q) => Some q
  | _ => None
  end.

(** The scheduled time of the [k]-th trigger of a started loop. *)
Definition triggerTime (lp : ToneLoop) (k : nat) : option Q :=
  match startTime lp, seconds (interval lp) with
  | Some t0, Some p => Some (inject_Z t0 + inject_Z (Z.of_nat k) * p)%Q
  | _, _ => None
  end.

(** The loops of an engine, in the order of [this.loops]. *)
Definition generators (s : Session) (this : nat) : list ToneLoop :=
  match engines s !! this with
  | Some e => omap (fun l => toneLoops s !! l) (loops e)
  | None => []
  end.

(** Generators [i] and [j] have a common trigger time [t]. *)
Definition coincide (gens : list ToneLoop) (i j : nat) (t : Q) : Prop :=
  exists gi gj k l ti tj,
    gens !! i = Some gi /\ gens !! j = Some gj /\
    triggerTime gi k = Some ti /\ triggerTime gj l = Some tj /\
    (ti == t)%Q /\ (tj == t)%Q.

(** The session after the Science Focus profile was started on a fresh
    page, and its five phasing generators. *)
Definition science_session : Session :=
  after (createEngine SCIENCE_FOCUS) all_ok initial_session.
Definition phasing_generators : list ToneLoop :=
  take 5 (generators science_session 0).

(** No engine instance changes. *)
Definition same_engines (s s' : Session) : Prop := engines s' = engines s.

(** The first statement of [createEngine] and of [disposeEngine]. *)
Definition dispose_current : M unit :=
  cur ← gets currentEngine;
  match cur with
  | Some r => ref_dispose r;; modify (set_currentEngine None)
  | None => ret tt
  end.

(** The calls it records when the slot holds an engine. *)
Definition disposal_events (cur : option Ref) : list Event :=
  match cur with
  | Some (RefEngine e) => [Call_dispose e; Call_stop e]
  | _ => []
  end.

(** The Transport after [stop()] and [cancel()]. *)
Definition reset_transport (t : TransportState) : TransportState :=
  mkTransport Stopped 0 (bpm t) [].


(** The outcomes of [createEngine], by the step that ends the call. *)
Inductive createEngine_outcome (profile : SoundProfile) (env : Env) (s : Session)
  : Res Ref -> Session -> Prop :=
  | dispose_threw err s' :
      not_an_Error err -> ~ current_is_program s ->
      currentEngine s' = currentEngine s ->
      audioInitialized s' = audioInitialized s ->
      createEngine_outcome profile env s (Throw err) s'
  | init_failed s' :
      audioInitialized s = false -> Tone_start_ok env = false ->
      currentEngine s' = None -> audioInitialized s' = false ->
      history s' = history s ++ disposal_events (currentEngine s) ->
      (currentEngine s = None -> s' = s) ->
      createEngine_outcome profile env s
        (Throw (Error "Failed to initialize audio context")) s'
  | unknown_type s' :
      lookup_ENGINE_TYPES (type (config profile)) = Undefined ->
      audioInitialized s = true \/ Tone_start_ok env = true ->
      currentEngine s' = None -> audioInitialized s' = true ->
      history s' = history s ++ disposal_events (currentEngine s) ->
      Transport s' = reset_transport (Transport s') ->
      createEngine_outcome profile env s
        (Throw (UnknownProfileType (type (config profile)))) s'
  | not_a_constructor s' :
      lookup_ENGINE_TYPES (type (config profile)) = Inherited_member ->
      audioInitialized s = true \/ Tone_start_ok env = true ->
      currentEngine s' = None -> audioInitialized s' = true ->
      Transport s' = reset_transport (Transport s') ->
      createEngine_outcome profile env s
        (Throw (TypeError "EngineClass is not a constructor")) s'
  | config_installed s' :
      lookup_ENGINE_TYPES (type (config profile)) = Object_constructor ->
      audioInitialized s = true \/ Tone_start_ok env = true ->
      currentEngine s' = Some (RefConfig (config profile)) ->
      audioInitialized s' = true ->
      createEngine_outcome profile env s
        (Throw (TypeError "currentEngine.start is not a function")) s'
  | engine_installed c r s' :
      lookup_ENGINE_TYPES (type (config profile)) = Class c ->
      audioInitialized s = true \/ Tone_start_ok env = true ->
      currentEngine s' = Some (RefEngine (length (engines s))) ->
      audioInitialized s' = true ->
      length (engines s') = S (length (engines s)) ->
      engineClass <$> (engines s' !! length (engines s)) = Some c ->
      history s' = history s ++ disposal_events (currentEngine s)
                     ++ [Install (length (engines s)); Call_start (length (engines s))] ->
      (r = Ok (RefEngine (length (engines s))) \/
       exists err, r = Throw err /\ not_an_Error err) ->
      createEngine_outcome profile env s r s'.


(** The registry's own keys: the eight variant tags. *)
Definition registered_tags : list string :=
  ["generative"; "scientific"; "binaural"; "noise"; "rain"; "forest"; "lofi"; "minimal"].

(** The names a property read on the registry finds in [Object.prototype]. *)
Definition inherited_names : list string := "constructor" :: Object_prototype_members.

(** [this.components] and [this.loops] of an instance in the store. *)
Definition components_of (s : Session) (this : nat) : list nat :=
  from_option components [] (engines s !! this).
Definition loops_of (s : Session) (this : nat) : list nat :=
  from_option loops [] (engines s !! this).

(** A profile that only carries a type. *)
Definition profile_of_type (ty : string) : SoundProfile :=
  mkProfile "" "" "" "" (mkConfig ty ∅).

(** *** The error-handling statements, as the specification words them *)

(** Whenever [createEngine] rejects, no program is active afterwards. *)
Definition rejection_leaves_no_program (profile : SoundProfile) (env : Env) (s : Session)
  : Prop :=
  forall err, result (createEngine profile) env s = Throw err ->
              getCurrentEngine (after (createEngine profile) env s) = None.

(** A type outside the eight tags is rejected as an unknown profile type,
    and no program is active afterwards. *)
Definition unknown_type_is_rejected (profile : SoundProfile) (env : Env) (s : Session)
  : Prop :=
  type (config profile) ∉ registered_tags ->
  result (createEngine profile) env s = Throw (UnknownProfileType (type (config profile))) /\
  getCurrentEngine (after (createEngine profile) env s) = None.

(** No two distinct generators have a common trigger time earlier than
    [bound] seconds. *)
Definition no_coincidence_before (gens : list ToneLoop) (bound : Q) : Prop :=
  forall i j t, i <> j -> coincide gens i j t -> (bound <= t)%Q.

(** The lifecycle variables of reachable sessions: an uninitialized audio
    context means no engine was ever created, and an empty slot means the
    Transport is stopped at position 0 with nothing registered. *)
Definition idle_invariant (s : Session) : Prop :=
  (audioInitialized s = false -> currentEngine s = None) /\
  (currentEngine s = None -> Transport s = reset_transport (Transport s)).

(** The lifecycle after [n] successful [createEngine] calls on a fresh
    page: engine [n - 1] is active, the [n - 1] earlier ones each had
    [dispose()] called once, and each of those calls precedes the
    installation of the active engine. *)
Definition lifecycle_after (n : nat) (s : Session) : Prop :=
  currentEngine s = match n with O => None | S k => Some (RefEngine k) end /\
  length (engines s) = n /\
  (forall e, dispose_calls e (history s) = if decide (S e < n)%nat then 1%nat else 0%nat) /\
  (forall e, (e < n)%nat <-> Install e ∈ history s) /\
  (forall e, (S e < n)%nat ->
             happens_before (Call_dispose e) (Install (n - 1)) (history s)).

(** On a failed impulse generation the builder returns no handle and has
    released every node it created. *)
Definition releases_created_on_failure (options : ChainOptions) (env : Env) (s : Session)
  : Prop :=
  chain_generate_ok env = false ->
  (exists err, result (createMasterChain options) env s = Throw err) /\
  (forall n, n ∈ created s (after (createMasterChain options) env s) ->
             released (after (createMasterChain options) env s) n).

(** The session after the Science Focus engine was disposed again. *)
Definition idle_session : Session := after disposeEngine all_ok science_session.

(** *** Pre- and postconditions of a call *)

(** From a session satisfying [P], the call either returns a value and a
    session satisfying [Q], or throws an error satisfying [E] together
    with the session it leaves. *)
Definition hoare {A} (env : Env) (P : Session -> Prop) (m : M A)
    (Q : A -> Session -> Prop) (E : JSError -> Session -> Prop) : Prop :=
  forall s, P s ->
    match m env s with
    | (Ok a, s') => Q a s'
    | (Throw e, s') => E e s'
    end.

(** The books of a running [start()] call on engine [this], begun in
    session [s0]: [pn] are the nodes the call has allocated and not yet
    pushed onto [this.components], each with its Tone.js class, [pl] the
    loops it has started and not yet pushed onto [this.loops].  Every other
    allocated node is in [this.components], every other registration in
    [this.loops]; no other engine changed; no allocated node was released;
    and a node the call started has a [stop] method. *)
Definition accounted (s0 : Session) (this : nat) (cfg : Config)
    (pn : list (nat * ToneClass)) (pl : list nat) (s : Session) : Prop :=
  exists e dn dl,
    engines s !! this = Some e /\ engineConfig e = cfg /\
    components e = components_of s0 this ++ dn /\
    loops e = loops_of s0 this ++ dl /\
    (forall i, i <> this -> engines s !! i = engines s0 !! i) /\
    length (engines s) = length (engines s0) /\
    (length (nodes s0) <= length (nodes s))%nat /\
    (created s0 s ≡ₚ dn ++ pn.*1) /\
    (forall n c, (n, c) ∈ pn -> cls <$> nodes s !! n = Some c) /\
    (forall n nd, n ∈ created s0 s -> nodes s !! n = Some nd ->
       disposed nd = false /\ (started nd = true -> has_stop (cls nd) = true)) /\
    (forall n, (n < length (nodes s0))%nat ->
               disposed <$> nodes s !! n = disposed <$> nodes s0 !! n) /\
    scheduled (Transport s) = scheduled (Transport s0) ++ dl ++ pl /\
    state (Transport s) = state (Transport s0) /\
    position (Transport s) = position (Transport s0) /\
    currentEngine s = currentEngine s0 /\
    audioInitialized s = audioInitialized s0.

(** The step of [start()] that rejects, if any, with its error: the
    impulse generation of the master chain, then (rain, with thunder not
    switched off) the impulse generation of the thunder reverb, or
    (scientific) a [primeIntervals] value that is truthy and not an array. *)
Definition start_rejection (env : Env) (c : EngineClass) (cfg : Config) : option JSError :=
  if negb (chain_generate_ok env) then Some (Rejected "Reverb.generate")
  else
    match c with
    | RainEngine =>
        if not_false (prop cfg "thunderEnabled") && negb (thunder_generate_ok env)
        then Some (Rejected "Reverb.generate") else None
    | ScientificFocusEngine =>
        match or_default (prop cfg "primeIntervals") default_primeIntervals with
        | JArr _ => None
        | _ => Some (TypeError "primeIntervals.forEach is not a function")
        end
    | _ => None
    end.

(** How a rejected [start()] leaves the session: the error is the one
    [start_rejection] names, the books are in order with some nodes still
    pending (never pushed onto [this.components]), and at least two of them
    when an impulse generation failed. *)
Definition start_fails (env : Env) (c : EngineClass) (s0 : Session) (this : nat) (cfg : Config)
    (err : JSError) (s : Session) : Prop :=
  start_rejection env c cfg = Some err /\
  exists pn, accounted s0 this cfg pn [] s /\
             (err = Rejected "Reverb.generate" -> (2 <= length pn)%nat).

(** The check of [createEngine] that rejects, if any, with its error, in
    the order the function makes them: audio initialization, the registry
    lookup, then the steps of the new engine's [start()]. *)
Definition createEngine_rejection (profile : SoundProfile) (env : Env) (s : Session)
  : option JSError :=
  if negb (audioInitialized s || Tone_start_ok env)
  then Some (Error "Failed to initialize audio context")
  else
    match lookup_ENGINE_TYPES (type (config profile)) with
    | Undefined => Some (UnknownProfileType (type (config profile)))
    | Inherited_member => Some (TypeError "EngineClass is not a constructor")
    | Object_constructor => Some (TypeError "currentEngine.start is not a function")
    | Class c => start_rejection env c (config profile)
    end.

(** No node is allocated. *)
Definition same_node_count (s s' : Session) : Prop := length (nodes s') = length (nodes s).

(** The session in which [createEngine] calls [start()] on the new engine
    of class [c]: [s] is the session left by the disposal of the previous
    engine. *)
Definition before_start (c : EngineClass) (cfg : Config) (s : Session) : Session :=
  mkSession (nodes s) (toneLoops s) (engines s ++ [mkEngine c cfg [] []])
            (Some (RefEngine (length (engines s)))) true
            (mkTransport Stopped 0 (bpm (Transport s)) [])
            (history s ++ [Install (length (engines s)); Call_start (length (engines s))]).

(** [loop.stop()] on the loop record. *)
Definition stopped_loop (lp : ToneLoop) : ToneLoop :=
  mkLoop (interval lp) (startTime lp) false.

(** What [stop()] does to the loop store, the timeline and the node store. *)
Definition stop_loops (l : list nat) (tl : list ToneLoop) : list ToneLoop :=
  foldl (fun acc x => alter stopped_loop x acc) tl l.
Definition unschedule_all (l : list nat) (q : list nat) : list nat :=
  foldl (fun acc x => unschedule x (unschedule x acc)) q l.
Definition stop_nodes (l : list nat) (ns : list ToneNode) : list ToneNode :=
  foldl (fun acc n =>
           if from_option has_stop false (cls <$> acc !! n)
           then alter (set_started false) n acc else acc) ns l.

(** ** Configuration constants (js/config.js) *)

(** The timer settings and the messages; no module reads the [AUDIO]
    block. *)

Module CONFIG.
Module TIMER.
Definition DEFAULT_MINUTES : Z := 25.
Definition DEFAULT_SECONDS : Z := 0.
Definition BREAK_MINUTES : Z := 5.
Definition LONG_BREAK_MINUTES : Z := 15.
Definition TIME_ADJUSTMENT_STEP : Z := 5.
Definition MIN_TIMER_MINUTES : Z := 5.
Definition STATUS_RESET_DELAY : Z := 3000.
Definition MAX_LOG_ENTRIES : Z := 100.
Definition SESSIONS_BEFORE_LONG_BREAK : Z := 4.
End TIMER.
Module MESSAGES.
Definition READY : string :=
  "Click START to begin focus session with infinite generative sound".
Definition MUSIC_ACTIVE : string := "♪ Generative sound active - Prime number phasing".
Definition MUSIC_PAUSED : string := "Sound paused".
Definition MUSIC_STOPPED : string := "Sound stopped".
Definition SESSION_COMPLETE : string := "🎯 Focus session complete!".
Definition BREAK_READY : string := "☕ Break time! Click START to begin break".
Definition BREAK_COMPLETE : string := "✨ Break complete! Ready for next focus session".
Definition LONG_BREAK_READY : string := "🌟 Time for a long break! You earned it".
End MESSAGES.

End CONFIG.

(** ** The audio controller (js/audio/audioController.js) *)

(** The module variables [isPlaying] and [currentProfile], the state of the
    profile engine module it drives, and the emoji of the page's favicon
    ([None] while the page still shows the icon it was loaded with). *)
Record Controller : Type := mkController {
  isPlaying : bool;
  currentProfile : SoundProfile;
  audio : Session;
  favicon : option string
}.

Definition initial_controller : Controller :=
  mkController false getDefaultProfile initial_session None.

(** Calls of the controller: like [M], over the controller's state.  A call
    runs to completion before the next one is made. *)
Definition MC (A : Type) : Type := Env -> Controller -> Res A * Controller.

Definition set_audio (s : Session) (c : Controller) : Controller :=
  mkController (isPlaying c) (currentProfile c) s (favicon c).

(** A call into the profile engine module or into Tone.js. *)
Definition engine_call {A} (m : M A) : MC A := fun env c =>
  let (r, s) := m env (audio c) in (r, set_audio s c).

(** favicon.js *)
Definition updateFavicon (emoji : string) (c : Controller) : Controller :=
  mkController (isPlaying c) (currentProfile c) (audio c) (Some emoji).
Definition setFaviconPlaying : Controller -> Controller := updateFavicon "🎵".
Definition setFaviconPaused : Controller -> Controller := updateFavicon "⏸️".
Definition setFaviconDefault : Controller -> Controller := updateFavicon "🎧".

Definition set_isPlaying (b : bool) (c : Controller) : Controller :=
  mkController b (currentProfile c) (audio c) (favicon c).
Definition set_currentProfile (p : SoundProfile) (c : Controller) : Controller :=
  mkController (isPlaying c) p (audio c) (favicon c).

(** Start the generative music with current profile.  The function returns
    a string, or nothing when the music is playing already. *)
Definition startGenerativeMusic : MC (option string) := fun env c =>
  if isPlaying c then (Ok None, c)
  else
    match engine_call (createEngine (currentProfile c)) env c with
    | (Ok _, c1) =>
        let c2 := setFaviconPlaying (set_isPlaying true c1) in
        (Ok (Some (String.append "♪ "
                     (String.append (name (currentProfile c2))
                        (String.append " - " (description (currentProfile c2)))))),
         c2)
    | (Throw error, c1) =>
        (* console.error('Failed to start music:', error) *)
        (Ok (Some "Failed to start music"), c1)
    end.

(** Pause the generative music *)
Definition pauseGenerativeMusic : MC (option string) := fun env c =>
  if negb (isPlaying c) then (Ok None, c)
  else
    match engine_call (Transport_pause;; stopEngine) env c with
    | (Ok _, c1) =>
        (Ok (Some CONFIG.MESSAGES.MUSIC_PAUSED), setFaviconPaused (set_isPlaying false c1))
    | (Throw e, c1) => (Throw e, c1)
    end.

(** Stop the generative music completely *)
Definition stopGenerativeMusic : MC (option string) := fun env c =>
  if negb (isPlaying c) then (Ok None, c)
  else
    match engine_call (Transport_stop;; disposeEngine) env c with
    | (Ok _, c1) =>
        (Ok (Some CONFIG.MESSAGES.MUSIC_STOPPED), setFaviconDefault (set_isPlaying false c1))
    | (Throw e, c1) => (Throw e, c1)
    end.

(** Set the current sound profile.  The restart is not awaited: the value
    [startGenerativeMusic] resolves with is dropped. *)
Definition setProfile (profile : SoundProfile) : MC unit := fun env c =>
  let wasPlaying := isPlaying c in
  match (if isPlaying c then stopGenerativeMusic env c else (Ok None, c)) with
  | (Throw e, c1) => (Throw e, c1)
  | (Ok _, c1) =>
      let c2 := set_currentProfile profile c1 in
      if wasPlaying then
        match startGenerativeMusic env c2 with
        | (Ok _, c3) => (Ok tt, c3)
        | (Throw e, c3) => (Ok tt, c3)
        end
      else (Ok tt, c2)
  end.

Definition isMusicPlaying (c : Controller) : bool := isPlaying c.
Definition getCurrentProfile (c : Controller) : SoundProfile := currentProfile c.

(** The slot holds nothing, an engine instance that exists, or a config
    object. *)
Definition current_is_valid (s : Session) : Prop :=
  match currentEngine s with
  | Some (RefEngine e) => is_Some (engines s !! e)
  | _ => True
  end.

(** What the controller's variables say about the engine module: while
    [isPlaying] holds, the slot holds an engine whose loops are the
    registrations on the started Transport, and the favicon shows the note;
    otherwise the Transport is not started. *)
Definition controller_invariant (c : Controller) : Prop :=
  current_is_valid (audio c) /\
  (isPlaying c = true ->
     exists this e,
       currentEngine (audio c) = Some (RefEngine this) /\
       engines (audio c) !! this = Some e /\
       loops e = scheduled (Transport (audio c)) /\
       state (Transport (audio c)) = Started /\
       audioInitialized (audio c) = true /\
       favicon c = Some "🎵") /\
  (isPlaying c = false -> state (Transport (audio c)) <> Started).

(** Sequences of calls of the controller's exported functions, with
    [setProfile] called on profiles satisfying [allowed]. *)
Inductive controller_steps (allowed : SoundProfile -> Prop) : Controller -> Controller -> Prop :=
  | steps_none c : controller_steps allowed c c
  | steps_setProfile c c' p env :
      controller_steps allowed c c' -> allowed p ->
      controller_steps allowed c (snd (setProfile p env c'))
  | steps_start c c' env :
      controller_steps allowed c c' ->
      controller_steps allowed c (snd (startGenerativeMusic env c'))
  | steps_pause c c' env :
      controller_steps allowed c c' ->
      controller_steps allowed c (snd (pauseGenerativeMusic env c'))
  | steps_stop c c' env :
      controller_steps allowed c c' ->
      controller_steps allowed c (snd (stopGenerativeMusic env c')).

(** Controller states reachable from the page load. *)
Definition controller_reachable (allowed : SoundProfile -> Prop) (c : Controller) : Prop :=
  controller_steps allowed initial_controller c.

Definition any_profile (p : SoundProfile) : Prop := True.
Definition catalog_profile (p : SoundProfile) : Prop := p ∈ getAllProfiles.

(** The Transport's playback state is untouched. *)
Definition same_playback (s s' : Session) : Prop :=
  state (Transport s') = state (Transport s) /\
  position (Transport s') = position (Transport s).

(** [createEngine] after the disposal of the previous engine has
    returned, leaving session [s]. *)
Definition createEngine_from (profile : SoundProfile) (env : Env) (s : Session)
  : Res Ref * Session :=
  if audioInitialized s || Tone_start_ok env then
    let s1 := set_Transport reset_transport (set_audioInitialized true s) in
    match lookup_ENGINE_TYPES (type (config profile)) with
    | Undefined => (Throw (UnknownProfileType (type (config profile))), s1)
    | Inherited_member => (Throw (TypeError "EngineClass is not a constructor"), s1)
    | Object_constructor =>
        (Throw (TypeError "currentEngine.start is not a function"),
         set_currentEngine (Some (RefConfig (config profile))) s1)
    | Class c =>
        match class_start c (length (engines s)) env (before_start c (config profile) s) with
        | (Ok _, s2) =>
            (Ok (RefEngine (length (engines s))),
             set_Transport (fun t => mkTransport Started (position t) (bpm t) (scheduled t)) s2)
        | (Throw err, s2) => (Throw err, s2)
        end
    end
  else (Throw (Error "Failed to initialize audio context"), s).

(** The message [startGenerativeMusic] resolves with on success. *)
Definition playing_message (p : SoundProfile) : string :=
  String.append "♪ " (String.append (name p) (String.append " - " (description p))).

(** The slot holds a config object instead of an engine. *)
Definition holds_config (s : Session) : Prop :=
  exists cfg, currentEngine s = Some (RefConfig cfg).

(** ** Timer state (js/timer/timerState.js) *)

(** The timer counts whole minutes and seconds.  Its values are modelled
    on the integers, which is what JavaScript's numbers are up to 2^53;
    larger values, and [NaN], which [parseInt] can produce, are left out. *)
Module timerState.

(** The module variables.  [timerInterval] holds the handle that
    [setInterval] returned, or [null]. *)
Record State : Type := mkState {
  timerMinutes : Z;
  timerSeconds : Z;
  timerInterval : option nat;
  isTimerRunning : bool;
  isBreakMode : bool;
  completedSessions : Z
}.

Definition initial : State :=
  mkState CONFIG.TIMER.DEFAULT_MINUTES CONFIG.TIMER.DEFAULT_SECONDS None false false 0.

(** The object [getTimerState()] returns: a copy of the values. *)
Module Snapshot.
Record t : Type := mk {
  minutes : Z;
  seconds : Z;
  isRunning : bool;
  isBreakMode : bool;
  completedSessions : Z
}.
End Snapshot.

Definition getTimerState (st : State) : Snapshot.t :=
  Snapshot.mk (timerMinutes st) (timerSeconds st) (isTimerRunning st) (isBreakMode st)
              (completedSessions st).

Definition set_time (m s : Z) (st : State) : State :=
  mkState m s (timerInterval st) (isTimerRunning st) (isBreakMode st) (completedSessions st).

(** Set timer values *)
Definition setTimerValues (minutes seconds : Z) (st : State) : State :=
  set_time (Z.max 0 minutes) (Z.max 0 (Z.min 59 seconds)) st.

(** Reset timer to default *)
Definition resetTimer (st : State) : State :=
  set_time CONFIG.TIMER.DEFAULT_MINUTES CONFIG.TIMER.DEFAULT_SECONDS st.

(** Decrement timer by one second.  Returns [true] if the timer is
    complete, [false] otherwise. *)
Definition decrementTimer (st : State) : bool * State :=
  if (timerSeconds st =? 0)%Z then
    if (timerMinutes st =? 0)%Z then (true, st)
    else (false, set_time (timerMinutes st - 1) 59 st)
  else (false, set_time (timerMinutes st) (timerSeconds st - 1) st).

Definition setTimerInterval (interval : option nat) (st : State) : State :=
  mkState (timerMinutes st) (timerSeconds st) interval (isTimerRunning st) (isBreakMode st)
          (completedSessions st).

Definition setTimerRunning (running : bool) (st : State) : State :=
  mkState (timerMinutes st) (timerSeconds st) (timerInterval st) running (isBreakMode st)
          (completedSessions st).

(** [s.padStart(targetLength, padString)], for a [padString] of one
    character (longer ones are cut to fit, which is not modelled). *)
Fixpoint repeat_string (pad : string) (n : nat) : string :=
  match n with
  | O => EmptyString
  | S k => String.append pad (repeat_string pad k)
  end.
Definition padStart (targetLength : nat) (padString : string) (s : string) : string :=
  String.append (repeat_string padString (targetLength - String.length s)) s.

(** Format timer for display *)
Definition formatTimer (st : State) : string :=
  let mins := padStart 2 "0" (pretty (timerMinutes st)) in
  let secs := padStart 2 "0" (pretty (timerSeconds st)) in
  String.append mins (String.append ":" secs).

(** [a % b] of JavaScript: the remainder has the sign of the dividend. *)
Definition js_rem (a b : Z) : Z := Z.rem a b.

(** Start break mode *)
Definition startBreak (st : State) : State :=
  let isLongBreak :=
    (js_rem (completedSessions st) CONFIG.TIMER.SESSIONS_BEFORE_LONG_BREAK =? 0)%Z
    && (0 <? completedSessions st)%Z in
  mkState (if isLongBreak then CONFIG.TIMER.LONG_BREAK_MINUTES else CONFIG.TIMER.BREAK_MINUTES)
          0 (timerInterval st) (isTimerRunning st) true (completedSessions st).

(** End break mode and return to work *)
Definition endBreak (st : State) : State :=
  mkState CONFIG.TIMER.DEFAULT_MINUTES CONFIG.TIMER.DEFAULT_SECONDS (timerInterval st)
          (isTimerRunning st) false (completedSessions st).

Definition set_completedSessions (n : Z) (st : State) : State :=
  mkState (timerMinutes st) (timerSeconds st) (timerInterval st) (isTimerRunning st)
          (isBreakMode st) n.

(** Increment completed sessions *)
Definition incrementCompletedSessions (st : State) : State :=
  set_completedSessions (completedSessions st + 1) st.

(** Reset session counter *)
Definition resetSessionCounter (st : State) : State := set_completedSessions 0 st.

End timerState.

Import timerState.

(** [decrementTimer] called [n] times, as the countdown interval does
    while no call reports completion: [None] when one of the calls did. *)
Fixpoint countdown (n : nat) (st : timerState.State) : option timerState.State :=
  match n with
  | O => Some st
  | S k =>
      match timerState.decrementTimer st with
      | (true, _) => None
      | (false, st') => countdown k st'
      end
  end.

(** A time the display can show: whole minutes from 0 and seconds from 0
    to 59. *)
Definition timer_valid (st : timerState.State) : Prop :=
  0 <= timerState.timerMinutes st /\ 0 <= timerState.timerSeconds st <= 59.

(** The seconds left on the timer. *)
Definition remaining (st : timerState.State) : Z :=
  60 * timerState.timerMinutes st + timerState.timerSeconds st.

(** What the handlers of the time buttons (js/main.js) do to the timer
    module: add or remove [TIME_ADJUSTMENT_STEP] minutes while the timer is
    not running. *)
Definition onIncreaseTime (st : timerState.State) : timerState.State :=
  let snap := timerState.getTimerState st in
  if timerState.Snapshot.isRunning snap then st
  else timerState.setTimerValues
         (timerState.Snapshot.minutes snap + CONFIG.TIMER.TIME_ADJUSTMENT_STEP)
         (timerState.Snapshot.seconds snap) st.

Definition onDecreaseTime (st : timerState.State) : timerState.State :=
  let snap := timerState.getTimerState st in
  if timerState.Snapshot.isRunning snap then st
  else if (CONFIG.TIMER.MIN_TIMER_MINUTES <=? timerState.Snapshot.minutes snap)%Z then
    timerState.setTimerValues
      (timerState.Snapshot.minutes snap - CONFIG.TIMER.TIME_ADJUSTMENT_STEP)
      (timerState.Snapshot.seconds snap) st
  else st.

(** ** The timer controls (js/timer/timerControls.js) and the page (js/main.js) *)

(** What the timer's side of the page consists of: the variables of the
    timer module, the handles of the intervals the browser holds for the
    page, the text of the timer display and of the start button, the
    [disabled] flags of the stop button and of the time and preset buttons, the
    profile picker's current profile, and the calls of [saveSession] made
    so far (type, duration, profile name), latest first.  The text of the
    start button and the flag of the stop button come from the page's
    markup until a handler writes them ([None]).  The status line, the
    notifications and the calls into the audio controller are left out:
    nothing here reads what they write, and the calls are taken to
    return. *)
Record Page : Type := mkPage {
  timer : State;
  intervals : list nat;
  timerDisplay : string;
  startBtn_textContent : option string;
  stopBtn_disabled : option bool;
  timeBtns_disabled : bool;
  picker_currentProfile : SoundProfile;
  sessions_saved : list (string * Z * string)
}.

Definition with_timer (f : State -> State) (p : Page) : Page :=
  mkPage (f (timer p)) (intervals p) (timerDisplay p) (startBtn_textContent p)
         (stopBtn_disabled p) (timeBtns_disabled p) (picker_currentProfile p) (sessions_saved p).
Definition set_intervals (l : list nat) (p : Page) : Page :=
  mkPage (timer p) l (timerDisplay p) (startBtn_textContent p)
         (stopBtn_disabled p) (timeBtns_disabled p) (picker_currentProfile p) (sessions_saved p).
Definition set_timerDisplay (s : string) (p : Page) : Page :=
  mkPage (timer p) (intervals p) s (startBtn_textContent p)
         (stopBtn_disabled p) (timeBtns_disabled p) (picker_currentProfile p) (sessions_saved p).
Definition set_startBtn_textContent (s : string) (p : Page) : Page :=
  mkPage (timer p) (intervals p) (timerDisplay p) (Some s)
         (stopBtn_disabled p) (timeBtns_disabled p) (picker_currentProfile p) (sessions_saved p).
Definition set_stopBtn_disabled (b : bool) (p : Page) : Page :=
  mkPage (timer p) (intervals p) (timerDisplay p) (startBtn_textContent p)
         (Some b) (timeBtns_disabled p) (picker_currentProfile p) (sessions_saved p).
Definition set_timeBtns_disabled (b : bool) (p : Page) : Page :=
  mkPage (timer p) (intervals p) (timerDisplay p) (startBtn_textContent p)
         (stopBtn_disabled p) b (picker_currentProfile p) (sessions_saved p).
Definition set_picker_currentProfile (pr : SoundProfile) (p : Page) : Page :=
  mkPage (timer p) (intervals p) (timerDisplay p) (startBtn_textContent p)
         (stopBtn_disabled p) (timeBtns_disabled p) pr (sessions_saved p).

(** [setInterval(callback, 1000)] returning the handle [h], and
    [clearInterval(h)].  The one callback the page registers is
    [timerControls.tick] below. *)
Definition setInterval (h : nat) (p : Page) : Page := set_intervals (intervals p ++ [h]) p.
Definition clearInterval (h : nat) (p : Page) : Page :=
  set_intervals (filter (fun x => x <> h) (intervals p)) p.

(** [clearTimerInterval()] of the timer module: a handle that is falsy
    (0) is neither cleared nor forgotten. *)
Definition clearTimerInterval (p : Page) : Page :=
  match timerInterval (timer p) with
  | Some h =>
      if (h =? 0)%nat then p
      else with_timer (setTimerInterval None) (clearInterval h p)
  | None => p
  end.

(** [saveSession(type, duration, profile)] *)
Definition saveSession (type : string) (duration : Z) (profile : string) (p : Page) : Page :=
  mkPage (timer p) (intervals p) (timerDisplay p) (startBtn_textContent p)
         (stopBtn_disabled p) (timeBtns_disabled p) (picker_currentProfile p)
         ((type, duration, profile) :: sessions_saved p).

(** Update the timer display (main.js); [getFormattedTime] is
    [formatTimer]. *)
Definition updateTimerDisplay (p : Page) : Page := set_timerDisplay (formatTimer (timer p)) p.

Module timerControls.

(** The object the controls return to the click handlers. *)
Record Result : Type := mkResult {
  isRunning : option bool;
  text : string;
  disabled : option bool
}.

(** Finish timer session *)
Definition finishSession (p : Page) : Result * Page :=
  let snap := getTimerState (timer p) in
  let p := with_timer (setTimerRunning false) p in
  let p := clearTimerInterval p in
  (* stopGenerativeMusic() *)
  let p :=
    if Snapshot.isBreakMode snap then
      (* Break is complete - return to work mode *)
      let breakDuration :=
        if (js_rem (Snapshot.completedSessions snap) CONFIG.TIMER.SESSIONS_BEFORE_LONG_BREAK =? 0)%Z
        then CONFIG.TIMER.LONG_BREAK_MINUTES else CONFIG.TIMER.BREAK_MINUTES in
      let currentProfile := picker_currentProfile p in
      let p := saveSession "break" breakDuration (name currentProfile) p in
      let p := with_timer endBreak p in
      updateTimerDisplay p
    else
      (* Work session complete - start break *)
      let currentProfile := picker_currentProfile p in
      let p := saveSession "work" CONFIG.TIMER.DEFAULT_MINUTES (name currentProfile) p in
      let p := with_timer incrementCompletedSessions p in
      let p := with_timer startBreak p in
      updateTimerDisplay p in
  (mkResult None "START" (Some true), p).

(** The callback of the countdown interval: the value [finishSession]
    returns is dropped. *)
Definition tick (p : Page) : Page :=
  let (isComplete, st) := decrementTimer (timer p) in
  let p := with_timer (fun _ => st) p in
  if isComplete then snd (finishSession p) else updateTimerDisplay p.

(** Start the timer; [h] is the handle [setInterval] returns. *)
Definition startTimer (h : nat) (p : Page) : option Result * Page :=
  let snap := getTimerState (timer p) in
  if Snapshot.isRunning snap then (None, p)
  else
    let p := with_timer (setTimerRunning true) p in
    (* startGenerativeMusic(), updateStatus *)
    let p := updateTimerDisplay p in
    let p := setInterval h p in
    let p := with_timer (setTimerInterval (Some h)) p in
    (Some (mkResult (Some true) "PAUSE" None), p).

(** Pause the timer *)
Definition pauseTimer (p : Page) : option Result * Page :=
  let snap := getTimerState (timer p) in
  if negb (Snapshot.isRunning snap) then (None, p)
  else
    let p := with_timer (setTimerRunning false) p in
    let p := clearTimerInterval p in
    (* pauseGenerativeMusic(), updateStatus *)
    (Some (mkResult (Some false) "RESUME" None), p).

(** Stop and reset the timer *)
Definition stopTimer (p : Page) : Result * Page :=
  let snap := getTimerState (timer p) in
  let p := with_timer (setTimerRunning false) p in
  let p := clearTimerInterval p in
  (* stopGenerativeMusic(), updateStatus *)
  let p := if Snapshot.isBreakMode snap then with_timer endBreak p else with_timer resetTimer p in
  let p := with_timer resetSessionCounter p in
  let p := updateTimerDisplay p in
  (mkResult None "START" (Some true), p).

End timerControls.

(** The handlers [init()] of main.js registers. *)
Definition updateTimeButtonsState (p : Page) : Page :=
  set_timeBtns_disabled (Snapshot.isRunning (getTimerState (timer p))) p.

(** A value assigned to a [disabled] property: [undefined] counts as
    [false]. *)
Definition as_disabled (v : option bool) : bool := default false v.

Definition startBtn_click (h : nat) (p : Page) : Page :=
  let snap := getTimerState (timer p) in
  let p :=
    if Snapshot.isRunning snap then
      match timerControls.pauseTimer p with
      | (Some result, p) => set_startBtn_textContent (timerControls.text result) p
      | (None, p) => p
      end
    else
      match timerControls.startTimer h p with
      | (Some result, p) =>
          set_stopBtn_disabled false (set_startBtn_textContent (timerControls.text result) p)
      | (None, p) => p
      end in
  updateTimeButtonsState p.

Definition stopBtn_click (p : Page) : Page :=
  let (result, p) := timerControls.stopTimer p in
  let p := set_startBtn_textContent (timerControls.text result) p in
  let p := set_stopBtn_disabled (as_disabled (timerControls.disabled result)) p in
  (* updateStatus(CONFIG.MESSAGES.READY, false) *)
  updateTimeButtonsState p.

Definition increaseTimeBtn_click (p : Page) : Page :=
  let snap := getTimerState (timer p) in
  if Snapshot.isRunning snap then p
  else
    let p := with_timer (setTimerValues (Snapshot.minutes snap + CONFIG.TIMER.TIME_ADJUSTMENT_STEP)
                                        (Snapshot.seconds snap)) p in
    updateTimerDisplay p.

Definition decreaseTimeBtn_click (p : Page) : Page :=
  let snap := getTimerState (timer p) in
  if Snapshot.isRunning snap then p
  else if (CONFIG.TIMER.MIN_TIMER_MINUTES <=? Snapshot.minutes snap)%Z then
    let p := with_timer (setTimerValues (Snapshot.minutes snap - CONFIG.TIMER.TIME_ADJUSTMENT_STEP)
                                        (Snapshot.seconds snap)) p in
    updateTimerDisplay p
  else p.

(** A preset button whose [data-minutes] attribute reads [minutes]. *)
Definition presetBtn_click (minutes : Z) (p : Page) : Page :=
  let snap := getTimerState (timer p) in
  if Snapshot.isRunning snap then p
  else updateTimerDisplay (with_timer (setTimerValues minutes 0) p).

(** A click on the card of the profile at [index], or
    [selectProfileByIndex(index)]: an index outside the catalog selects
    nothing. *)
Definition selectProfileByIndex (index : nat) (p : Page) : Page :=
  match getAllProfiles !! index with
  | Some profile => set_picker_currentProfile profile p
  | None => p
  end.

(** What can happen to the page.  The browser gives [setInterval] a
    handle above 0 that no active interval has, and runs the callback of
    active intervals only.  Clicks are taken whatever the [disabled] flags
    say; a disabled button receives none, so the page's own behaviours are
    among the ones described here. *)
Inductive PageEvent : Type :=
  | ClickStart (h : nat)
  | ClickStop
  | ClickIncrease
  | ClickDecrease
  | ClickPreset (minutes : Z)
  | SelectProfile (index : nat)
  | Tick (h : nat).

Definition enabled (ev : PageEvent) (p : Page) : bool :=
  match ev with
  | ClickStart h => negb (h =? 0)%nat && bool_decide (h ∉ intervals p)
  | Tick h => bool_decide (h ∈ intervals p)
  | _ => true
  end.

Definition handle (ev : PageEvent) (p : Page) : Page :=
  match ev with
  | ClickStart h => startBtn_click h p
  | ClickStop => stopBtn_click p
  | ClickIncrease => increaseTimeBtn_click p
  | ClickDecrease => decreaseTimeBtn_click p
  | ClickPreset minutes => presetBtn_click minutes p
  | SelectProfile index => selectProfileByIndex index p
  | Tick _ => timerControls.tick p
  end.

(** The page after a sequence of events, [None] when one of them cannot
    happen. *)
Fixpoint page_run (evs : list PageEvent) (p : Page) : option Page :=
  match evs with
  | [] => Some p
  | ev :: rest => if enabled ev p then page_run rest (handle ev p) else None
  end.

(** The page when [init()] has run. *)
Definition initial_page : Page :=
  updateTimeButtonsState
    (updateTimerDisplay
       (mkPage initial [] EmptyString None None false getDefaultProfile [])).

Definition page_reachable (p : Page) : Prop :=
  exists evs, page_run evs initial_page = Some p.

(** The break [startBreak] gives after [c] completed sessions. *)
Definition break_minutes (c : Z) : Z :=
  if (js_rem c CONFIG.TIMER.SESSIONS_BEFORE_LONG_BREAK =? 0)%Z
  then CONFIG.TIMER.LONG_BREAK_MINUTES else CONFIG.TIMER.BREAK_MINUTES.

(** What holds of the page between events. *)
Definition page_invariant (p : Page) : Prop :=
  timer_valid (timer p) /\
  match timerInterval (timer p) with
  | Some h => intervals p = [h] /\ h <> 0%nat /\ isTimerRunning (timer p) = true
  | None => intervals p = [] /\ isTimerRunning (timer p) = false
  end /\
  timerDisplay p = formatTimer (timer p) /\
  0 <= completedSessions (timer p) /\
  (isBreakMode (timer p) = true -> 1 <= completedSessions (timer p)) /\
  (isTimerRunning (timer p) = true ->
     startBtn_textContent p = Some "PAUSE" /\ stopBtn_disabled p = Some false /\
     timeBtns_disabled p = true).

(** A recorded session with a nominal length: a work session of
    [DEFAULT_MINUTES], or a break of [BREAK_MINUTES] or
    [LONG_BREAK_MINUTES], under the name of a catalog profile. *)
Definition nominal_session (e : string * Z * string) : Prop :=
  (e.1.1 = "work" /\ e.1.2 = CONFIG.TIMER.DEFAULT_MINUTES \/
   e.1.1 = "break" /\
   (e.1.2 = CONFIG.TIMER.BREAK_MINUTES \/ e.1.2 = CONFIG.TIMER.LONG_BREAK_MINUTES)) /\
  exists profile, profile ∈ getAllProfiles /\ e.2 = name profile.

(** * Proofs *)

(** ** Composition rules for call-level specifications *)

Section SpecRules.
Context (R : Session -> Session -> Prop) (E : JSError -> Prop).
Context (R_refl : forall s, R s s) (R_trans : forall s1 s2 s3, R s1 s2 -> R s2 s3 -> R s1 s3).

Lemma spec_ret {A} (a : A) : spec R E (ret a).
Proof using R_refl. intros env s; simpl; split; [apply R_refl | discriminate]. Qed.

Lemma spec_throw {A} (e : JSError) : E e -> spec R E (@throw A e).
Proof using R_refl. intros He env s; simpl; split; [apply R_refl | congruence]. Qed.

Lemma spec_gets {A} (f : Session -> A) : spec R E (gets f).
Proof using R_refl. intros env s; simpl; split; [apply R_refl | discriminate]. Qed.

Lemma spec_asks {A} (f : Env -> A) : spec R E (asks f).
Proof using R_refl. intros env s; simpl; split; [apply R_refl | discriminate]. Qed.

Lemma spec_modify (f : Session -> Session) : (forall s, R s (f s)) -> spec R E (modify f).
Proof using Type. intros Hf env s; simpl; split; [apply Hf | discriminate]. Qed.

Lemma spec_bind {A B} (m : M A) (f : A -> M B) :
    spec R E m -> (forall a, spec R E (f a)) -> spec R E (bind m f).
Proof using R_trans.
    intros Hm Hf env s. unfold bind.
    destruct (Hm env s) as [HR HE].
    destruct (m env s) as [[a | e] s1]; simpl in *.
    - destruct (Hf a env s1) as [HR' HE']. split; [eauto | exact HE'].
    - split; [exact HR | intros e0 [= <-]; apply HE; reflexivity].
Qed.

Lemma spec_when (b : bool) (m : M unit) : spec R E m -> spec R E (when b m).
Proof using R_refl. destruct b; simpl; [trivial | intros _; apply spec_ret]. Qed.

Lemma spec_forEach {A} (l : list A) (f : A -> M unit) :
    (forall x, spec R E (f x)) -> spec R E (forEach l f).
Proof using R_refl R_trans.
    intros Hf. induction l as [| x l IH]; simpl.
    - apply spec_ret.
    - apply spec_bind; [apply Hf | intros _; exact IH].
Qed.

Lemma spec_try_catch {A} (E' : JSError -> Prop) (m : M A) (h : JSError -> M A) :
    spec R E' m -> (forall e, spec R E (h e)) -> spec R E (try_catch m h).
Proof using R_trans.
    intros Hm Hh env s. unfold try_catch.
    destruct (Hm env s) as [HR HE].
    destruct (m env s) as [[a | e] s1]; simpl in *.
    - split; [exact HR | discriminate].
    - destruct (Hh e env s1) as [HR' HE']. split; [eauto | exact HE'].
Qed.
End SpecRules.

Lemma spec_never_throws {A} (R : Session -> Session -> Prop) (m : M A) env s :
  spec R (fun _ => False) m -> exists a, fst (m env s) = Ok a.
Proof.
  intros H. destruct (H env s) as [_ HE].
  destruct (fst (m env s)) as [a | e]; [eauto | destruct (HE e eq_refl)].
Qed.

(** ** The three frame relations are preorders *)

Lemma same_control_refl s : same_control s s.
Proof. unfold same_control; auto. Qed.

Lemma same_control_trans s1 s2 s3 :
  same_control s1 s2 -> same_control s2 s3 -> same_control s1 s3.
Proof. unfold same_control; intros (?&?&?&?) (?&?&?&?); repeat split; congruence. Qed.

Lemma keeps_programs_refl s : keeps_programs s s.
Proof. unfold keeps_programs; auto. Qed.

Lemma keeps_programs_trans s1 s2 s3 :
  keeps_programs s1 s2 -> keeps_programs s2 s3 -> keeps_programs s1 s3.
Proof.
  unfold keeps_programs; intros [? H1] [? H2]; split; [congruence |].
  intros n. rewrite H2. apply H1.
Qed.

Lemma extends_programs_refl s : extends_programs s s.
Proof. intros i e He. exists e. auto. Qed.

Lemma extends_programs_trans s1 s2 s3 :
  extends_programs s1 s2 -> extends_programs s2 s3 -> extends_programs s1 s3.
Proof.
  intros H1 H2 i e He.
  destruct (H1 i e He) as (e' & He' & Hc & Hp & Hl).
  destruct (H2 i e' He') as (e'' & He'' & Hc' & Hp' & Hl').
  exists e''. repeat split; [assumption | congruence | |]; etrans; eassumption.
Qed.

Lemma extends_programs_same s s' : engines s' = engines s -> extends_programs s s'.
Proof. intros H i e He. exists e. rewrite H. auto. Qed.

Lemma extends_programs_alter (f : SoundEngine -> SoundEngine) this s :
  (forall e, engineClass (f e) = engineClass e /\
             components e `prefix_of` components (f e) /\
             loops e `prefix_of` loops (f e)) ->
  extends_programs s (set_engines (alter f this) s).
Proof.
  intros Hf i e He. simpl.
  destruct (decide (this = i)) as [-> | Hne].
  - exists (f e). rewrite list_lookup_alter_eq, He. split; [reflexivity | apply Hf].
  - exists e. rewrite list_lookup_alter_ne by assumption. auto.
Qed.

Lemma disposed_alter (f : ToneNode -> ToneNode) k (l : list ToneNode) n :
  (forall x, disposed (f x) = disposed x) ->
  disposed <$> alter f k l !! n = disposed <$> l !! n.
Proof.
  intros Hf. destruct (decide (k = n)) as [-> | Hne].
  - rewrite list_lookup_alter_eq. destruct (l !! n); simpl; [by rewrite Hf | done].
  - by rewrite list_lookup_alter_ne.
Qed.

(** ** Symbolic stepping through a call *)

Ltac spec_head m :=
  lazymatch m with
  | ?f _ _ _ _ _ => spec_head f
  | ?f _ _ _ _ => spec_head f
  | ?f _ _ _ => spec_head f
  | ?f _ _ => spec_head f
  | ?f _ => spec_head f
  | ?f => f
  end.

Ltac spec_raw tacR :=
  let env := fresh "env" in
  let s := fresh "s" in
  intros env s; simpl;
  split; [ tacR | first [ discriminate | intros ? [= <-]; exact I | intros ? ?; exact I ] ].

Create HintDb engine_frames.

Ltac spec_step refl trans tacR :=
  lazymatch goal with
  | |- spec _ _ (createMasterChain _) => solve [ auto 1 with engine_frames nocore ]
  | |- spec _ _ (class_start _ _) => solve [ auto 1 with engine_frames nocore ]
  | |- spec _ _ (start _) => solve [ auto 1 with engine_frames nocore ]
  | |- spec _ _ (SoundEngine_stop _) => solve [ auto 1 with engine_frames nocore ]
  | |- spec _ _ (SoundEngine_dispose _) => solve [ auto 1 with engine_frames nocore ]
  | |- spec _ _ (bind _ _) => apply (spec_bind _ _ trans); [ | intros ? ]
  | |- spec _ _ (ret _) => apply (spec_ret _ _ refl)
  | |- spec _ _ (throw _) => apply (spec_throw _ _ refl); exact I
  | |- spec _ _ (gets _) => apply (spec_gets _ _ refl)
  | |- spec _ _ (asks _) => apply (spec_asks _ _ refl)
  | |- spec _ _ (modify _) => apply spec_modify; intros ?; tacR
  | |- spec _ _ (when _ _) => apply (spec_when _ _ refl)
  | |- spec _ _ (forEach _ _) => apply (spec_forEach _ _ refl trans); intros ?
  | |- spec _ _ (new_node _ _) => spec_raw tacR
  | |- spec _ _ (new_Loop _) => spec_raw tacR
  | |- spec _ _ (new_engine _ _) => spec_raw tacR
  | |- spec _ _ (this_engine ?this) =>
      let env := fresh "env" in
      let s := fresh "s" in
      intros env s; unfold this_engine; destruct (engines s !! this); simpl;
      (split; [ apply refl | first [ discriminate | intros ? [= <-]; exact I ] ])
  | |- spec _ _ (match ?x with _ => _ end) => destruct x
  | |- spec _ _ (let _ := _ in _) => cbv zeta
  | |- spec _ _ ?m => let h := spec_head m in unfold h
  end.

Ltac spec_go refl trans tacR := repeat (spec_step refl trans tacR).

(** ** Frame properties of the engines' methods *)

Ltac same_control_tac :=
  unfold same_control, record; simpl; rewrite ?length_alter; auto.

Lemma createMasterChain_same_control options :
  spec same_control not_an_Error (createMasterChain options).
Proof.
  unfold createMasterChain.
  spec_go same_control_refl same_control_trans same_control_tac.
Qed.
#[local] Hint Resolve createMasterChain_same_control : engine_frames.

Lemma class_start_same_control c this :
  spec same_control not_an_Error (class_start c this).
Proof.
  destruct c; simpl.
  all: unfold GenerativeEngine_start, ScientificFocusEngine_start, BinauralEngine_start,
    NoiseEngine_start, RainEngine_start, ForestEngine_start, LofiEngine_start,
    MinimalEngine_start.
  all: spec_go same_control_refl same_control_trans same_control_tac.
Qed.
#[local] Hint Resolve class_start_same_control : engine_frames.

Ltac keeps_programs_tac :=
  unfold keeps_programs, record; simpl; split;
  [ reflexivity | intros ?; first [ reflexivity | apply disposed_alter; intros ?; reflexivity ] ].

Ltac extends_programs_tac :=
  first
    [ apply extends_programs_same; reflexivity
    | apply extends_programs_alter; intros ?; simpl;
      repeat split; first [ reflexivity | apply prefix_app_r; reflexivity ] ].

Lemma createMasterChain_extends options :
  spec extends_programs (fun _ => True) (createMasterChain options).
Proof.
  unfold createMasterChain.
  spec_go extends_programs_refl extends_programs_trans extends_programs_tac.
Qed.

Lemma class_start_extends c this :
  spec extends_programs (fun _ => True) (class_start c this).
Proof.
  pose proof createMasterChain_extends.
  destruct c; simpl.
  all: unfold GenerativeEngine_start, ScientificFocusEngine_start, BinauralEngine_start,
    NoiseEngine_start, RainEngine_start, ForestEngine_start, LofiEngine_start,
    MinimalEngine_start.
  all: spec_go extends_programs_refl extends_programs_trans extends_programs_tac.
Qed.

Lemma start_extends this : spec extends_programs (fun _ => True) (start this).
Proof.
  pose proof class_start_extends.
  unfold start.
  spec_go extends_programs_refl extends_programs_trans extends_programs_tac.
Qed.

Lemma SoundEngine_stop_keeps this :
  spec keeps_programs (fun _ => True) (SoundEngine_stop this).
Proof.
  unfold SoundEngine_stop.
  spec_go keeps_programs_refl keeps_programs_trans keeps_programs_tac.
Qed.

Lemma SoundEngine_stop_same_control_tail this :
  spec same_control not_an_Error
    (e ← this_engine this;
     forEach (loops e) (fun loop => Loop_stop loop;; Loop_cancel loop);;
     forEach (components e) (fun comp =>
       c ← gets (fun s => class_of s comp);
       when (from_option has_releaseAll false c) (node_releaseAll comp);;
       when (from_option has_stop false c) (node_stop comp))).
Proof. spec_go same_control_refl same_control_trans same_control_tac. Qed.

Lemma spec_run {A} R E (m : M A) env s r s' :
  spec R E m -> m env s = (r, s') -> R s s' /\ (forall e, r = Throw e -> E e).
Proof. intros H Hrun. specialize (H env s). rewrite Hrun in H. exact H. Qed.

(** What [stop()], [dispose()] and [start()] do to the lifecycle variables
    and to the call history, whatever their outcome. *)
Lemma SoundEngine_stop_control this env s r s' :
  SoundEngine_stop this env s = (r, s') ->
  currentEngine s' = currentEngine s /\
  audioInitialized s' = audioInitialized s /\
  history s' = history s ++ [Call_stop this] /\
  length (engines s') = length (engines s) /\
  (forall e, r = Throw e -> not_an_Error e).
Proof.
  unfold SoundEngine_stop.
  set (tail := bind (this_engine this) _).
  unfold bind at 1. simpl. intros Hrun.
  destruct (spec_run _ _ _ _ _ _ _ (SoundEngine_stop_same_control_tail this) Hrun)
    as [(Hc & Ha & Hh & Hl) HE].
  simpl in *. auto.
Qed.

Lemma SoundEngine_dispose_same_control_tail this :
  spec same_control not_an_Error
    (modify (set_engines (alter (set_loops (fun _ => [])) this));;
     e ← this_engine this;
     forEach (components e) (fun comp => node_dispose comp);;
     modify (set_engines (alter (set_components (fun _ => [])) this))).
Proof. spec_go same_control_refl same_control_trans same_control_tac. Qed.

Lemma SoundEngine_dispose_control this env s r s' :
  SoundEngine_dispose this env s = (r, s') ->
  currentEngine s' = currentEngine s /\
  audioInitialized s' = audioInitialized s /\
  history s' = history s ++ [Call_dispose this; Call_stop this] /\
  length (engines s') = length (engines s) /\
  (forall e, r = Throw e -> not_an_Error e).
Proof.
  unfold SoundEngine_dispose.
  set (tail := bind (modify _) _).
  unfold bind at 1. simpl.
  set (s0 := mkSession _ _ _ _ _ _ _).
  unfold bind.
  destruct (SoundEngine_stop this env s0) as [[[] | err] s1] eqn:Hstop;
    apply SoundEngine_stop_control in Hstop;
    destruct Hstop as (Hc & Ha & Hh & Hl & HE); subst s0; simpl in *.
  - intros Hrun.
    destruct (spec_run _ _ _ _ _ _ _ (SoundEngine_dispose_same_control_tail this) Hrun)
      as [(Hc' & Ha' & Hh' & Hl') HE'].
    rewrite Hc', Ha', Hh', Hl', Hc, Ha, Hh, Hl.
    rewrite <- app_assoc. auto.
  - intros [= <- <-]. rewrite Hh, <- app_assoc. auto.
Qed.

Lemma start_control this env s r s' :
  start this env s = (r, s') ->
  currentEngine s' = currentEngine s /\
  audioInitialized s' = audioInitialized s /\
  history s' = history s ++ [Call_start this] /\
  length (engines s') = length (engines s) /\
  (forall e, r = Throw e -> not_an_Error e).
Proof.
  unfold start.
  set (tail := bind (this_engine this) _).
  unfold bind at 1. simpl.
  assert (Htail : spec same_control not_an_Error tail).
  { subst tail. spec_go same_control_refl same_control_trans same_control_tac. }
  intros Hrun.
  destruct (spec_run _ _ _ _ _ _ _ Htail Hrun) as [(Hc & Ha & Hh & Hl) HE].
  simpl in *. auto.
Qed.

(** ** [stop()] and [dispose()] on an existing instance *)


Lemma same_engines_refl s : same_engines s s.
Proof. reflexivity. Qed.

Lemma same_engines_trans s1 s2 s3 :
  same_engines s1 s2 -> same_engines s2 s3 -> same_engines s1 s3.
Proof. unfold same_engines; congruence. Qed.

Ltac same_engines_tac := unfold same_engines, record; simpl; reflexivity.

Lemma stop_loops_never_throw (l : list nat) :
  spec same_engines (fun _ => False)
    (forEach l (fun loop => Loop_stop loop;; Loop_cancel loop)).
Proof. spec_go same_engines_refl same_engines_trans same_engines_tac. Qed.

Lemma stop_components_never_throw (l : list nat) :
  spec same_engines (fun _ => False)
    (forEach l (fun comp =>
       c ← gets (fun s => class_of s comp);
       when (from_option has_releaseAll false c) (node_releaseAll comp);;
       when (from_option has_stop false c) (node_stop comp))).
Proof. spec_go same_engines_refl same_engines_trans same_engines_tac. Qed.

Lemma never_throws_run {A} R (m : M A) env s :
  spec R (fun _ => False) m -> exists a s', m env s = (Ok a, s') /\ R s s'.
Proof.
  intros H. destruct (H env s) as [HR HE].
  destruct (m env s) as [[a | e] s']; simpl in *; [eauto | destruct (HE e eq_refl)].
Qed.

Lemma SoundEngine_stop_ok this env s e :
  engines s !! this = Some e ->
  exists s', SoundEngine_stop this env s = (Ok tt, s') /\ engines s' = engines s.
Proof.
  intros He. unfold SoundEngine_stop, bind at 1 2, record, modify, this_engine. simpl.
  rewrite He. unfold bind.
  match goal with |- context [forEach (loops e) ?f env ?s0] =>
    destruct (never_throws_run _ (forEach (loops e) f) env s0 (stop_loops_never_throw _))
      as ([] & s1 & -> & H1)
  end.
  match goal with |- context [forEach (components e) ?f env s1] =>
    destruct (never_throws_run _ (forEach (components e) f) env s1
                (stop_components_never_throw _))
      as ([] & s2 & -> & H2)
  end.
  exists s2. split; [reflexivity |].
  unfold same_engines in *. rewrite H2, H1. reflexivity.
Qed.

(** [forEach] over [node.dispose()] releases exactly the listed nodes. *)
Lemma dispose_components_run (l : list nat) env s :
  forEach l (fun comp => node_dispose comp) env s =
  (Ok tt, set_nodes (fun ns => foldl (fun acc n => alter set_disposed n acc) ns l) s).
Proof.
  revert s. induction l as [| n l IH]; intros s; simpl.
  - unfold ret. destruct s; reflexivity.
  - unfold bind, node_dispose, modify. simpl. rewrite IH. destruct s; reflexivity.
Qed.

Lemma disposed_stays (l : list nat) (ns : list ToneNode) n :
  disposed <$> ns !! n = Some true ->
  disposed <$> foldl (fun acc k => alter set_disposed k acc) ns l !! n = Some true.
Proof.
  revert ns. induction l as [| k l IH]; intros ns H; simpl; [exact H |].
  apply IH. destruct (decide (k = n)) as [-> | Hne].
  - rewrite list_lookup_alter_eq. destruct (ns !! n); simpl in *; [reflexivity | discriminate].
  - rewrite list_lookup_alter_ne by assumption. exact H.
Qed.

Lemma dispose_components_released (l : list nat) (ns : list ToneNode) n :
  n ∈ l -> is_Some (ns !! n) ->
  disposed <$> foldl (fun acc k => alter set_disposed k acc) ns l !! n = Some true.
Proof.
  revert ns. induction l as [| k l IH]; intros ns Hin Hsome.
  - inversion Hin.
  - simpl. destruct (decide (k = n)) as [-> | Hne].
    + apply disposed_stays. rewrite list_lookup_alter_eq.
      destruct Hsome as [nd ->]. reflexivity.
    + apply IH.
      * apply elem_of_cons in Hin. destruct Hin; [congruence | assumption].
      * rewrite list_lookup_alter_ne by assumption. exact Hsome.
Qed.

Lemma SoundEngine_dispose_ok this env s e :
  engines s !! this = Some e ->
  exists s',
    SoundEngine_dispose this env s = (Ok tt, s') /\
    engines s' !! this = Some (mkEngine (engineClass e) (engineConfig e) [] []) /\
    (forall i, i <> this -> engines s' !! i = engines s !! i) /\
    (forall n, n ∈ components e -> is_Some (nodes s !! n) -> released s' n).
Proof.
  intros He. unfold SoundEngine_dispose.
  unfold bind at 1, record, modify. simpl.
  set (s0 := mkSession _ _ _ _ _ _ _).
  assert (He0 : engines s0 !! this = Some e) by exact He.
  destruct (SoundEngine_stop_ok this env s0 e He0) as (s1 & Hstop & Heng1).
  destruct (SoundEngine_stop_keeps this env s0) as [[_ Hdisp] _].
  unfold bind at 1. rewrite Hstop in *. simpl in Hdisp.
  unfold bind at 1. simpl.
  unfold bind at 1, this_engine. simpl.
  rewrite list_lookup_alter_eq, Heng1, He0. simpl.
  unfold bind. rewrite dispose_components_run. simpl.
  eexists. split; [reflexivity |]. simpl.
  split; [| split].
  - rewrite !list_lookup_alter_eq, Heng1, He0. reflexivity.
  - intros i Hi. rewrite !list_lookup_alter_ne by auto. rewrite Heng1. reflexivity.
  - intros n Hin Hsome. unfold released. simpl.
    apply dispose_components_released; [assumption |].
    destruct Hsome as [nd Hnd]. specialize (Hdisp n).
    change (nodes s0) with (nodes s) in Hdisp. rewrite Hnd in Hdisp.
    destruct (nodes s1 !! n); [eauto | discriminate].
Qed.

(** ** The steps of [createEngine] *)

Lemma dispose_current_run env s r s1 :
  dispose_current env s = (r, s1) ->
  (r = Ok tt /\ currentEngine s1 = None /\
   audioInitialized s1 = audioInitialized s /\
   length (engines s1) = length (engines s) /\
   history s1 = history s ++ disposal_events (currentEngine s) /\
   (currentEngine s = None -> s1 = s)) \/
  (exists err, r = Throw err /\ not_an_Error err /\
               currentEngine s1 = currentEngine s /\
               audioInitialized s1 = audioInitialized s /\
               ~ current_is_program s).
Proof.
  unfold dispose_current, bind at 1, gets. simpl.
  destruct (currentEngine s) as [[e | c] |] eqn:Hcur; simpl.
  - unfold bind.
    destruct (SoundEngine_dispose e env s) as [[[] | err] s0] eqn:Hd;
      pose proof (SoundEngine_dispose_control _ _ _ _ _ Hd) as (Hc & Ha & Hh & Hl & HE).
    + simpl. intros [= <- <-]. left. simpl. repeat split; auto. discriminate.
    + intros [= <- <-]. right. exists err. repeat split; auto.
      * congruence.
      * unfold current_is_program. rewrite Hcur. intros [eng Heng].
        destruct (SoundEngine_dispose_ok e env s eng Heng) as (s2 & Hok & _).
        congruence.
  - unfold throw. intros [= <- <-]. right. eexists. repeat split; auto.
    unfold current_is_program. rewrite Hcur. auto.
  - unfold ret. intros [= <- <-]. left. rewrite app_nil_r. repeat split; auto.
Qed.

Lemma initProfileEngine_run env s :
  initProfileEngine env s =
  if audioInitialized s then (Ok true, s)
  else if Tone_start_ok env then (Ok true, set_audioInitialized true s)
  else (Ok false, s).
Proof.
  cbv [initProfileEngine bind gets try_catch Tone_start asks modify ret throw].
  destruct (audioInitialized s); [reflexivity |].
  destruct (Tone_start_ok env); reflexivity.
Qed.

Lemma createEngine_unfold profile :
  createEngine profile =
  (dispose_current;;
   initialized ← initProfileEngine;
   (if negb initialized then throw (Error "Failed to initialize audio context") else ret tt);;
   Transport_stop;;
   Transport_cancel;;
   Transport_set_position 0;;
   match lookup_ENGINE_TYPES (type (config profile)) with
   | Undefined => throw (UnknownProfileType (type (config profile)))
   | Inherited_member => throw (TypeError "EngineClass is not a constructor")
   | Object_constructor =>
       modify (set_currentEngine (Some (RefConfig (config profile))));;
       ref_start (RefConfig (config profile));;
       Transport_start;;
       ret (RefConfig (config profile))
   | Class EngineClass =>
       e ← new_engine EngineClass (config profile);
       modify (set_currentEngine (Some (RefEngine e)));;
       record (Install e);;
       ref_start (RefEngine e);;
       Transport_start;;
       ret (RefEngine e)
   end).
Proof. reflexivity. Qed.

Lemma createEngine_cases profile env s r s' :
  createEngine profile env s = (r, s') -> createEngine_outcome profile env s r s'.
Proof.
  rewrite createEngine_unfold. unfold bind at 1.
  destruct (dispose_current env s) as [r1 s1] eqn:Hd.
  apply dispose_current_run in Hd.
  destruct Hd as [(-> & Hc1 & Ha1 & Hl1 & Hh1 & Hid) | (err & -> & Herr & Hc1 & Ha1 & Hnp)].
  2: { intros [= <- <-]. apply dispose_threw; auto. }
  unfold bind at 1. rewrite initProfileEngine_run.
  assert (Hrest : forall s2,
    audioInitialized s = true \/ Tone_start_ok env = true ->
    currentEngine s2 = None -> audioInitialized s2 = true ->
    engines s2 = engines s1 ->
    history s2 = history s ++ disposal_events (currentEngine s) ->
    (Transport_stop;; Transport_cancel;; Transport_set_position 0;;
     match lookup_ENGINE_TYPES (type (config profile)) with
     | Undefined => throw (UnknownProfileType (type (config profile)))
     | Inherited_member => throw (TypeError "EngineClass is not a constructor")
     | Object_constructor =>
         modify (set_currentEngine (Some (RefConfig (config profile))));;
         ref_start (RefConfig (config profile));;
         Transport_start;;
         ret (RefConfig (config profile))
     | Class EngineClass =>
         e ← new_engine EngineClass (config profile);
         modify (set_currentEngine (Some (RefEngine e)));;
         record (Install e);;
         ref_start (RefEngine e);;
         Transport_start;;
         ret (RefEngine e)
     end) env s2 = (r, s') ->
    createEngine_outcome profile env s r s').
  { intros s2 Hor Hc2 Ha2 He2 Hh2.
    assert (Hl2 : length (engines s2) = length (engines s)) by congruence.
    unfold bind at 1 2 3, Transport_stop, Transport_cancel, Transport_set_position, modify.
    simpl.
    destruct (lookup_ENGINE_TYPES (type (config profile))) as [c | | |] eqn:Hlook.
    - unfold bind at 1, new_engine. simpl.
      unfold bind at 1 2, modify, record. simpl.
      unfold bind at 1.
      match goal with |- context [start ?e env ?s0] =>
        destruct (start e env s0) as [rs s3] eqn:Hstart;
        pose proof (start_control _ _ _ _ _ Hstart) as (Hc3 & Ha3 & Hh3 & Hl3 & HE3);
        pose proof (proj1 (spec_run _ _ _ _ _ _ _ (start_extends e) Hstart)) as Hext
      end; simpl in *.
      assert (Hcls : engineClass <$> (engines s3 !! length (engines s)) = Some c).
      { destruct (Hext (length (engines s2)) (mkEngine c (config profile) [] []))
          as (e' & He' & Hcls & _).
        - simpl. apply list_lookup_middle. reflexivity.
        - rewrite <- Hl2, He'. simpl in *. f_equal. exact Hcls. }
      destruct rs as [[] | err].
      + unfold bind, Transport_start, modify, ret. simpl. intros [= <- <-].
        apply (engine_installed _ _ _ c); simpl; auto.
        * rewrite Hc3, Hl2. reflexivity.
        * congruence.
        * rewrite Hl3, length_app, Hl2. simpl. lia.
        * rewrite Hh3, Hh2, Hl2, <- !app_assoc. reflexivity.
        * left. rewrite Hl2. reflexivity.
      + intros [= <- <-].
        apply (engine_installed _ _ _ c); simpl; auto.
        * rewrite Hc3, Hl2. reflexivity.
        * congruence.
        * rewrite Hl3, length_app, Hl2. simpl. lia.
        * rewrite Hh3, Hh2, Hl2, <- !app_assoc. reflexivity.
        * right. exists err. auto.
    - unfold bind, modify, throw. simpl. intros [= <- <-].
      apply config_installed; auto.
    - unfold throw. intros [= <- <-]. apply not_a_constructor; auto.
    - unfold throw. intros [= <- <-]. apply unknown_type; auto. }
  destruct (audioInitialized s1) eqn:Hinit1.
  - simpl. unfold bind at 1, ret. apply Hrest; auto; left; congruence.
  - destruct (Tone_start_ok env) eqn:Hok.
    + simpl. unfold bind at 1, ret. apply Hrest; auto.
    + simpl. unfold bind, throw. simpl. intros [= <- <-].
      apply init_failed; auto; congruence.
Qed.

(** ** The registry *)

Ltac not_in_list :=
  let H := fresh "H" in
  simpl; intros H;
  repeat (apply elem_of_cons in H as [H | H]; [discriminate H |]);
  inversion H.

Lemma ENGINE_TYPES_keys key : ENGINE_TYPES !! key = None <-> key ∉ registered_tags.
Proof.
  unfold ENGINE_TYPES. rewrite <- not_elem_of_list_to_map. reflexivity.
Qed.

Lemma lookup_ENGINE_TYPES_Undefined key :
  lookup_ENGINE_TYPES key = Undefined <->
  (key ∉ registered_tags) /\ (key ∉ inherited_names).
Proof.
  unfold lookup_ENGINE_TYPES, inherited_names. rewrite <- ENGINE_TYPES_keys.
  destruct (ENGINE_TYPES !! key) as [c |].
  - split; [discriminate | intros [[=] _]].
  - destruct (String.eqb key "constructor") eqn:Heq.
    + apply String.eqb_eq in Heq. subst key.
      split; [discriminate | intros [_ H]; exfalso; apply H; left].
    + apply String.eqb_neq in Heq. case_bool_decide as Hin.
      * split; [discriminate | intros [_ H]; exfalso; apply H; right; exact Hin].
      * split; [intros _; split; [reflexivity |] | reflexivity].
        intros H. apply elem_of_cons in H. destruct H; [congruence | contradiction].
Qed.

Lemma UnknownProfileType_is_an_Error ty : ~ not_an_Error (UnknownProfileType ty).
Proof. intros H; exact H. Qed.

(** C10: each of the ten catalog profiles has a [config.type] that is a key
    of [ENGINE_TYPES], so [createEngine] on a catalog profile never throws
    the unknown-profile-type error, from whatever session and whatever the
    audio operations do. *)
Theorem catalog_types_are_registered :
  length getAllProfiles = 10%nat /\
  (forall profile, profile ∈ getAllProfiles ->
     is_Some (ENGINE_TYPES !! type (config profile))) /\
  (forall profile env s ty, profile ∈ getAllProfiles ->
     result (createEngine profile) env s <> Throw (UnknownProfileType ty)).
Proof.
  assert (Hreg : forall profile, profile ∈ getAllProfiles ->
            exists c, lookup_ENGINE_TYPES (type (config profile)) = Class c).
  { intros profile H. unfold getAllProfiles, SOUND_PROFILES in H. simpl in H.
    repeat (apply elem_of_cons in H as [-> | H]; [eexists; vm_compute; reflexivity |]).
    inversion H. }
  split; [reflexivity | split].
  - intros profile H. unfold getAllProfiles, SOUND_PROFILES in H. simpl in H.
    repeat (apply elem_of_cons in H as [-> | H]; [eexists; vm_compute; reflexivity |]).
    inversion H.
  - intros profile env s ty Hin Hres.
    destruct (Hreg profile Hin) as [c Hc].
    unfold result in Hres.
    destruct (createEngine profile env s) as [r s'] eqn:Hrun. simpl in Hres. subst r.
    apply createEngine_cases in Hrun.
    inversion Hrun; subst; try congruence.
    + eapply UnknownProfileType_is_an_Error; eassumption.
    + match goal with H : _ = Ok _ \/ _ |- _ => destruct H as [? | (err & ? & ?)] end;
        [discriminate |].
      match goal with H : Throw _ = Throw _ |- _ => injection H as <- end.
      eapply UnknownProfileType_is_an_Error; eassumption.
Qed.

(** ** Rejections of [createEngine] *)

(** C1, refuted as stated: when the Science Focus profile is started on a
    fresh page and the master chain's reverb fails to generate,
    [createEngine] rejects, yet [getCurrentEngine()] returns the engine
    that failed to start. *)
Lemma failed_start_stays_installed :
  ~ rejection_leaves_no_program SCIENCE_FOCUS (mkEnv true false true) initial_session.
Proof.
  intros H. specialize (H (Rejected "Reverb.generate") eq_refl).
  vm_compute in H. discriminate.
Qed.

(** C1, amended: a rejection with the audio-initialization error or with
    the unknown-profile-type error leaves no active program.  When the
    rejection comes from the new program's [start()] (the type is
    registered, the slot held no foreign object, and the error is none of
    the two above), the program that failed to start is the active one:
    it was installed before [start()] ran. *)
Theorem createEngine_rejection_state profile env s err :
  result (createEngine profile) env s = Throw err ->
  let s' := after (createEngine profile) env s in
  (err = Error "Failed to initialize audio context" \/
   err = UnknownProfileType (type (config profile)) ->
   getCurrentEngine s' = None) /\
  (forall c, lookup_ENGINE_TYPES (type (config profile)) = Class c ->
     current_is_program s -> not_an_Error err ->
     getCurrentEngine s' = Some (RefEngine (length (engines s))) /\
     engineClass <$> (engines s' !! length (engines s)) = Some c).
Proof.
  unfold result, after, getCurrentEngine.
  destruct (createEngine profile env s) as [r s'] eqn:Hrun. simpl. intros ->.
  apply createEngine_cases in Hrun.
  split.
  - intros Herr. inversion Hrun; subst; auto.
    + destruct Herr as [-> | ->]; match goal with H : not_an_Error _ |- _ => destruct H end.
    + destruct Herr as [[=] | [=]].
    + match goal with H : _ = Ok _ \/ _ |- _ => destruct H as [? | (err' & [= <-] & ?)] end;
        [discriminate |].
      destruct Herr as [-> | ->]; match goal with H : not_an_Error _ |- _ => destruct H end.
  - intros c Hc Hprog Hne. inversion Hrun; subst; try congruence; try contradiction.
    split; [assumption | congruence].
Qed.

Lemma createEngine_rejection_state_witness :
  getCurrentEngine (after (createEngine SCIENCE_FOCUS) (mkEnv true false true) initial_session)
  = Some (RefEngine 0) /\
  engineClass <$> (engines (after (createEngine SCIENCE_FOCUS) (mkEnv true false true)
                              initial_session) !! 0%nat) = Some ScientificFocusEngine.
Proof.
  destruct (createEngine_rejection_state SCIENCE_FOCUS (mkEnv true false true)
              initial_session (Rejected "Reverb.generate") eq_refl) as [_ H].
  apply (H ScientificFocusEngine); [reflexivity | exact I | exact I].
Defined.

(** C7, refuted as stated, at two inputs.  On a page whose audio context
    cannot be started, a profile of type "not_a_real_type" is rejected with
    the audio-initialization error: initialization precedes the registry
    lookup.  And the type "constructor", which is none of the eight tags,
    is found on the registry's prototype: the call rejects with a
    TypeError and leaves the config object in [currentEngine]. *)
Lemma unknown_type_not_always_reported :
  ~ unknown_type_is_rejected (profile_of_type "not_a_real_type")
      (mkEnv false true true) initial_session /\
  ~ unknown_type_is_rejected (profile_of_type "constructor") all_ok initial_session.
Proof.
  split; intros H.
  - destruct H as [H _]; [not_in_list | vm_compute in H; discriminate].
  - destruct H as [H _]; [not_in_list | vm_compute in H; discriminate].
Qed.

(** C7, amended: for a profile whose [config.type] names no property of the
    registry object (none of the eight tags, none of the inherited names),
    called while the slot is empty or holds a program, [createEngine]
    rejects and leaves no active program; the prior program, if any, had
    [dispose()] called before.  The error is the unknown-profile-type error
    when the audio context is or can be initialized, and the
    audio-initialization error otherwise. *)
Theorem unknown_type_rejection profile env s :
  type (config profile) ∉ registered_tags ->
  type (config profile) ∉ inherited_names ->
  current_is_program s ->
  let s' := after (createEngine profile) env s in
  result (createEngine profile) env s =
    Throw (if audioInitialized s || Tone_start_ok env
           then UnknownProfileType (type (config profile))
           else Error "Failed to initialize audio context") /\
  getCurrentEngine s' = None /\
  history s' = history s ++ disposal_events (getCurrentEngine s).
Proof.
  intros Htag Hinh Hprog.
  assert (Hlook : lookup_ENGINE_TYPES (type (config profile)) = Undefined)
    by (apply lookup_ENGINE_TYPES_Undefined; auto).
  unfold result, after, getCurrentEngine.
  destruct (createEngine profile env s) as [r s'] eqn:Hrun. simpl.
  apply createEngine_cases in Hrun.
  inversion Hrun; subst; try congruence; try contradiction.
  - match goal with H : audioInitialized s = false |- _ => rewrite H end.
    match goal with H : Tone_start_ok env = false |- _ => rewrite H end.
    auto.
  - match goal with H : _ \/ _ |- _ => destruct H as [-> | ->] end;
      rewrite ?orb_true_r; auto.
Qed.

Lemma unknown_type_rejection_witness :
  result (createEngine (profile_of_type "not_a_real_type")) all_ok science_session =
    Throw (UnknownProfileType "not_a_real_type") /\
  getCurrentEngine (after (createEngine (profile_of_type "not_a_real_type")) all_ok
                      science_session) = None /\
  history (after (createEngine (profile_of_type "not_a_real_type")) all_ok science_session) =
    history science_session ++ [Call_dispose 0; Call_stop 0].
Proof.
  apply (unknown_type_rejection (profile_of_type "not_a_real_type") all_ok science_session).
  - not_in_list.
  - not_in_list.
  - vm_compute. eexists. reflexivity.
Defined.

(** ** Phasing of the Science Focus generators *)

(** The five generators that [primeIntervals.forEach] registers: periods
    17, 19, 23, 29, 31 seconds with start offsets 0, 2, 4, 6, 8. *)
Lemma phasing_generators_eq :
  phasing_generators =
  [ mkLoop (Some (JInt 17)) (Some 0) true;
    mkLoop (Some (JInt 19)) (Some 2) true;
    mkLoop (Some (JInt 23)) (Some 4) true;
    mkLoop (Some (JInt 29)) (Some 6) true;
    mkLoop (Some (JInt 31)) (Some 8) true ].
Proof. vm_compute. reflexivity. Qed.

(** C3, refuted as stated: the first generator (period 17, offset 0) and
    the third (period 23, offset 4) both trigger at 119 s = 17 * 7 =
    4 + 23 * 5, long before 323 s. *)
Lemma generators_coincide_before_323 :
  ~ no_coincidence_before phasing_generators 323.
Proof.
  intros H.
  assert (Hc : coincide phasing_generators 0 2 119).
  { rewrite phasing_generators_eq.
    exists (mkLoop (Some (JInt 17)) (Some 0) true),
           (mkLoop (Some (JInt 23)) (Some 4) true), 7%nat, 5%nat.
    eexists. eexists. repeat split; reflexivity. }
  specialize (H 0%nat 2%nat 119%Q ltac:(discriminate) Hc).
  vm_compute in H. apply H. reflexivity.
Qed.

(** C3, amended: the five generators have the stated periods and offsets;
    no two distinct ones have a common trigger time earlier than 119 s,
    and at 119 s the first and the third coincide. *)
Theorem generators_first_coincide_at_119 :
  phasing_generators =
    [ mkLoop (Some (JInt 17)) (Some 0) true;
      mkLoop (Some (JInt 19)) (Some 2) true;
      mkLoop (Some (JInt 23)) (Some 4) true;
      mkLoop (Some (JInt 29)) (Some 6) true;
      mkLoop (Some (JInt 31)) (Some 8) true ] /\
  no_coincidence_before phasing_generators 119 /\
  coincide phasing_generators 0 2 119.
Proof.
  split; [exact phasing_generators_eq | split].
  - intros i j t Hne (gi & gj & k & l & ti & tj & Hi & Hj & Hti & Htj & Ei & Ej).
    rewrite phasing_generators_eq in Hi, Hj.
    rewrite <- Ei. rewrite <- Ej in Ei. clear Ej.
    destruct i as [| [| [| [| [| i]]]]]; simpl in Hi; try discriminate;
      injection Hi as <-;
      (destruct j as [| [| [| [| [| j]]]]]; simpl in Hj; try discriminate;
       injection Hj as <-); try congruence;
      unfold triggerTime in Hti, Htj; simpl in Hti, Htj;
      injection Hti as <-; injection Htj as <-;
      unfold Qeq, Qle in *; simpl in *; lia.
  - rewrite phasing_generators_eq.
    exists (mkLoop (Some (JInt 17)) (Some 0) true),
           (mkLoop (Some (JInt 23)) (Some 4) true), 7%nat, 5%nat.
    eexists. eexists. repeat split; reflexivity.
Qed.

(** ** What the lifecycle functions do to the lists of the other engines *)

Lemma extends_at_refl i s : extends_at i s s.
Proof. intros e He. exists e. auto. Qed.

Lemma extends_at_trans i s1 s2 s3 :
  extends_at i s1 s2 -> extends_at i s2 s3 -> extends_at i s1 s3.
Proof.
  intros H1 H2 e He.
  destruct (H1 e He) as (e' & He' & Hc & Hp & Hl).
  destruct (H2 e' He') as (e'' & He'' & Hc' & Hp' & Hl').
  exists e''. repeat split; [assumption | congruence | |]; etrans; eassumption.
Qed.

Lemma extends_at_of_programs i s s' : extends_programs s s' -> extends_at i s s'.
Proof. intros H e He. apply (H i e He). Qed.

Lemma extends_at_same i s s' : engines s' = engines s -> extends_at i s s'.
Proof. intros H. apply extends_at_of_programs, extends_programs_same, H. Qed.

Lemma extends_at_alter_other i this (f : SoundEngine -> SoundEngine) s :
  this <> i -> extends_at i s (set_engines (alter f this) s).
Proof.
  intros Hne e He. exists e. simpl. rewrite list_lookup_alter_ne by assumption. auto.
Qed.

Lemma spec_weaken {A} (R R' : Session -> Session -> Prop) (E E' : JSError -> Prop) (m : M A) :
  (forall s s', R s s' -> R' s s') -> (forall e, E e -> E' e) ->
  spec R E m -> spec R' E' m.
Proof. intros HR HE H env s. destruct (H env s). split; auto. Qed.

Lemma start_extends_at i this : spec (extends_at i) (fun _ => True) (start this).
Proof.
  eapply spec_weaken; [| | apply start_extends]; auto using extends_at_of_programs.
Qed.

Lemma SoundEngine_stop_extends_at i this :
  spec (extends_at i) (fun _ => True) (SoundEngine_stop this).
Proof.
  eapply spec_weaken; [| | apply (SoundEngine_stop_keeps this)]; auto.
  intros s s' [H _]. apply extends_at_same, H.
Qed.

Lemma extends_at_new i (l' : list SoundEngine) s :
  extends_at i s (set_engines (fun l => l ++ l') s).
Proof. intros e He. exists e. simpl. split; [apply lookup_app_l_Some; exact He | auto]. Qed.

Ltac extends_at_tac :=
  first [ apply extends_at_same; reflexivity
        | apply extends_at_alter_other; assumption
        | apply extends_at_new ].

Lemma SoundEngine_dispose_extends_at i this :
  this <> i -> spec (extends_at i) (fun _ => True) (SoundEngine_dispose this).
Proof.
  intros Hne. pose proof (SoundEngine_stop_extends_at i) as Hstop.
  unfold SoundEngine_dispose.
  spec_go (extends_at_refl i) (extends_at_trans i) extends_at_tac.
Qed.

Lemma initProfileEngine_same_engines :
  forall R : Session -> Session -> Prop,
    (forall s s', engines s' = engines s -> R s s') ->
    spec R (fun _ => True) initProfileEngine.
Proof.
  intros R HR env s. rewrite initProfileEngine_run.
  destruct (audioInitialized s); [| destruct (Tone_start_ok env)];
    simpl; split; auto.
Qed.

Lemma dispose_current_extends_at i s :
  currentEngine s <> Some (RefEngine i) ->
  spec (extends_at i) (fun _ => True)
    (match currentEngine s with
     | Some r => ref_dispose r;; modify (set_currentEngine None)
     | None => ret tt
     end).
Proof.
  intros Hcur. destruct (currentEngine s) as [[this | c] |].
  - assert (this <> i) by congruence.
    pose proof (SoundEngine_dispose_extends_at i this ltac:(assumption)).
    unfold ref_dispose.
    spec_go (extends_at_refl i) (extends_at_trans i) extends_at_tac.
  - spec_go (extends_at_refl i) (extends_at_trans i) extends_at_tac.
  - spec_go (extends_at_refl i) (extends_at_trans i) extends_at_tac.
Qed.

Lemma createEngine_extends_at i profile env s :
  currentEngine s <> Some (RefEngine i) ->
  extends_at i s (after (createEngine profile) env s).
Proof.
  intros Hcur.
  pose proof (start_extends_at i) as Hstart.
  pose proof (dispose_current_extends_at i s Hcur) as Hd.
  unfold after, createEngine, bind at 1, gets.
  cbn [fst snd].
  match goal with |- extends_at i s (snd (bind ?m ?f env s)) =>
    assert (Hall : spec (extends_at i) (fun _ => True) (bind m f))
  end.
  { apply (spec_bind _ _ (extends_at_trans i)); [exact Hd | intros _].
    apply (spec_bind _ _ (extends_at_trans i));
      [apply initProfileEngine_same_engines; intros; apply extends_at_same; assumption
      | intros initialized].
    unfold ref_start.
    spec_go (extends_at_refl i) (extends_at_trans i) extends_at_tac. }
  apply Hall.
Qed.

Lemma disposeEngine_extends_at i env s :
  currentEngine s <> Some (RefEngine i) ->
  extends_at i s (after disposeEngine env s).
Proof.
  intros Hcur.
  pose proof (dispose_current_extends_at i s Hcur) as Hd.
  unfold after, disposeEngine, bind at 1, gets.
  cbn [fst snd].
  match goal with |- extends_at i s (snd (bind ?m ?f env s)) =>
    assert (Hall : spec (extends_at i) (fun _ => True) (bind m f))
  end.
  { apply (spec_bind _ _ (extends_at_trans i)); [exact Hd | intros _].
    spec_go (extends_at_refl i) (extends_at_trans i) extends_at_tac. }
  apply Hall.
Qed.

Lemma stopEngine_keeps_engines env s : engines (after stopEngine env s) = engines s.
Proof.
  assert (H : spec same_engines (fun _ => True) stopEngine).
  { assert (Hstop : forall this, spec same_engines (fun _ => True) (SoundEngine_stop this)).
    { intros this. eapply spec_weaken; [| | apply (SoundEngine_stop_keeps this)]; auto.
      intros s1 s2 [He _]. exact He. }
    unfold stopEngine, ref_stop.
    spec_go same_engines_refl same_engines_trans same_engines_tac. }
  apply (H env s).
Qed.

(** ** Stop and dispose *)

(** C5: [stop()] leaves the [components] and [loops] lists of every engine
    exactly as they were and releases no node, in every session state;
    [start()], whatever its outcome, only appends to the lists of an
    engine; [dispose()] is what empties them; and the module's functions
    shorten no list either, except through the [dispose()] they call on the
    engine in [currentEngine]. *)
Theorem stop_removes_no_entry :
  (forall this env s,
     let s' := after (SoundEngine_stop this) env s in
     engines s' = engines s /\
     components_of s' this = components_of s this /\
     loops_of s' this = loops_of s this /\
     (forall n, disposed <$> nodes s' !! n = disposed <$> nodes s !! n)) /\
  (forall this env s, extends_programs s (after (start this) env s)) /\
  (forall this env s, is_Some (engines s !! this) ->
     let s' := after (SoundEngine_dispose this) env s in
     components_of s' this = [] /\ loops_of s' this = []) /\
  (forall i profile env s,
     engines (after stopEngine env s) = engines s /\
     (getCurrentEngine s <> Some (RefEngine i) ->
      extends_at i s (after (createEngine profile) env s) /\
      extends_at i s (after disposeEngine env s))).
Proof.
  split; [| split; [| split]].
  4: { intros i profile env s. split; [apply stopEngine_keeps_engines |].
       intros Hcur. split;
         [apply createEngine_extends_at | apply disposeEngine_extends_at]; exact Hcur. }
  - intros this env s.
    destruct (SoundEngine_stop_keeps this env s) as [[Heng Hdisp] _].
    unfold after, components_of, loops_of. simpl. rewrite Heng. auto.
  - intros this env s. apply (start_extends this env s).
  - intros this env s [e He].
    destruct (SoundEngine_dispose_ok this env s e He) as (s' & Hrun & Hthis & _).
    unfold after, components_of, loops_of. simpl. rewrite Hrun. simpl.
    rewrite Hthis. auto.
Qed.

Lemma disposeEngine_unfold :
  disposeEngine = (dispose_current;; Transport_stop;; Transport_cancel).
Proof. reflexivity. Qed.

(** C6: when [disposeEngine()] is called while a program is active, it
    returns normally; afterwards that program's [components] and [loops]
    lists are empty, every node the list held is released, the Transport
    has no registration left, and the slot is empty. *)
Theorem disposeEngine_is_complete this env s :
  getCurrentEngine s = Some (RefEngine this) ->
  is_Some (engines s !! this) ->
  let s' := after disposeEngine env s in
  result disposeEngine env s = Ok tt /\
  is_Some (engines s' !! this) /\
  components_of s' this = [] /\
  loops_of s' this = [] /\
  scheduled (Transport s') = [] /\
  getCurrentEngine s' = None /\
  (forall n, n ∈ components_of s this -> is_Some (nodes s !! n) -> released s' n).
Proof.
  unfold getCurrentEngine. intros Hcur [e He].
  destruct (SoundEngine_dispose_ok this env s e He) as (s1 & Hrun & Hthis & _ & Hrel).
  assert (Hd : disposeEngine env s = (Ok tt, set_Transport reset_transport
                                             (set_currentEngine None s1))).
  { unfold disposeEngine, bind, gets. rewrite Hcur. unfold ref_dispose. rewrite Hrun.
    reflexivity. }
  unfold result, after, components_of, loops_of. rewrite Hd. simpl.
  rewrite Hthis, He. simpl. repeat split; eauto.
Qed.

Lemma disposeEngine_is_complete_witness :
  result disposeEngine all_ok science_session = Ok tt /\
  is_Some (engines (after disposeEngine all_ok science_session) !! 0%nat) /\
  components_of (after disposeEngine all_ok science_session) 0 = [] /\
  loops_of (after disposeEngine all_ok science_session) 0 = [] /\
  scheduled (Transport (after disposeEngine all_ok science_session)) = [] /\
  getCurrentEngine (after disposeEngine all_ok science_session) = None /\
  (forall n, n ∈ components_of science_session 0 -> is_Some (nodes science_session !! n) ->
             released (after disposeEngine all_ok science_session) n).
Proof.
  apply (disposeEngine_is_complete 0 all_ok science_session).
  - reflexivity.
  - vm_compute. eexists. reflexivity.
Defined.

(** ** Idle sessions *)

Lemma stopEngine_run_idle env s :
  currentEngine s = None ->
  stopEngine env s =
  (Ok tt, set_Transport (fun t => mkTransport Stopped 0 (bpm t) (scheduled t)) s).
Proof.
  intros Hcur. unfold stopEngine, bind, gets, Transport_stop, modify. simpl.
  rewrite Hcur. reflexivity.
Qed.

Lemma disposeEngine_run_idle env s :
  currentEngine s = None ->
  disposeEngine env s = (Ok tt, set_Transport reset_transport s).
Proof.
  intros Hcur. unfold disposeEngine, bind, gets, Transport_stop, Transport_cancel, modify.
  simpl. rewrite Hcur. reflexivity.
Qed.

Lemma set_Transport_fixed f s : f (Transport s) = Transport s -> set_Transport f s = s.
Proof. intros H. unfold set_Transport. rewrite H. destruct s; reflexivity. Qed.

Lemma stopEngine_control env s r s' :
  stopEngine env s = (r, s') ->
  currentEngine s' = currentEngine s /\ audioInitialized s' = audioInitialized s.
Proof.
  unfold stopEngine, bind at 1 2, gets. simpl.
  destruct (currentEngine s) as [[e | c] |] eqn:Hcur; simpl.
  - unfold bind.
    destruct (SoundEngine_stop e env s) as [[[] | err] s1] eqn:Hstop;
      apply SoundEngine_stop_control in Hstop as (Hc & Ha & _);
      unfold Transport_stop, modify; intros [= <- <-]; simpl; split; congruence.
  - unfold bind, throw. intros [= <- <-]. auto.
  - unfold bind, ret, Transport_stop, modify. intros [= <- <-]. simpl. auto.
Qed.

Lemma disposeEngine_control env s r s' :
  disposeEngine env s = (r, s') ->
  audioInitialized s' = audioInitialized s /\
  ((currentEngine s' = None /\ Transport s' = reset_transport (Transport s')) \/
   (currentEngine s' = currentEngine s /\ currentEngine s <> None)).
Proof.
  rewrite disposeEngine_unfold. unfold bind at 1.
  destruct (dispose_current env s) as [r1 s1] eqn:Hd.
  apply dispose_current_run in Hd.
  destruct Hd as [(-> & Hc1 & Ha1 & _) | (err & -> & Herr & Hc1 & Ha1 & Hnp)].
  - unfold bind, Transport_stop, Transport_cancel, modify. simpl.
    intros [= <- <-]. simpl. auto.
  - intros [= <- <-]. split; [assumption | right; split; [assumption |]].
    intros Hnone. apply Hnp. unfold current_is_program. rewrite Hnone. exact I.
Qed.

Lemma reachable_idle_invariant s : reachable s -> idle_invariant s.
Proof.
  induction 1 as [| s profile env _ [IH1 IH2] | s env _ [IH1 IH2]
                 | s env _ [IH1 IH2] | s env _ [IH1 IH2] | s env _ [IH1 IH2]
                 | s dt _ [IH1 IH2] _].
  - split; reflexivity.
  - unfold after. destruct (createEngine profile env s) as [r s'] eqn:Hrun. simpl.
    apply createEngine_cases in Hrun.
    assert (Hnone : currentEngine s = None -> current_is_program s).
    { intros Hn. unfold current_is_program. rewrite Hn. exact I. }
    inversion Hrun; subst; split; intros; try congruence; auto.
    + exfalso.
      match goal with Hn : ~ current_is_program _ |- _ => apply Hn, Hnone, IH1 end.
      congruence.
    + exfalso.
      match goal with Hn : ~ current_is_program _ |- _ => apply Hn, Hnone end.
      congruence.
    + assert (s' = s) by auto. subst s'. auto.
  - unfold after. destruct (stopEngine env s) as [r s'] eqn:Hrun. simpl.
    pose proof (stopEngine_control _ _ _ _ Hrun) as [Hc Ha].
    split; [intros; rewrite Hc; apply IH1; congruence |].
    intros Hn. rewrite Hc in Hn.
    rewrite stopEngine_run_idle in Hrun by assumption.
    injection Hrun as <- <-. simpl. rewrite (IH2 Hn). reflexivity.
  - unfold after. destruct (disposeEngine env s) as [r s'] eqn:Hrun. simpl.
    pose proof (disposeEngine_control _ _ _ _ Hrun) as [Ha [[Hc Ht] | [Hc Hne]]].
    + split; auto.
    + split; intros; exfalso; apply Hne; [apply IH1 |]; congruence.
  - unfold after, Transport_pause, modify, set_Transport. simpl.
    split; [exact IH1 |]. intros Hn. rewrite (IH2 Hn). reflexivity.
  - unfold after, Transport_stop, modify, set_Transport. simpl.
    split; [exact IH1 |]. intros Hn. rewrite (IH2 Hn). reflexivity.
  - unfold tick. destruct (state (Transport s)) eqn:Hst; try (split; assumption).
    split; [exact IH1 |]. simpl. intros Hn. rewrite (IH2 Hn) in Hst. discriminate.
Qed.


Lemma alter_fixed {A} (f : A -> A) (l : list A) i x :
  l !! i = Some x -> f x = x -> alter f i l = l.
Proof.
  intros Hl Hf. apply list_eq. intros j. destruct (decide (i = j)) as [<- | Hne].
  - rewrite list_lookup_alter_eq, Hl. simpl. congruence.
  - rewrite list_lookup_alter_ne by assumption. reflexivity.
Qed.

Lemma SoundEngine_dispose_again this env s e :
  engines s !! this = Some e -> components e = [] -> loops e = [] ->
  SoundEngine_dispose this env s =
  (Ok tt, mkSession (nodes s) (toneLoops s) (engines s) (currentEngine s)
            (audioInitialized s) (Transport s)
            (history s ++ [Call_dispose this; Call_stop this])).
Proof.
  intros He Hc Hl.
  unfold SoundEngine_dispose, SoundEngine_stop, bind, record, modify, this_engine.
  simpl. rewrite He, Hc, Hl. simpl.
  rewrite (alter_fixed _ _ _ _ He) by (destruct e; simpl in *; subst; reflexivity).
  rewrite He, Hc. simpl. unfold set_engines. simpl.
  rewrite !(alter_fixed _ _ _ _ He) by (destruct e; simpl in *; subst; reflexivity).
  rewrite <- app_assoc. reflexivity.
Qed.

(** C8: in a reachable session with no active program, [stopEngine()] and
    [disposeEngine()] return normally and change nothing; and a second
    [dispose()] on a program returns normally, leaves every store as the
    first call left it, and finds both lists empty. *)
Theorem idle_calls_and_second_dispose_are_noops :
  (forall s env, reachable s -> getCurrentEngine s = None ->
     run stopEngine env s = (Ok tt, s) /\ run disposeEngine env s = (Ok tt, s)) /\
  (forall this env env' s, is_Some (engines s !! this) ->
     let s1 := after (SoundEngine_dispose this) env s in
     let s2 := after (SoundEngine_dispose this) env' s1 in
     result (SoundEngine_dispose this) env' s1 = Ok tt /\
     same_stores s1 s2 /\
     components_of s1 this = [] /\ loops_of s1 this = [] /\
     components_of s2 this = [] /\ loops_of s2 this = []).
Proof.
  split.
  - intros s env Hreach Hcur. unfold getCurrentEngine in Hcur.
    destruct (reachable_idle_invariant s Hreach) as [_ Hinv].
    specialize (Hinv Hcur). unfold run.
    rewrite stopEngine_run_idle, disposeEngine_run_idle by assumption.
    split; f_equal; apply set_Transport_fixed; rewrite Hinv; reflexivity.
  - intros this env env' s [e He].
    destruct (SoundEngine_dispose_ok this env s e He) as (s1 & Hrun & Hthis & _).
    cbv zeta. unfold result, after, components_of, loops_of.
    rewrite Hrun. cbn [snd].
    rewrite (SoundEngine_dispose_again this env' s1 _ Hthis eq_refl eq_refl).
    simpl. rewrite Hthis. unfold same_stores. simpl. repeat split; reflexivity.
Qed.

(** ** Sequences of successful [createEngine] calls *)

Lemma dispose_calls_app e h1 h2 :
  dispose_calls e (h1 ++ h2) = (dispose_calls e h1 + dispose_calls e h2)%nat.
Proof. unfold dispose_calls. rewrite filter_app, length_app. reflexivity. Qed.

Lemma dispose_calls_positive e h :
  (0 < dispose_calls e h)%nat -> exists i, h !! i = Some (Call_dispose e).
Proof.
  unfold dispose_calls. intros Hpos.
  destruct (filter (fun ev => ev = Call_dispose e) h) as [| ev l] eqn:Hf;
    [simpl in Hpos; lia |].
  assert (Hin : ev ∈ filter (fun ev => ev = Call_dispose e) h) by (rewrite Hf; left).
  apply list_elem_of_filter in Hin as [-> Hin].
  apply list_elem_of_lookup in Hin. exact Hin.
Qed.

Lemma dispose_calls_events e k :
  dispose_calls e [Call_dispose k; Call_stop k] = if decide (e = k) then 1%nat else 0%nat.
Proof.
  unfold dispose_calls. rewrite filter_cons.
  destruct (decide (Call_dispose k = Call_dispose e)) as [[= ->] | Hne].
  - rewrite decide_True by reflexivity. reflexivity.
  - rewrite decide_False by congruence. reflexivity.
Qed.

Lemma lifecycle_initial : lifecycle_after 0 initial_session.
Proof.
  unfold lifecycle_after. simpl.
  split; [reflexivity |]. split; [reflexivity |].
  split; [intros e; destruct (decide (S e < 0)%nat); [lia | reflexivity] |].
  split; [intros e; split; [lia | intros H; inversion H] | intros e H; lia].
Qed.

Lemma lifecycle_step n s profile env r s' :
  lifecycle_after n s ->
  createEngine profile env s = (Ok r, s') ->
  lifecycle_after (S n) s'.
Proof.
  intros (Hcur & Hlen & Hdisp & Hinst & Hbefore) Hrun.
  apply createEngine_cases in Hrun.
  symmetry in Hlen. subst n.
  inversion Hrun as [| | | | | c r0 s0 Hlook Hor Hcur' Hinit' Hlen' Hcls Hhist Hres].
  clear Hrun Hres. subst r0 s0.
  remember (length (engines s)) as n eqn:Hn in *.
  assert (Hev : forall e, dispose_calls e (disposal_events (currentEngine s)) =
                          if decide (S e = n) then 1%nat else 0%nat).
  { intros e. rewrite Hcur. destruct n as [| k]; simpl.
    - destruct (decide (S e = 0)%nat); [lia | reflexivity].
    - rewrite dispose_calls_events.
      destruct (decide (e = k)), (decide (S e = S k)); try lia; reflexivity. }
  repeat split.
  - exact Hcur'.
  - exact Hlen'.
  - intros e. rewrite Hhist, !dispose_calls_app, Hdisp, Hev.
    change (dispose_calls e [Install n; Call_start n]) with 0%nat.
    destruct (decide (S e < n)%nat), (decide (S e = n)), (decide (S e < S n)%nat);
      try lia; reflexivity.
  - intros He. rewrite Hhist.
    destruct (decide (e = n)) as [-> | Hne].
    + rewrite !elem_of_app. right. right. left.
    + rewrite elem_of_app. left. apply Hinst. lia.
  - rewrite Hhist, !elem_of_app. intros [Hin | [Hin | Hin]].
    + apply Hinst in Hin. lia.
    + rewrite Hcur in Hin. destruct n as [| k]; simpl in Hin.
      * inversion Hin.
      * repeat (apply elem_of_cons in Hin as [Hin | Hin]; [discriminate Hin |]).
        inversion Hin.
    + apply elem_of_cons in Hin as [[= ->] | Hin]; [lia |].
      apply elem_of_cons in Hin as [Hin | Hin]; [discriminate Hin | inversion Hin].
  - intros e He. simpl. rewrite Nat.sub_0_r.
    assert (Hinstall : (history s ++ disposal_events (currentEngine s)
                          ++ [Install n; Call_start n])
                       !! (length (history s) + length (disposal_events (currentEngine s)))%nat
                       = Some (Install n)).
    { rewrite app_assoc. apply list_lookup_middle. rewrite length_app. reflexivity. }
    rewrite Hhist.
    destruct (decide (S e < n)%nat) as [Hlt | Hge].
    + destruct (dispose_calls_positive e (history s)) as [i Hi].
      { rewrite Hdisp, decide_True by assumption. lia. }
      exists i, (length (history s) + length (disposal_events (currentEngine s)))%nat.
      split; [apply lookup_app_l_Some; exact Hi | split; [exact Hinstall |]].
      apply lookup_lt_Some in Hi. lia.
    + assert (Heq : n = S e) by lia. clear Hn. subst n. simpl in Hcur.
      exists (length (history s)),
             (length (history s) + length (disposal_events (currentEngine s)))%nat.
      split; [| split; [exact Hinstall |]].
      * rewrite Hcur. simpl. apply list_lookup_middle. reflexivity.
      * rewrite Hcur. simpl. lia.
Qed.

Lemma lifecycle_seq calls : forall n s s',
  lifecycle_after n s ->
  createEngine_seq calls s = Some s' ->
  lifecycle_after (n + length calls) s'.
Proof.
  induction calls as [| [profile env] calls IH]; intros n s s' Hinv Hseq; simpl in *.
  - injection Hseq as <-. rewrite Nat.add_0_r. exact Hinv.
  - destruct (createEngine profile env s) as [[r | err] s1] eqn:Hrun; [| discriminate].
    replace (n + S (length calls))%nat with (S n + length calls)%nat by lia.
    eapply IH; [| exact Hseq]. eapply lifecycle_step; eassumption.
Qed.

Lemma createEngine_seq_take calls : forall k s s',
  createEngine_seq calls s = Some s' ->
  exists s1, createEngine_seq (take k calls) s = Some s1.
Proof.
  induction calls as [| [profile env] calls IH]; intros k s s' Hseq.
  - rewrite take_nil. eauto.
  - destruct k as [| k]; simpl in *; [eauto |].
    destruct (createEngine profile env s) as [[r | err] s1]; [| discriminate].
    eapply IH. exact Hseq.
Qed.

(** C4: take any sequence of [createEngine] calls on a fresh page that all
    resolve.  After each call of the sequence (the [k]-th, say) exactly the
    engine created by that call is installed, it has not been disposed,
    every engine installed by an earlier call has had [dispose()] called
    exactly once, and that call precedes the installation of the new
    engine. *)
Theorem one_active_program_after_each_call calls s_end k :
  createEngine_seq calls initial_session = Some s_end ->
  (0 < k <= length calls)%nat ->
  exists s,
    createEngine_seq (take k calls) initial_session = Some s /\
    getCurrentEngine s = Some (RefEngine (k - 1)) /\
    length (engines s) = k /\
    dispose_calls (k - 1) (history s) = 0%nat /\
    (forall e, Install e ∈ history s <-> (e < k)%nat) /\
    (forall e, (e < k - 1)%nat ->
       dispose_calls e (history s) = 1%nat /\
       happens_before (Call_dispose e) (Install (k - 1)) (history s)).
Proof.
  intros Hseq Hk.
  destruct (createEngine_seq_take calls k _ _ Hseq) as [s Hs].
  exists s. split; [exact Hs |].
  pose proof (lifecycle_seq _ 0 _ _ lifecycle_initial Hs) as Hlife.
  rewrite length_take in Hlife. simpl in Hlife.
  replace (k `min` length calls)%nat with k in Hlife by lia.
  destruct Hlife as (Hcur & Hlen & Hdisp & Hinst & Hbefore).
  destruct k as [| k]; [lia |]. simpl. rewrite Nat.sub_0_r.
  unfold getCurrentEngine. repeat split; auto.
  - rewrite Hdisp. destruct (decide (S k < S k)%nat); [lia | reflexivity].
  - apply Hinst.
  - apply Hinst.
  - rewrite Hdisp. rewrite decide_True by lia. reflexivity.
  - specialize (Hbefore e). simpl in Hbefore. rewrite Nat.sub_0_r in Hbefore.
    apply Hbefore. lia.
Qed.

Lemma one_active_program_after_each_call_witness :
  exists s,
    createEngine_seq (take 2 [(SCIENCE_FOCUS, all_ok); (RAIN, all_ok); (LOFI, all_ok)])
      initial_session = Some s /\
    getCurrentEngine s = Some (RefEngine (2 - 1)) /\
    length (engines s) = 2%nat /\
    dispose_calls (2 - 1) (history s) = 0%nat /\
    (forall e, Install e ∈ history s <-> (e < 2)%nat) /\
    (forall e, (e < 2 - 1)%nat ->
       dispose_calls e (history s) = 1%nat /\
       happens_before (Call_dispose e) (Install (2 - 1)) (history s)).
Proof.
  eapply (one_active_program_after_each_call
            [(SCIENCE_FOCUS, all_ok); (RAIN, all_ok); (LOFI, all_ok)] _ 2).
  - vm_compute. reflexivity.
  - simpl. lia.
Defined.

(** ** Running the master chain builder *)

Lemma truthy_defaulted_null v : truthy (defaulted v JNull) = truthy v.
Proof. destruct v; reflexivity. Qed.

Lemma lookup_app_plus {A} (l l' : list A) k : (l ++ l') !! (length l + k)%nat = l' !! k.
Proof. rewrite lookup_app_r by lia. f_equal. lia. Qed.

Lemma bind_ok {A B} (m : M A) (f : A -> M B) env s a s1 :
  m env s = (Ok a, s1) -> bind m f env s = f a env s1.
Proof. intros Hm. unfold bind. rewrite Hm. reflexivity. Qed.

Lemma bind_throws {A B} (m : M A) (f : A -> M B) env s e s1 :
  m env s = (Throw e, s1) -> bind m f env s = (Throw e, s1).
Proof. intros Hm. unfold bind. rewrite Hm. reflexivity. Qed.

Lemma bind_ret {A B} (a : A) (f : A -> M B) env s : bind (ret a) f env s = f a env s.
Proof. reflexivity. Qed.

Lemma bind_assoc {A B C} (m : M A) (f : A -> M B) (g : B -> M C) env s :
  bind (bind m f) g env s = bind m (fun a => bind (f a) g) env s.
Proof. unfold bind. destruct (m env s) as [[a | e] s1]; reflexivity. Qed.

(** [new Tone.C(args).connect(tgt)] in a session whose node store is
    [l ++ news]: the new node is appended, nothing else changes. *)
Lemma alter_app_length {A} (f : A -> A) (l l' : list A) :
  alter f (length l) (l ++ l') = l ++ alter f 0%nat l'.
Proof. rewrite <- (Nat.add_0_r (length l)) at 1. apply alter_app_r. Qed.

Lemma new_connected_at c a tgt env s0 (l news : list ToneNode) :
  nodes s0 = l ++ news ->
  exists s1,
    new_connected c a tgt env s0 = (Ok (length l + length news)%nat, s1) /\
    nodes s1 = l ++ (news ++ [mkNode c a [tgt] false false false]) /\
    engines s1 = engines s0.
Proof.
  intros Hn.
  exists (set_nodes (fun ns => ns ++ [mkNode c a [tgt] false false false]) s0).
  split; [| split].
  - unfold new_connected, bind, new_node, connect, modify, ret. simpl.
    unfold set_nodes. simpl. rewrite alter_app_length. simpl.
    rewrite Hn at 1. rewrite length_app. reflexivity.
  - simpl. rewrite Hn, <- app_assoc. reflexivity.
  - reflexivity.
Qed.

Lemma Reverb_generate_ok_at ok k env s0 (l news : list ToneNode) :
  nodes s0 = l ++ news -> ok env = true ->
  exists s1,
    Reverb_generate ok (length l + k) env s0 = (Ok tt, s1) /\
    nodes s1 = l ++ alter (set_generated true) k news /\
    engines s1 = engines s0.
Proof.
  intros Hn Hok. eexists. split; [| split].
  - unfold Reverb_generate, bind, asks. rewrite Hok. reflexivity.
  - simpl. rewrite Hn, alter_app_r. reflexivity.
  - reflexivity.
Qed.

Lemma Reverb_generate_fails ok n env s :
  ok env = false ->
  Reverb_generate ok n env s = (Throw (Rejected "Reverb.generate"), s).
Proof. intros H. unfold Reverb_generate, bind, asks. rewrite H. reflexivity. Qed.

Ltac chain_step Hok :=
  lazymatch goal with
  | |- context [bind (bind _ _) _ _ _] => rewrite bind_assoc
  | |- context [bind (ret _) _ _ _] => rewrite bind_ret
  | Hn : nodes ?s0 = ?l ++ ?news, He : engines ?s0 = _
    |- context [bind (new_connected ?c ?a ?t) _ ?env ?s0] =>
      let s1 := fresh "s" in
      let Hr := fresh "Hrun" in
      let Hn1 := fresh "Hn" in
      let He1 := fresh "He" in
      destruct (new_connected_at c a t env s0 l news Hn) as (s1 & Hr & Hn1 & He1);
      simpl in Hr, Hn1;
      rewrite (bind_ok _ _ _ _ _ _ Hr);
      rewrite He in He1; clear Hr Hn He
  | Hn : nodes ?s0 = ?l ++ ?news, He : engines ?s0 = _
    |- context [bind (Reverb_generate ?ok (length ?l + ?k)%nat) _ ?env ?s0] =>
      first
        [ let s1 := fresh "s" in
          let Hr := fresh "Hrun" in
          let Hn1 := fresh "Hn" in
          let He1 := fresh "He" in
          destruct (Reverb_generate_ok_at ok k env s0 l news Hn Hok) as (s1 & Hr & Hn1 & He1);
          simpl in Hr, Hn1;
          rewrite (bind_ok _ _ _ _ _ _ Hr);
          rewrite He in He1; clear Hr Hn He
        | rewrite (bind_throws _ _ _ _ _ _ (Reverb_generate_fails ok _ env s0 Hok)) ]
  end; cbv beta iota.

Ltac chain_run Hok := cbv beta iota zeta; repeat (chain_step Hok).

Lemma created_app (s s' : Session) (news : list ToneNode) :
  nodes s' = nodes s ++ news ->
  created s s' = (fun k => (length (nodes s) + k)%nat) <$> seq 0 (length news).
Proof.
  intros H. unfold created. rewrite H, length_app.
  replace (length (nodes s) + length news - length (nodes s))%nat with (length news) by lia.
  rewrite <- (Nat.add_0_r (length (nodes s))) at 1.
  rewrite <- fmap_add_seq. reflexivity.
Qed.

Lemma signal_path_Destination fuel l : signal_path fuel l Destination = Some [].
Proof. destruct fuel; reflexivity. Qed.

Ltac chain_lookups :=
  repeat first
    [ rewrite lookup_app_plus | rewrite signal_path_Destination | progress simpl ].

Ltac chain_start s :=
  let Hn := fresh "Hn" in
  let He := fresh "He" in
  assert (Hn : nodes s = nodes s ++ []) by (rewrite app_nil_r; reflexivity);
  assert (He : engines s = engines s) by reflexivity;
  revert Hn He; generalize s at 1 3 5 as s0; intros s0 Hn He;
  unfold createMasterChain.

(** C9: whatever the options, when the impulse generation succeeds the
    builder returns a handle whose [components] are the nodes it created,
    in creation order: the limiter first, then the high-pass and the
    low-pass filter, the bit-crusher, the reverb and the delay, each only
    when requested (reverb always).  The limiter is connected to the
    destination; each later node is connected to the node created just
    before it, so the signal entering at [connect] passes the nodes in
    reverse creation order: delay, reverb, bit-crusher, filters, limiter.
    The returned reverb has its impulse generated, and the delay is
    connected to the reverb node. *)
Theorem master_chain_order_and_topology options env s :
  chain_generate_ok env = true ->
  exists chain s',
    run (createMasterChain options) env s = (Ok chain, s') /\
    chain_components chain = created s s' /\
    stages s' (chain_components chain) =
      [Some Stage_limiter]
        ++ requested (o_highPass options) Stage_highPass
        ++ requested (o_lowPass options) Stage_lowPass
        ++ requested (o_bitCrush options) Stage_bitCrusher
        ++ [Some Stage_reverb]
        ++ requested (o_delay options) Stage_delay /\
    head (chain_components chain) = Some (chain_limiter chain) /\
    outputs <$> (nodes s' !! chain_limiter chain) = Some [Destination] /\
    signal_path (length (nodes s')) (nodes s') (ToNode (chain_connect chain))
      = Some (rev (chain_components chain)) /\
    generated <$> (nodes s' !! chain_reverb chain) = Some true /\
    (if truthy (o_delay options)
     then exists d, chain_delay chain = Some d /\ chain_connect chain = d /\
                    outputs <$> (nodes s' !! d) = Some [ToNode (chain_reverb chain)]
     else chain_delay chain = None /\ chain_connect chain = chain_reverb chain) /\
    (forall n, (n < length (nodes s))%nat -> nodes s' !! n = nodes s !! n).
Proof.
  intros Hok. unfold run, requested.
  destruct (truthy (o_highPass options)) eqn:Hhp;
    destruct (truthy (o_lowPass options)) eqn:Hlp;
    destruct (truthy (o_bitCrush options)) eqn:Hbc;
    destruct (truthy (o_delay options)) eqn:Hd.
  all: chain_start s;
    rewrite !truthy_defaulted_null, Hhp, Hlp, Hbc, Hd;
    chain_run Hok.
  all: eexists; eexists; split; [reflexivity |]; simpl.
  all: split; [erewrite created_app by eassumption; reflexivity |].
  all: match goal with Hn : nodes _ = _ |- _ => rewrite !Hn end.
  all: split; [unfold stages; chain_lookups; reflexivity |].
  all: split; [reflexivity |].
  all: split; [chain_lookups; reflexivity |].
  all: split; [rewrite length_app, Nat.add_comm; chain_lookups; reflexivity |].
  all: split; [chain_lookups; reflexivity |].
  all: split; [| intros n Hn'; apply lookup_app_l; exact Hn'].
  all: first [ split; reflexivity
             | eexists; split; [reflexivity | split; [reflexivity |]];
               chain_lookups; reflexivity ].
Qed.

Lemma master_chain_order_and_topology_witness :
  exists chain s',
    run (createMasterChain no_options) all_ok initial_session = (Ok chain, s') /\
    chain_components chain = [0; 1]%nat /\
    stages s' (chain_components chain) = [Some Stage_limiter; Some Stage_reverb].
Proof.
  destruct (master_chain_order_and_topology no_options all_ok initial_session eq_refl)
    as (chain & s' & Hrun & Hcomp & Hst & _).
  exists chain, s'. split; [exact Hrun |].
  injection Hrun as <- <-. split; [reflexivity | exact Hst].
Defined.

(** C2, refuted as stated: when the reverb of a default chain fails to
    generate on a fresh page, the build rejects, and the limiter it had
    created (node 0) is not released. *)
Lemma failed_build_releases_nothing :
  ~ releases_created_on_failure no_options (mkEnv true false true) initial_session.
Proof.
  intros H. destruct (H eq_refl) as [_ Hrel].
  assert (Hin : 0%nat ∈ created initial_session
                  (after (createMasterChain no_options) (mkEnv true false true)
                     initial_session)) by (vm_compute; left).
  specialize (Hrel 0%nat Hin). vm_compute in Hrel. discriminate.
Qed.

(** C2, amended: when the impulse generation fails, the build rejects with
    the generation error and returns no handle, but releases nothing: the
    nodes created so far (the limiter, the requested filters and
    bit-crusher, and the reverb itself) stay allocated, not disposed and
    connected, and no engine's [components] list records them. *)
Theorem failed_build_keeps_created_nodes options env s :
  chain_generate_ok env = false ->
  exists s',
    run (createMasterChain options) env s = (Throw (Rejected "Reverb.generate"), s') /\
    stages s' (created s s') =
      [Some Stage_limiter]
        ++ requested (o_highPass options) Stage_highPass
        ++ requested (o_lowPass options) Stage_lowPass
        ++ requested (o_bitCrush options) Stage_bitCrusher
        ++ [Some Stage_reverb] /\
    (forall n, n ∈ created s s' -> live s' n /\ ~ released s' n) /\
    engines s' = engines s /\
    (forall n, (n < length (nodes s))%nat -> nodes s' !! n = nodes s !! n).
Proof.
  intros Hok. unfold run, requested.
  destruct (truthy (o_highPass options)) eqn:Hhp;
    destruct (truthy (o_lowPass options)) eqn:Hlp;
    destruct (truthy (o_bitCrush options)) eqn:Hbc.
  all: chain_start s;
    rewrite !truthy_defaulted_null, Hhp, Hlp, Hbc;
    chain_run Hok.
  all: eexists; split; [reflexivity |].
  all: erewrite created_app by eassumption.
  all: split; [unfold stages;
               match goal with Hn : nodes _ = _ |- _ => rewrite !Hn end;
               chain_lookups; reflexivity |].
  all: split; [| split; [assumption |];
                 match goal with Hn : nodes _ = _ |- _ => rewrite !Hn end;
                 intros n Hn'; apply lookup_app_l; exact Hn'].
  all: intros n Hin; simpl in Hin;
    repeat (apply elem_of_cons in Hin as [-> | Hin]);
    try (inversion Hin; fail).
  all: unfold live, released;
    match goal with Hn : nodes _ = _ |- _ => rewrite !Hn end; chain_lookups;
    (split; [eexists; split; [reflexivity | split; [reflexivity | discriminate]]
            | discriminate]).
Qed.

Lemma failed_build_keeps_created_nodes_witness :
  exists s',
    run (createMasterChain no_options) (mkEnv true false true) initial_session
      = (Throw (Rejected "Reverb.generate"), s') /\
    live s' 0 /\ live s' 1.
Proof.
  destruct (failed_build_keeps_created_nodes no_options (mkEnv true false true)
              initial_session eq_refl) as (s' & Hrun & _ & Hlive & _).
  exists s'. split; [exact Hrun |].
  injection Hrun as <-.
  split; apply Hlive; vm_compute; [left | right; left].
Defined.

(** ** Concrete instances *)

Lemma stop_removes_no_entry_witness :
  length (components_of (after (SoundEngine_stop 0) all_ok science_session) 0) = 17%nat /\
  length (loops_of (after (SoundEngine_stop 0) all_ok science_session) 0) = 6%nat /\
  components_of (after (SoundEngine_dispose 0) all_ok science_session) 0 = [].
Proof.
  destruct stop_removes_no_entry as (Hstop & _ & Hdispose & _).
  destruct (Hstop 0%nat all_ok science_session) as (_ & Hc & Hl & _).
  cbv zeta in Hc, Hl. rewrite Hc, Hl.
  split; [vm_compute; reflexivity | split; [vm_compute; reflexivity |]].
  apply (Hdispose 0%nat all_ok science_session). vm_compute. eexists. reflexivity.
Defined.

Lemma idle_calls_and_second_dispose_are_noops_witness :
  run stopEngine all_ok idle_session = (Ok tt, idle_session) /\
  run disposeEngine all_ok idle_session = (Ok tt, idle_session) /\
  same_stores (after (SoundEngine_dispose 0) all_ok science_session)
    (after (SoundEngine_dispose 0) all_ok
       (after (SoundEngine_dispose 0) all_ok science_session)).
Proof.
  destruct idle_calls_and_second_dispose_are_noops as [Hidle Hagain].
  assert (Hreach : reachable idle_session).
  { unfold idle_session, science_session.
    apply reach_disposeEngine, reach_createEngine, reach_initial. }
  destruct (Hidle idle_session all_ok Hreach eq_refl) as [Hstop Hdisp].
  split; [exact Hstop | split; [exact Hdisp |]].
  apply (Hagain 0%nat all_ok all_ok science_session). vm_compute. eexists. reflexivity.
Defined.

(** X1: a [config.type] that names an inherited property of the registry
    object is not reported as unknown: for "constructor" the lookup yields
    [Object], [new Object(config)] is the config object itself, and the
    call rejects with a TypeError while that object stays in
    [currentEngine]; the next [createEngine] then fails on
    [currentEngine.dispose()]. *)
Theorem inherited_name_is_not_rejected_as_unknown :
  lookup_ENGINE_TYPES "constructor" = Object_constructor /\
  run (createEngine (profile_of_type "constructor")) all_ok initial_session =
    (Throw (TypeError "currentEngine.start is not a function"),
     mkSession [] [] [] (Some (RefConfig (mkConfig "constructor" ∅))) true
       (mkTransport Stopped 0 (Some (JInt 120)) []) []) /\
  result (createEngine SCIENCE_FOCUS) all_ok
    (after (createEngine (profile_of_type "constructor")) all_ok initial_session) =
    Throw (TypeError "currentEngine.dispose is not a function").
Proof. split; [reflexivity | split; vm_compute; reflexivity]. Qed.

(** ** Rules for pre- and postconditions *)

Section HoareRules.
Context {env : Env}.

Lemma hoare_conseq {A} (P P' : Session -> Prop) (m : M A)
    (Q Q' : A -> Session -> Prop) (E E' : JSError -> Session -> Prop) :
  hoare env P' m Q' E' ->
  (forall s, P s -> P' s) -> (forall a s, Q' a s -> Q a s) -> (forall e s, E' e s -> E e s) ->
  hoare env P m Q E.
Proof.
  intros H HP HQ HE s Hs. specialize (H s (HP s Hs)).
  destruct (m env s) as [[a | e] s']; auto.
Qed.

Lemma hoare_ret {A} (P : Session -> Prop) (a : A) Q E :
  (forall s, P s -> Q a s) -> hoare env P (ret a) Q E.
Proof. intros H s Hs. simpl. auto. Qed.

Lemma hoare_throw {A} (P : Session -> Prop) (e : JSError) (Q : A -> Session -> Prop) E :
  (forall s, P s -> E e s) -> hoare env P (throw e) Q E.
Proof. intros H s Hs. simpl. auto. Qed.

Lemma hoare_bind {A B} (P : Session -> Prop) (m : M A) (f : A -> M B)
    (Q1 : A -> Session -> Prop) Q E :
  hoare env P m Q1 E -> (forall a, hoare env (Q1 a) (f a) Q E) ->
  hoare env P (bind m f) Q E.
Proof.
  intros Hm Hf s Hs. unfold bind. specialize (Hm s Hs).
  destruct (m env s) as [[a | e] s1]; [apply Hf; exact Hm | exact Hm].
Qed.

Lemma hoare_bind_assoc {A B C} P (m : M A) (f : A -> M B) (g : B -> M C) Q E :
  hoare env P (bind m (fun a => bind (f a) g)) Q E -> hoare env P (bind (bind m f) g) Q E.
Proof. intros H s Hs. rewrite bind_assoc. exact (H s Hs). Qed.

Lemma hoare_bind_ret {A B} P (a : A) (f : A -> M B) Q E :
  hoare env P (f a) Q E -> hoare env P (bind (ret a) f) Q E.
Proof. intros H s Hs. exact (H s Hs). Qed.

Lemma hoare_last {A} P (m : M A) Q E :
  hoare env P (bind m (fun a => ret a)) Q E -> hoare env P m Q E.
Proof.
  intros H s Hs. specialize (H s Hs). unfold bind in H.
  destruct (m env s) as [[a | e] s1]; exact H.
Qed.

Lemma hoare_pure {A} (phi : Prop) P (m : M A) Q E :
  (phi -> hoare env P m Q E) -> hoare env (fun s => phi /\ P s) m Q E.
Proof. intros H s [Hphi Hs]. exact (H Hphi s Hs). Qed.

Lemma hoare_forEach {A} (P : Session -> Prop) (l : list A) (f : A -> M unit) E :
  (forall x, x ∈ l -> hoare env P (f x) (fun _ => P) E) ->
  hoare env P (forEach l f) (fun _ => P) E.
Proof.
  induction l as [| x l IH]; intros Hf; simpl.
  - apply hoare_ret. auto.
  - eapply hoare_bind; [apply Hf; left | intros ?; apply IH].
    intros y Hy. apply Hf. right. exact Hy.
Qed.

Lemma hoare_run {A} P (m : M A) Q E s r s' :
  hoare env P m Q E -> P s -> m env s = (r, s') ->
  match r with Ok a => Q a s' | Throw e => E e s' end.
Proof. intros H Hs Hrun. specialize (H s Hs). rewrite Hrun in H. exact H. Qed.

End HoareRules.

(** ** Keeping the books of [start()] *)

Lemma created_length s0 s n :
  n ∈ created s0 s <-> (length (nodes s0) <= n < length (nodes s))%nat.
Proof. unfold created. rewrite elem_of_seq. lia. Qed.

Lemma created_new s0 s (x : ToneNode) :
  (length (nodes s0) <= length (nodes s))%nat ->
  created s0 (set_nodes (fun l => l ++ [x]) s) = created s0 s ++ [length (nodes s)].
Proof.
  intros Hle. unfold created. simpl. rewrite length_app. simpl.
  replace (length (nodes s) + 1 - length (nodes s0))%nat
    with (S (length (nodes s) - length (nodes s0))) by lia.
  rewrite seq_S. do 2 f_equal. lia.
Qed.

Section Books.
Context (s0 : Session) (this : nat) (cfg : Config).

Lemma accounted_begin e :
  engines s0 !! this = Some e -> engineConfig e = cfg -> accounted s0 this cfg [] [] s0.
Proof.
  intros He Hcfg. exists e, [], [].
  unfold components_of, loops_of, created. rewrite He. simpl.
  rewrite !app_nil_r, Nat.sub_diag. simpl.
  repeat split; auto.
  - intros n c Hn. inversion Hn.
  - inversion H.
  - inversion H.
Qed.

Lemma lookup_alter_Some {A} (g : A -> A) k (l : list A) n y :
  alter g k l !! n = Some y ->
  exists x, l !! n = Some x /\ (y = x \/ (k = n /\ y = g x)).
Proof.
  destruct (decide (k = n)) as [-> | Hne].
  - rewrite list_lookup_alter_eq. destruct (l !! n) as [x |]; simpl; [| discriminate].
    intros [= <-]. eauto.
  - rewrite list_lookup_alter_ne by exact Hne. eauto.
Qed.

Lemma accounted_nodes_alter (g : ToneNode -> ToneNode) k pn pl s :
  (forall x, cls (g x) = cls x /\ disposed (g x) = disposed x /\ started (g x) = started x) ->
  accounted s0 this cfg pn pl s -> accounted s0 this cfg pn pl (set_nodes (alter g k) s).
Proof.
  intros Hg (e & dn & dl & He & Hcfg & Hc & Hl & Hoth & Hlen & Hle & Hperm & Hcls & Hnew
             & Hold & Hrest).
  exists e, dn, dl. unfold created in *. simpl. rewrite length_alter.
  repeat split; try tauto.
  - intros n c Hn. specialize (Hcls n c Hn).
    destruct (decide (k = n)) as [-> | Hne].
    + rewrite list_lookup_alter_eq. destruct (nodes s !! n) as [x |]; simpl in *; [| done].
      destruct (Hg x) as (-> & _). exact Hcls.
    + rewrite list_lookup_alter_ne by exact Hne. exact Hcls.
  - apply lookup_alter_Some in H0 as (x & Hx & [-> | [-> ->]]).
    + apply (Hnew n x H Hx).
    + destruct (Hg x) as (_ & -> & _). apply (Hnew n x H Hx).
  - apply lookup_alter_Some in H0 as (x & Hx & [-> | [-> ->]]).
    + apply (Hnew n x H Hx).
    + destruct (Hg x) as (-> & _ & ->). apply (Hnew n x H Hx).
  - intros n Hn. rewrite disposed_alter by (intros x; apply Hg). auto.
Qed.

Lemma accounted_node_start k c pn pl s :
  (k, c) ∈ pn -> has_stop c = true ->
  accounted s0 this cfg pn pl s ->
  accounted s0 this cfg pn pl (set_nodes (alter (set_started true) k) s).
Proof.
  intros Hk Hstop (e & dn & dl & He & Hcfg & Hc & Hl & Hoth & Hlen & Hle & Hperm & Hcls & Hnew
                   & Hold & Hrest).
  exists e, dn, dl. unfold created in *. simpl. rewrite length_alter.
  repeat split; try tauto.
  - intros n c' Hn. specialize (Hcls n c' Hn).
    destruct (decide (k = n)) as [-> | Hne].
    + rewrite list_lookup_alter_eq. destruct (nodes s !! n) as [x |]; simpl in *; [| done].
      exact Hcls.
    + rewrite list_lookup_alter_ne by exact Hne. exact Hcls.
  - apply lookup_alter_Some in H0 as (x & Hx & [-> | [-> ->]]); apply (Hnew n x H Hx).
  - apply lookup_alter_Some in H0 as (x & Hx & [-> | [-> ->]]).
    + apply (Hnew n x H Hx).
    + intros _. simpl. specialize (Hcls n c Hk). rewrite Hx in Hcls. simpl in Hcls.
      injection Hcls as ->. exact Hstop.
  - intros n Hn. rewrite disposed_alter by (intros x; reflexivity). auto.
Qed.

Lemma accounted_new_node c a pn pl s :
  accounted s0 this cfg pn pl s ->
  accounted s0 this cfg (pn ++ [(length (nodes s), c)]) pl
    (set_nodes (fun l => l ++ [mkNode c a [] false false false]) s).
Proof.
  intros (e & dn & dl & He & Hcfg & Hc & Hl & Hoth & Hlen & Hle & Hperm & Hcls & Hnew
          & Hold & Hrest).
  exists e, dn, dl. rewrite created_new by exact Hle. simpl.
  repeat split; try tauto.
  - rewrite length_app. lia.
  - rewrite fmap_app, Hperm, app_assoc. reflexivity.
  - intros n c' Hn. apply elem_of_app in Hn as [Hn | Hn].
    + specialize (Hcls n c' Hn).
      destruct (nodes s !! n) as [x |] eqn:Hx; [| discriminate].
      rewrite (lookup_app_l_Some _ _ _ _ Hx). exact Hcls.
    + apply list_elem_of_singleton in Hn as [= -> ->].
      rewrite list_lookup_middle by reflexivity. reflexivity.
  - apply elem_of_app in H as [Hn | Hn].
    + rewrite lookup_app_l in H0 by (apply created_length in Hn; lia).
      apply (Hnew n nd Hn H0).
    + apply list_elem_of_singleton in Hn as ->.
      rewrite list_lookup_middle in H0 by reflexivity. injection H0 as <-. reflexivity.
  - apply elem_of_app in H as [Hn | Hn].
    + rewrite lookup_app_l in H0 by (apply created_length in Hn; lia).
      apply (Hnew n nd Hn H0).
    + apply list_elem_of_singleton in Hn as ->.
      rewrite list_lookup_middle in H0 by reflexivity. injection H0 as <-. discriminate.
  - intros n Hn. rewrite lookup_app_l by lia. auto.
Qed.

Lemma accounted_toneLoops (f : list ToneLoop -> list ToneLoop) pn pl s :
  accounted s0 this cfg pn pl s -> accounted s0 this cfg pn pl (set_toneLoops f s).
Proof. intros H. exact H. Qed.

Lemma accounted_schedule l pn pl s :
  accounted s0 this cfg pn pl s ->
  accounted s0 this cfg pn (pl ++ [l]) (set_Transport (set_scheduled (fun q => q ++ [l])) s).
Proof.
  intros (e & dn & dl & He & Hcfg & Hc & Hl & Hoth & Hlen & Hle & Hperm & Hcls & Hnew & Hold
          & Hs & Hrest).
  exists e, dn, dl. simpl. repeat split; try tauto.
  - apply (Hnew n nd H H0).
  - apply (Hnew n nd H H0).
  - rewrite Hs, <- !app_assoc. reflexivity.
Qed.

Lemma accounted_bpm v pn pl s :
  accounted s0 this cfg pn pl s ->
  accounted s0 this cfg pn pl
    (set_Transport (fun t => mkTransport (state t) (position t) v (scheduled t)) s).
Proof. intros H. exact H. Qed.

Lemma accounted_push_components l pn pl s :
  pn.*1 ≡ₚ l ->
  accounted s0 this cfg pn pl s ->
  accounted s0 this cfg [] pl
    (set_engines (alter (set_components (fun c => c ++ l)) this) s).
Proof.
  intros Hp (e & dn & dl & He & Hcfg & Hc & Hl & Hoth & Hlen & Hle & Hperm & Hcls & Hnew
             & Hold & Hrest).
  exists (set_components (fun c => c ++ l) e), (dn ++ l), dl. simpl.
  rewrite list_lookup_alter_eq, He, length_alter. simpl.
  repeat split; try tauto.
  - rewrite Hc, app_assoc. reflexivity.
  - intros i Hi. rewrite list_lookup_alter_ne by auto. auto.
  - change (created s0 (set_engines _ s)) with (created s0 s).
    rewrite Hperm, Hp, app_nil_r. reflexivity.
  - intros n c Hn. inversion Hn.
  - apply (Hnew n nd H H0).
  - apply (Hnew n nd H H0).
Qed.

Lemma accounted_push_loops l pn pl pl' s :
  pl = l ++ pl' ->
  accounted s0 this cfg pn pl s ->
  accounted s0 this cfg pn pl'
    (set_engines (alter (set_loops (fun c => c ++ l)) this) s).
Proof.
  intros -> (e & dn & dl & He & Hcfg & Hc & Hl & Hoth & Hlen & Hle & Hperm & Hcls & Hnew
             & Hold & Hs & Hrest).
  exists (set_loops (fun c => c ++ l) e), dn, (dl ++ l). simpl.
  rewrite list_lookup_alter_eq, He, length_alter. simpl.
  repeat split; try tauto.
  - rewrite Hl, app_assoc. reflexivity.
  - intros i Hi. rewrite list_lookup_alter_ne by auto. auto.
  - apply (Hnew n nd H H0).
  - apply (Hnew n nd H H0).
  - rewrite Hs, <- !app_assoc. reflexivity.
Qed.

End Books.

Section Steps.
Context {env : Env} (s0 : Session) (this : nat) (cfg : Config).
Context {B : Type} (Q : B -> Session -> Prop) (E : JSError -> Session -> Prop).

Lemma step_modify (g : Session -> Session) (f : unit -> M B) (P P' : Session -> Prop) :
  (forall s, P s -> P' (g s)) -> hoare env P' (f tt) Q E ->
  hoare env P (bind (modify g) f) Q E.
Proof. intros Hg Hf s Hs. exact (Hf (g s) (Hg s Hs)). Qed.

Lemma step_nodes_alter (g : ToneNode -> ToneNode) k (f : unit -> M B) pn pl :
  (forall x, cls (g x) = cls x /\ disposed (g x) = disposed x /\ started (g x) = started x) ->
  hoare env (accounted s0 this cfg pn pl) (f tt) Q E ->
  hoare env (accounted s0 this cfg pn pl) (bind (modify (set_nodes (alter g k))) f) Q E.
Proof. intros Hg. apply step_modify. intros s. apply accounted_nodes_alter, Hg. Qed.

Lemma step_node_start k c (f : unit -> M B) pn pl :
  (k, c) ∈ pn -> has_stop c = true ->
  hoare env (accounted s0 this cfg pn pl) (f tt) Q E ->
  hoare env (accounted s0 this cfg pn pl)
    (bind (modify (set_nodes (alter (set_started true) k))) f) Q E.
Proof. intros Hk Hc. apply step_modify. intros s. apply accounted_node_start with c; auto. Qed.

Lemma step_toneLoops (g : list ToneLoop -> list ToneLoop) (f : unit -> M B) pn pl :
  hoare env (accounted s0 this cfg pn pl) (f tt) Q E ->
  hoare env (accounted s0 this cfg pn pl) (bind (modify (set_toneLoops g)) f) Q E.
Proof. apply step_modify. intros s. apply accounted_toneLoops. Qed.

Lemma step_schedule l (f : unit -> M B) pn pl :
  hoare env (accounted s0 this cfg pn (pl ++ [l])) (f tt) Q E ->
  hoare env (accounted s0 this cfg pn pl)
    (bind (modify (set_Transport (set_scheduled (fun q => q ++ [l])))) f) Q E.
Proof. apply step_modify. intros s. apply accounted_schedule. Qed.

Lemma step_bpm v (f : unit -> M B) pn pl :
  hoare env (accounted s0 this cfg pn pl) (f tt) Q E ->
  hoare env (accounted s0 this cfg pn pl)
    (bind (modify (set_Transport
                     (fun t => mkTransport (state t) (position t) v (scheduled t)))) f) Q E.
Proof. apply step_modify. intros s. apply accounted_bpm. Qed.

Lemma step_push_components l (f : unit -> M B) pn pl :
  pn.*1 ≡ₚ l ->
  hoare env (accounted s0 this cfg [] pl) (f tt) Q E ->
  hoare env (accounted s0 this cfg pn pl)
    (bind (modify (set_engines (alter (set_components (fun c => c ++ l)) this))) f) Q E.
Proof. intros Hp. apply step_modify. intros s. apply accounted_push_components, Hp. Qed.

Lemma step_push_loops l (f : unit -> M B) pn pl pl' :
  pl = l ++ pl' ->
  hoare env (accounted s0 this cfg pn pl') (f tt) Q E ->
  hoare env (accounted s0 this cfg pn pl)
    (bind (modify (set_engines (alter (set_loops (fun c => c ++ l)) this))) f) Q E.
Proof. intros Hp. apply step_modify. intros s. apply accounted_push_loops, Hp. Qed.

Lemma step_new_node c a (f : nat -> M B) pn pl :
  (forall n, hoare env (accounted s0 this cfg (pn ++ [(n, c)]) pl) (f n) Q E) ->
  hoare env (accounted s0 this cfg pn pl) (bind (new_node c a) f) Q E.
Proof.
  intros Hf s Hs. unfold bind, new_node.
  apply (Hf (length (nodes s))). apply accounted_new_node, Hs.
Qed.

Lemma step_new_Loop i (f : nat -> M B) pn pl :
  (forall l, hoare env (accounted s0 this cfg pn pl) (f l) Q E) ->
  hoare env (accounted s0 this cfg pn pl) (bind (new_Loop i) f) Q E.
Proof.
  intros Hf s Hs. unfold bind, new_Loop.
  apply (Hf (length (toneLoops s))). apply accounted_toneLoops, Hs.
Qed.

Lemma step_this_engine (f : SoundEngine -> M B) pn pl :
  (forall e, engineConfig e = cfg -> hoare env (accounted s0 this cfg pn pl) (f e) Q E) ->
  hoare env (accounted s0 this cfg pn pl) (bind (this_engine this) f) Q E.
Proof.
  intros Hf s Hs. unfold bind, this_engine.
  pose proof Hs as (e & dn & dl & He & Hcfg & Hrest). rewrite He.
  apply (Hf e Hcfg), Hs.
Qed.

Lemma step_generate ok n (f : unit -> M B) pn pl :
  (ok env = false -> forall s, accounted s0 this cfg pn pl s -> E (Rejected "Reverb.generate") s) ->
  (ok env = true -> hoare env (accounted s0 this cfg pn pl) (f tt) Q E) ->
  hoare env (accounted s0 this cfg pn pl) (bind (Reverb_generate ok n) f) Q E.
Proof.
  intros Hfail Hf s Hs. unfold bind at 1, Reverb_generate, bind, asks.
  destruct (ok env) eqn:Hok.
  - apply (Hf eq_refl). apply accounted_nodes_alter; [intros x; auto | exact Hs].
  - simpl. apply Hfail; [reflexivity | exact Hs].
Qed.

Lemma step_throw {A} e (f : A -> M B) (P : Session -> Prop) :
  (forall s, P s -> E e s) -> hoare env P (bind (throw e) f) Q E.
Proof. intros H s Hs. simpl. auto. Qed.

End Steps.

Lemma perm_pick {A} (x : A) l l1 l2 : l ≡ₚ l1 ++ l2 -> x :: l ≡ₚ l1 ++ x :: l2.
Proof. intros ->. apply Permutation_middle. Qed.

Ltac split_at x L :=
  lazymatch L with
  | x :: ?t => constr:((@nil nat, t))
  | ?h :: ?t =>
      lazymatch split_at x t with
      | (?l1, ?l2) => constr:((h :: l1, l2))
      end
  end.

Ltac perm_lists :=
  cbn [app];
  first
    [ reflexivity
    | repeat lazymatch goal with
      | |- [] ≡ₚ [] => reflexivity
      | |- ?x :: ?l ≡ₚ ?L =>
          lazymatch split_at x L with
          | (?l1, ?l2) => apply (perm_pick x l l1 l2); cbn [app]
          end
      end ].

Ltac in_list := repeat first [ apply list_elem_of_here | apply list_elem_of_further ].

Ltac books_modify :=
  lazymatch goal with
  | |- hoare _ _ (bind (modify (set_nodes (alter (set_started true) _))) _) _ _ =>
      eapply step_node_start; [ in_list | reflexivity | ]
  | |- hoare _ _ (bind (modify (set_nodes (alter _ _))) _) _ _ =>
      apply step_nodes_alter; [ intros ?; repeat split; reflexivity | ]
  | |- hoare _ _ (bind (modify (set_toneLoops _)) _) _ _ => apply step_toneLoops
  | |- hoare _ _ (bind (modify (set_Transport (set_scheduled _))) _) _ _ =>
      apply step_schedule; cbn [app]
  | |- hoare _ _ (bind (modify (set_Transport _)) _) _ _ => apply step_bpm
  | |- hoare _ _ (bind (modify (set_engines (alter (set_components _) _))) _) _ _ =>
      apply step_push_components;
      [ first [ assumption | cbn [fmap list_fmap fst]; perm_lists ] | ]
  | |- hoare _ _ (bind (modify (set_engines (alter (set_loops _) _))) _) _ _ =>
      eapply step_push_loops; [ rewrite app_nil_r; reflexivity | ]
  end.

Ltac books_step fail_tac :=
  lazymatch goal with
  | |- hoare _ _ (bind (bind _ _) _) _ _ => apply hoare_bind_assoc
  | |- hoare _ _ (bind (ret _) _) _ _ => apply hoare_bind_ret; cbv beta iota
  | |- hoare _ _ (bind (let _ := _ in _) _) _ _ => cbv zeta
  | |- hoare _ _ (let _ := _ in _) _ _ => cbv zeta
  | |- hoare _ _ (bind (modify _) _) _ _ => books_modify
  | |- hoare _ _ (bind (new_node _ _) _) _ _ => apply step_new_node; intros ?; cbn [app]
  | |- hoare _ _ (bind (new_Loop _) _) _ _ => apply step_new_Loop; intros ?
  | |- hoare _ _ (bind (this_engine _) _) _ _ =>
      let H := fresh "Hcfg" in
      apply step_this_engine; intros ? H; cbv beta zeta; rewrite ?H; clear H
  | |- hoare _ _ (bind (Reverb_generate _ _) _) _ _ =>
      apply step_generate; [ intros ? ? ?; fail_tac | intros ? ]
  | |- hoare _ _ (bind (throw _) _) _ _ => apply step_throw; intros ? ?; fail_tac
  | |- hoare _ _ (bind (when ?b _) _) _ _ => destruct b eqn:?; cbn [when]
  | |- hoare _ _ (bind (if ?b then _ else _) _) _ _ => destruct b eqn:?
  | |- hoare _ _ (bind (match ?x with _ => _ end) _) _ _ => destruct x eqn:?
  | |- hoare _ _ (bind (forEach _ _) _) _ _ =>
      eapply hoare_bind; [ apply hoare_forEach; intros [? ?] _ | intros ? ]
  | |- hoare _ _ (bind ?m _) _ _ => let h := spec_head m in cbv delta [h]
  | |- hoare _ _ (ret _) _ _ => fail
  | |- hoare _ _ _ _ _ => apply hoare_last
  end.

Ltac books fail_tac := repeat (books_step fail_tac; cbv beta).

(** The master chain builder allocates its nodes in the order of the
    [components] list it returns, pushes none of them itself, and starts
    none. *)
Lemma createMasterChain_books env s0 this cfg pl options :
  hoare env (accounted s0 this cfg [] pl) (createMasterChain options)
    (fun chain s => chain_generate_ok env = true /\
                    exists pn, pn.*1 = chain_components chain /\
                               accounted s0 this cfg pn pl s)
    (fun err s => err = Rejected "Reverb.generate" /\ chain_generate_ok env = false /\
                  exists pn, accounted s0 this cfg pn pl s /\ (2 <= length pn)%nat).
Proof.
  unfold createMasterChain.
  books ltac:(repeat split; [assumption | eexists; split; [eassumption | simpl; lia]]).
  all: apply hoare_ret; intros s Hs; split; [assumption |].
  all: eexists; split; [| exact Hs]; reflexivity.
Qed.

Lemma step_createMasterChain {env : Env} s0 this cfg {B} (Q : B -> Session -> Prop) E
    options (f : MasterChain -> M B) pl :
  (chain_generate_ok env = false ->
   forall s pn, accounted s0 this cfg pn pl s -> (2 <= length pn)%nat ->
                E (Rejected "Reverb.generate") s) ->
  (forall chain pn, chain_generate_ok env = true -> pn.*1 ≡ₚ chain_components chain ->
     hoare env (accounted s0 this cfg pn pl) (f chain) Q E) ->
  hoare env (accounted s0 this cfg [] pl) (bind (createMasterChain options) f) Q E.
Proof.
  intros Hfail Hf s Hs. unfold bind.
  pose proof (createMasterChain_books env s0 this cfg pl options s Hs) as H.
  destruct (createMasterChain options env s) as [[chain | e] s1].
  - destruct H as (Hok & pn & Hpn & Hacc). apply (Hf chain pn Hok); [| exact Hacc].
    rewrite Hpn. reflexivity.
  - destruct H as (-> & Hok & pn & Hacc & Hlen). eapply Hfail; eassumption.
Qed.

Ltac engine_step fail_tac :=
  lazymatch goal with
  | |- hoare _ _ (bind (createMasterChain _) _) _ _ =>
      apply step_createMasterChain; [ intros ? ? ? ? ?; fail_tac | intros ? ? ? ? ]
  | |- _ => books_step fail_tac
  end.

Ltac engine_books fail_tac := repeat (engine_step fail_tac; cbv beta).

Ltac rejection_facts :=
  unfold start_rejection;
  repeat match goal with
         | H : _ = true |- _ => rewrite H
         | H : _ = false |- _ => rewrite H
         | H : or_default _ _ = _ |- _ => rewrite H
         end;
  simpl; try reflexivity.

Ltac start_fail_tac :=
  split;
  [ rejection_facts
  | eexists; split; [ eassumption | first [ discriminate | intros _; simpl; lia | assumption ] ] ].

Lemma class_start_books env c this s0 cfg :
  hoare env (accounted s0 this cfg [] []) (class_start c this)
    (fun _ s => start_rejection env c cfg = None /\ accounted s0 this cfg [] [] s)
    (start_fails env c s0 this cfg).
Proof.
  destruct c; simpl.
  all: unfold GenerativeEngine_start, ScientificFocusEngine_start, BinauralEngine_start,
    NoiseEngine_start, RainEngine_start, ForestEngine_start, LofiEngine_start,
    MinimalEngine_start.
  all: engine_books start_fail_tac.
  all: apply hoare_ret; intros s Hs; first [ exact Hs | split; [ rejection_facts | exact Hs ] ].
Qed.

(** ** What [createEngine] returns and registers *)

Lemma same_node_count_refl s : same_node_count s s.
Proof. reflexivity. Qed.

Lemma same_node_count_trans s1 s2 s3 :
  same_node_count s1 s2 -> same_node_count s2 s3 -> same_node_count s1 s3.
Proof. unfold same_node_count. congruence. Qed.

Ltac same_node_count_tac :=
  unfold same_node_count, record; simpl; rewrite ?length_alter; reflexivity.

Lemma SoundEngine_stop_node_count this :
  spec same_node_count (fun _ => True) (SoundEngine_stop this).
Proof.
  unfold SoundEngine_stop.
  spec_go same_node_count_refl same_node_count_trans same_node_count_tac.
Qed.

Lemma SoundEngine_dispose_node_count this :
  spec same_node_count (fun _ => True) (SoundEngine_dispose this).
Proof.
  pose proof SoundEngine_stop_node_count.
  unfold SoundEngine_dispose.
  spec_go same_node_count_refl same_node_count_trans same_node_count_tac.
Qed.

(** With an engine (or nothing) in the slot, the disposal that opens
    [createEngine] and [disposeEngine] returns normally. *)
Lemma dispose_current_ok env s :
  current_is_program s ->
  exists s1,
    dispose_current env s = (Ok tt, s1) /\
    currentEngine s1 = None /\
    audioInitialized s1 = audioInitialized s /\
    length (engines s1) = length (engines s) /\
    length (nodes s1) = length (nodes s).
Proof.
  unfold current_is_program, dispose_current, bind at 1, gets. simpl.
  destruct (currentEngine s) as [[e | c] |] eqn:Hcur; simpl.
  - intros [eng Heng].
    destruct (SoundEngine_dispose_ok e env s eng Heng) as (s1 & Hrun & _).
    pose proof (SoundEngine_dispose_control _ _ _ _ _ Hrun) as (Hc & Ha & Hh & Hl & _).
    pose proof (proj1 (spec_run _ _ _ _ _ _ _ (SoundEngine_dispose_node_count e) Hrun)) as Hn.
    unfold bind. rewrite Hrun. eexists. split; [reflexivity |]. simpl. auto.
  - intros [].
  - intros _. exists s. unfold ret. auto.
Qed.

(** [createEngine] from its registry lookup on, for a registered class. *)
Lemma createEngine_start_phase profile c env s s1 :
  dispose_current env s = (Ok tt, s1) ->
  audioInitialized s1 || Tone_start_ok env = true ->
  lookup_ENGINE_TYPES (type (config profile)) = Class c ->
  createEngine profile env s =
  match class_start c (length (engines s1)) env (before_start c (config profile) s1) with
  | (Ok _, s2) =>
      (Ok (RefEngine (length (engines s1))),
       set_Transport (fun t => mkTransport Started (position t) (bpm t) (scheduled t)) s2)
  | (Throw err, s2) => (Throw err, s2)
  end.
Proof.
  intros Hd Hinit Hlook.
  rewrite createEngine_unfold. unfold bind at 1. rewrite Hd.
  unfold bind at 1. rewrite initProfileEngine_run.
  assert (Hrun : (if audioInitialized s1 then (Ok true, s1)
                  else if Tone_start_ok env then (Ok true, set_audioInitialized true s1)
                  else (Ok false, s1)) = (Ok true, set_audioInitialized true s1)).
  { destruct (audioInitialized s1) eqn:Ha; simpl in Hinit.
    - f_equal. destruct s1; simpl in *; subst; reflexivity.
    - rewrite Hinit. reflexivity. }
  rewrite Hrun. simpl negb. cbv iota.
  rewrite Hlook.
  unfold bind at 1 2 3 4 5 6 7, ret, Transport_stop, Transport_cancel, Transport_set_position,
    modify, new_engine, record, ref_start, start. simpl.
  unfold bind at 1 2 3, record, modify, this_engine. simpl.
  rewrite list_lookup_middle by reflexivity. simpl.
  unfold before_start. rewrite <- app_assoc. simpl.
  destruct (class_start c _ env _) as [[[] | err] s2]; reflexivity.
Qed.

Lemma current_is_program_before_start c cfg s :
  engines (before_start c cfg s) !! length (engines s) = Some (mkEngine c cfg [] []).
Proof. simpl. apply list_lookup_middle. reflexivity. Qed.

(** The outcome of [start()] on the engine [createEngine] has just
    installed, with the books of the call. *)
Lemma createEngine_start_run profile c env s s1 r s' :
  dispose_current env s = (Ok tt, s1) ->
  audioInitialized s1 || Tone_start_ok env = true ->
  lookup_ENGINE_TYPES (type (config profile)) = Class c ->
  createEngine profile env s = (r, s') ->
  let this := length (engines s1) in
  let s0 := before_start c (config profile) s1 in
  (start_rejection env c (config profile) = None /\
   r = Ok (RefEngine this) /\
   exists s2, accounted s0 this (config profile) [] [] s2 /\
     s' = set_Transport (fun t => mkTransport Started (position t) (bpm t) (scheduled t)) s2) \/
  (exists err, start_rejection env c (config profile) = Some err /\ r = Throw err /\
     exists pn, accounted s0 this (config profile) pn [] s' /\
                (err = Rejected "Reverb.generate" -> (2 <= length pn)%nat)).
Proof.
  intros Hd Hinit Hlook Hrun this s0.
  rewrite (createEngine_start_phase _ c _ _ s1 Hd Hinit Hlook) in Hrun.
  fold this s0 in Hrun.
  pose proof (class_start_books env c this s0 (config profile) s0) as Hb.
  specialize (Hb (accounted_begin s0 this (config profile) _
                    (current_is_program_before_start c (config profile) s1) eq_refl)).
  destruct (class_start c this env s0) as [[[] | err] s2].
  - destruct Hb as [Hrej Hacc]. injection Hrun as <- <-. left. eauto.
  - destruct Hb as (Hrej & pn & Hacc & Hlen). injection Hrun as <- <-. right.
    exists err. eauto.
Qed.

(** The outcome of [createEngine], by its checks in order. *)
Lemma createEngine_result profile env s :
  current_is_program s ->
  result (createEngine profile) env s =
  match createEngine_rejection profile env s with
  | Some err => Throw err
  | None => Ok (RefEngine (length (engines s)))
  end.
Proof.
  intros Hcur.
  destruct (dispose_current_ok env s Hcur) as (s1 & Hd & Hc1 & Ha1 & Hl1 & Hn1).
  unfold createEngine_rejection. rewrite <- Ha1, <- Hl1.
  destruct (audioInitialized s1 || Tone_start_ok env) eqn:Hinit; simpl.
  - destruct (lookup_ENGINE_TYPES (type (config profile))) as [c | | |] eqn:Hlook.
    + unfold result.
      destruct (createEngine profile env s) as [r s'] eqn:Hrun.
      destruct (createEngine_start_run _ c _ _ s1 _ _ Hd Hinit Hlook Hrun)
        as [(-> & -> & _) | (err & -> & -> & _)]; reflexivity.
    + unfold result. rewrite createEngine_unfold. unfold bind at 1. rewrite Hd.
      unfold bind at 1. rewrite initProfileEngine_run, Hlook.
      destruct (audioInitialized s1); [reflexivity |].
      simpl in Hinit. rewrite Hinit. reflexivity.
    + unfold result. rewrite createEngine_unfold. unfold bind at 1. rewrite Hd.
      unfold bind at 1. rewrite initProfileEngine_run, Hlook.
      destruct (audioInitialized s1); [reflexivity |].
      simpl in Hinit. rewrite Hinit. reflexivity.
    + unfold result. rewrite createEngine_unfold. unfold bind at 1. rewrite Hd.
      unfold bind at 1. rewrite initProfileEngine_run, Hlook.
      destruct (audioInitialized s1); [reflexivity |].
      simpl in Hinit. rewrite Hinit. reflexivity.
  - unfold result. rewrite createEngine_unfold. unfold bind at 1. rewrite Hd.
    unfold bind at 1. rewrite initProfileEngine_run.
    apply orb_false_elim in Hinit as [-> ->]. reflexivity.
Qed.

Lemma created_trans_count s s1 s' :
  length (nodes s1) = length (nodes s) -> created s s' = created s1 s'.
Proof. intros H. unfold created. rewrite H. reflexivity. Qed.

(** The session a successful [createEngine] leaves. *)
Lemma createEngine_success profile env s r s' :
  current_is_program s ->
  createEngine profile env s = (Ok r, s') ->
  exists e,
    r = RefEngine (length (engines s)) /\
    currentEngine s' = Some (RefEngine (length (engines s))) /\
    engines s' !! (length (engines s)) = Some e /\
    length (engines s') = S (length (engines s)) /\
    engineConfig e = config profile /\
    (components e ≡ₚ created s s') /\
    loops e = scheduled (Transport s') /\
    state (Transport s') = Started /\ position (Transport s') = 0 /\
    audioInitialized s' = true /\
    (forall n nd, n ∈ created s s' -> nodes s' !! n = Some nd ->
       disposed nd = false /\ (started nd = true -> has_stop (cls nd) = true)).
Proof.
  intros Hcur Hrun.
  destruct (dispose_current_ok env s Hcur) as (s1 & Hd & Hc1 & Ha1 & Hl1 & Hn1).
  pose proof (createEngine_result profile env s Hcur) as Hres.
  unfold result in Hres. rewrite Hrun in Hres. simpl in Hres.
  unfold createEngine_rejection in Hres. rewrite <- Ha1 in Hres.
  destruct (audioInitialized s1 || Tone_start_ok env) eqn:Hinit; [| discriminate].
  simpl in Hres.
  destruct (lookup_ENGINE_TYPES (type (config profile))) as [c | | |] eqn:Hlook;
    try discriminate.
  destruct (createEngine_start_run _ c _ _ s1 _ _ Hd Hinit Hlook Hrun)
    as [(Hrej & [= ->] & s2 & Hacc & ->) | (err & _ & [=] & _)].
  rewrite <- Hl1.
  destruct Hacc as (e & dn & dl & He & Hcfg & Hcomp & Hloops & Hoth & Hlen & Hle & Hperm
                    & Hcls & Hnew & Hold & Hsched & Hstate & Hpos & Hcurr & Hai).
  unfold components_of, loops_of in *.
  rewrite current_is_program_before_start in Hcomp, Hloops. simpl in *.
  exists e.
  rewrite (created_trans_count s s1) by exact Hn1.
  rewrite app_nil_r in Hperm.
  repeat split; auto.
  - rewrite Hlen, length_app. simpl. lia.
  - rewrite Hcomp. symmetry. exact Hperm.
  - rewrite Hloops, Hsched, app_nil_r. reflexivity.
  - apply (Hnew n nd); assumption.
  - apply (Hnew n nd); assumption.
Qed.

(** ** Disposal after [createEngine] *)

Lemma dispose_components_others (l : list nat) (ns : list ToneNode) n :
  n ∉ l -> foldl (fun acc k => alter set_disposed k acc) ns l !! n = ns !! n.
Proof.
  revert ns. induction l as [| k l IH]; intros ns Hn; simpl; [reflexivity |].
  apply not_elem_of_cons in Hn as [Hne Hn].
  rewrite IH by exact Hn. apply list_lookup_alter_ne. auto.
Qed.

(** [dispose()] releases the nodes of [this.components] and no other. *)
Lemma SoundEngine_dispose_nodes this env s e :
  engines s !! this = Some e ->
  exists s',
    SoundEngine_dispose this env s = (Ok tt, s') /\
    (forall n, n ∈ components e -> is_Some (nodes s !! n) -> released s' n) /\
    (forall n, n ∉ components e -> disposed <$> nodes s' !! n = disposed <$> nodes s !! n).
Proof.
  intros He. unfold SoundEngine_dispose.
  unfold bind at 1, record, modify. simpl.
  set (s0 := mkSession _ _ _ _ _ _ _).
  assert (He0 : engines s0 !! this = Some e) by exact He.
  destruct (SoundEngine_stop_ok this env s0 e He0) as (s1 & Hstop & Heng1).
  destruct (SoundEngine_stop_keeps this env s0) as [[_ Hdisp] _].
  unfold bind at 1. rewrite Hstop in *. simpl in Hdisp.
  unfold bind at 1. simpl.
  unfold bind at 1, this_engine. simpl.
  rewrite list_lookup_alter_eq, Heng1, He0. simpl.
  unfold bind. rewrite dispose_components_run. simpl.
  eexists. split; [reflexivity |]. simpl. split.
  - intros n Hin Hsome. unfold released. simpl.
    apply dispose_components_released; [assumption |].
    destruct Hsome as [nd Hnd]. specialize (Hdisp n).
    change (nodes s0) with (nodes s) in Hdisp. rewrite Hnd in Hdisp.
    destruct (nodes s1 !! n); [eauto | discriminate].
  - intros n Hn. rewrite dispose_components_others by exact Hn. apply Hdisp.
Qed.

Lemma disposeEngine_nodes this env s e :
  currentEngine s = Some (RefEngine this) -> engines s !! this = Some e ->
  let s' := after disposeEngine env s in
  result disposeEngine env s = Ok tt /\
  (forall n, n ∈ components e -> is_Some (nodes s !! n) -> released s' n) /\
  (forall n, n ∉ components e -> disposed <$> nodes s' !! n = disposed <$> nodes s !! n).
Proof.
  intros Hcur He.
  destruct (SoundEngine_dispose_nodes this env s e He) as (s1 & Hrun & Hrel & Hoth).
  assert (Hd : disposeEngine env s = (Ok tt, set_Transport reset_transport
                                             (set_currentEngine None s1))).
  { unfold disposeEngine, bind, gets. rewrite Hcur. unfold ref_dispose. rewrite Hrun.
    reflexivity. }
  unfold result, after. rewrite Hd. simpl. auto.
Qed.




(** X3: when [createEngine] resolves, the new engine's [components] list
    holds exactly the nodes allocated during the call, each once; its
    [loops] list is exactly the list of registrations on the Transport
    timeline, in order; the Transport is started at position 0; and none of
    the new nodes is released. *)
Theorem createEngine_registers_what_it_allocates profile env s r s' :
  current_is_program s ->
  createEngine profile env s = (Ok r, s') ->
  let this := length (engines s) in
  r = RefEngine this /\
  getCurrentEngine s' = Some (RefEngine this) /\
  (components_of s' this ≡ₚ created s s') /\
  loops_of s' this = scheduled (Transport s') /\
  state (Transport s') = Started /\ position (Transport s') = 0 /\
  (forall n, n ∈ created s s' -> disposed <$> nodes s' !! n = Some false).
Proof.
  intros Hcur Hrun this.
  destruct (createEngine_success _ _ _ _ _ Hcur Hrun)
    as (e & Hr & Hc & He & Hlen & Hcfg & Hperm & Hloops & Hst & Hpos & Hai & Hnew).
  unfold getCurrentEngine, components_of, loops_of. subst this. rewrite He. simpl.
  repeat split; auto.
  intros n Hn. pose proof Hn as Hlt. apply created_length in Hlt.
  destruct (lookup_lt_is_Some_2 (nodes s') n) as [nd Hnd]; [lia |].
  rewrite Hnd. simpl. f_equal. apply (Hnew n nd Hn Hnd).
Qed.

Lemma createEngine_registers_what_it_allocates_witness :
  current_is_program initial_session /\
  createEngine SCIENCE_FOCUS all_ok initial_session = (Ok (RefEngine 0), science_session) /\
  (components_of science_session 0 ≡ₚ created initial_session science_session) /\
  loops_of science_session 0 = scheduled (Transport science_session).
Proof.
  assert (H : current_is_program initial_session) by exact I.
  assert (Hrun : createEngine SCIENCE_FOCUS all_ok initial_session
                 = (Ok (RefEngine 0), science_session)) by (vm_compute; reflexivity).
  destruct (createEngine_registers_what_it_allocates _ _ _ _ _ H Hrun)
    as (_ & _ & Hp & Hl & _).
  auto.
Defined.

(** X4: a [createEngine] call that resolved, followed by [disposeEngine]:
    the disposal returns normally and releases every node the creation
    allocated; nothing stays registered on the Transport and the slot is
    empty. *)
Theorem disposeEngine_releases_all_created profile env env' s r s1 :
  current_is_program s ->
  createEngine profile env s = (Ok r, s1) ->
  let s2 := after disposeEngine env' s1 in
  result disposeEngine env' s1 = Ok tt /\
  (forall n, n ∈ created s s1 -> released s2 n) /\
  scheduled (Transport s2) = [] /\
  getCurrentEngine s2 = None.
Proof.
  intros Hcur Hrun.
  destruct (createEngine_success _ _ _ _ _ Hcur Hrun)
    as (e & Hr & Hc & He & Hlen & Hcfg & Hperm & Hloops & Hst & Hpos & Hai & Hnew).
  destruct (disposeEngine_nodes _ env' s1 e Hc He) as (Hres & Hrel & _).
  cbv zeta. split; [exact Hres |]. split; [| split].
  - intros n Hn. apply Hrel.
    + rewrite Hperm. exact Hn.
    + apply created_length in Hn. apply lookup_lt_is_Some. lia.
  - destruct (SoundEngine_dispose_nodes _ env' s1 e He) as (s3 & Hd & _).
    unfold after, disposeEngine, bind, gets. rewrite Hc. unfold ref_dispose.
    rewrite Hd. reflexivity.
  - destruct (SoundEngine_dispose_nodes _ env' s1 e He) as (s3 & Hd & _).
    unfold after, disposeEngine, bind, gets. rewrite Hc. unfold ref_dispose.
    rewrite Hd. reflexivity.
Qed.

Lemma disposeEngine_releases_all_created_witness :
  current_is_program initial_session /\
  createEngine SCIENCE_FOCUS all_ok initial_session = (Ok (RefEngine 0), science_session) /\
  (forall n, n ∈ created initial_session science_session -> released idle_session n).
Proof.
  assert (H : current_is_program initial_session) by exact I.
  assert (Hrun : createEngine SCIENCE_FOCUS all_ok initial_session
                 = (Ok (RefEngine 0), science_session)) by (vm_compute; reflexivity).
  destruct (disposeEngine_releases_all_created _ _ all_ok _ _ _ H Hrun) as (_ & Hrel & _).
  auto.
Defined.

(** ** What [stop()] silences *)

Lemma stop_loops_run l env s :
  forEach l (fun loop => Loop_stop loop;; Loop_cancel loop) env s =
  (Ok tt, set_Transport (set_scheduled (unschedule_all l))
            (set_toneLoops (stop_loops l) s)).
Proof.
  revert s. induction l as [| x l IH]; intros s; simpl.
  - unfold ret. destruct s as [? ? ? ? ? [? ? ? ?] ?]; reflexivity.
  - unfold bind at 1 2 3, Loop_stop, Loop_cancel, bind, modify. simpl.
    change (forEach l (fun loop => Loop_stop loop;; Loop_cancel loop) env ?s0)
      with (forEach l (fun loop => Loop_stop loop;; Loop_cancel loop) env s0).
    rewrite IH. reflexivity.
Qed.

Lemma stop_component_run n env s :
  (c ← gets (fun s => class_of s n);
   when (from_option has_releaseAll false c) (node_releaseAll n);;
   when (from_option has_stop false c) (node_stop n)) env s =
  (Ok tt, set_nodes (fun ns => if from_option has_stop false (cls <$> ns !! n)
                               then alter (set_started false) n ns else ns) s).
Proof.
  unfold bind, gets, class_of, node_releaseAll, node_stop, when, modify, ret.
  destruct (from_option has_releaseAll false (cls <$> nodes s !! n));
    destruct (from_option has_stop false (cls <$> nodes s !! n)) eqn:Hstop;
    unfold set_nodes; rewrite Hstop; try reflexivity; destruct s; reflexivity.
Qed.

Lemma stop_components_run l env s :
  forEach l (fun comp =>
     c ← gets (fun s => class_of s comp);
     when (from_option has_releaseAll false c) (node_releaseAll comp);;
     when (from_option has_stop false c) (node_stop comp)) env s =
  (Ok tt, set_nodes (stop_nodes l) s).
Proof.
  revert s. induction l as [| n l IH]; intros s.
  - unfold ret. destruct s; reflexivity.
  - cbn [forEach]. unfold bind at 1. rewrite stop_component_run. rewrite IH.
    reflexivity.
Qed.

Lemma unschedule_all_spec l q x : x ∈ unschedule_all l q <-> x ∈ q /\ x ∉ l.
Proof.
  revert q. induction l as [| y l IH]; intros q; unfold unschedule_all in *; simpl.
  - split; [intros H; split; [exact H | apply not_elem_of_nil] | tauto].
  - rewrite IH. unfold unschedule. rewrite !list_elem_of_filter, not_elem_of_cons. tauto.
Qed.

Lemma stop_loops_other l tl x : x ∉ l -> stop_loops l tl !! x = tl !! x.
Proof.
  revert tl. induction l as [| y l IH]; intros tl Hx; unfold stop_loops in *; simpl.
  - reflexivity.
  - apply not_elem_of_cons in Hx as [Hne Hx]. rewrite IH by exact Hx.
    apply list_lookup_alter_ne. auto.
Qed.

Lemma stop_loops_keeps_stopped l tl x :
  running <$> tl !! x <> Some true -> running <$> stop_loops l tl !! x <> Some true.
Proof.
  revert tl. induction l as [| y l IH]; intros tl Hx; unfold stop_loops in *; simpl.
  - exact Hx.
  - apply IH. destruct (decide (y = x)) as [-> | Hne].
    + rewrite list_lookup_alter_eq. destruct (tl !! x); simpl; discriminate.
    + rewrite list_lookup_alter_ne by exact Hne. exact Hx.
Qed.

Lemma stop_loops_stopped l tl x :
  x ∈ l -> running <$> stop_loops l tl !! x <> Some true.
Proof.
  revert tl. induction l as [| y l IH]; intros tl Hx.
  - inversion Hx.
  - unfold stop_loops. simpl. fold (stop_loops l (alter stopped_loop y tl)).
    destruct (decide (y = x)) as [-> | Hne].
    + apply stop_loops_keeps_stopped. rewrite list_lookup_alter_eq.
      destruct (tl !! x); simpl; discriminate.
    + apply IH. apply elem_of_cons in Hx as [-> | Hx]; [congruence | exact Hx].
Qed.

(** [stop()] on the node store: classes and release flags stay, no node is
    started, and a listed node that has a [stop] method is not started
    afterwards. *)
Lemma stop_nodes_spec l ns n :
  cls <$> stop_nodes l ns !! n = cls <$> ns !! n /\
  disposed <$> stop_nodes l ns !! n = disposed <$> ns !! n /\
  (started <$> stop_nodes l ns !! n = Some true -> started <$> ns !! n = Some true) /\
  (n ∈ l -> from_option has_stop false (cls <$> ns !! n) = true ->
   started <$> stop_nodes l ns !! n = Some false).
Proof.
  revert ns. induction l as [| k l IH]; intros ns; unfold stop_nodes in *; simpl.
  - repeat split; auto. intros Hn. inversion Hn.
  - set (ns1 := if from_option has_stop false (cls <$> ns !! k)
                then alter (set_started false) k ns else ns).
    assert (H1 : cls <$> ns1 !! n = cls <$> ns !! n /\
                 disposed <$> ns1 !! n = disposed <$> ns !! n /\
                 (started <$> ns1 !! n = Some true -> started <$> ns !! n = Some true) /\
                 (k = n -> from_option has_stop false (cls <$> ns !! n) = true ->
                  started <$> ns1 !! n = Some false)).
    { subst ns1. destruct (from_option has_stop false (cls <$> ns !! k)) eqn:Hk.
      - destruct (decide (k = n)) as [-> | Hne].
        + rewrite list_lookup_alter_eq. destruct (ns !! n) as [x |]; simpl in *;
            repeat split; auto; discriminate.
        + rewrite list_lookup_alter_ne by exact Hne. repeat split; auto. congruence.
      - repeat split; auto. intros ->. congruence. }
    destruct H1 as (Hc1 & Hd1 & Hs1 & Hk1).
    destruct (IH ns1) as (Hc & Hd & Hs & Hin).
    repeat split.
    + congruence.
    + congruence.
    + auto.
    + intros Hn Hstop. apply elem_of_cons in Hn as [-> | Hn].
      * specialize (Hk1 eq_refl Hstop).
        destruct (foldl _ ns1 l !! k) as [y |] eqn:Hy.
        -- simpl in *. destruct (started y); [| reflexivity].
           specialize (Hs eq_refl). congruence.
        -- destruct (ns1 !! k); simpl in *; discriminate.
      * apply Hin; [exact Hn |]. rewrite Hc1. exact Hstop.
Qed.

(** The run of [stop()] on an existing engine. *)
Lemma SoundEngine_stop_run this env s e :
  engines s !! this = Some e ->
  SoundEngine_stop this env s =
  (Ok tt,
   mkSession (stop_nodes (components e) (nodes s)) (stop_loops (loops e) (toneLoops s))
             (engines s) (currentEngine s) (audioInitialized s)
             (set_scheduled (unschedule_all (loops e)) (Transport s))
             (history s ++ [Call_stop this])).
Proof.
  intros He. unfold SoundEngine_stop, bind at 1 2, record, modify, this_engine. simpl.
  rewrite He. unfold bind. rewrite stop_loops_run. simpl.
  rewrite stop_components_run. reflexivity.
Qed.

(** X5: [stop()] on an engine instance returns normally; it removes from
    the Transport timeline exactly the registrations of the loops in
    [this.loops] and leaves none of these loops running; every node of
    [this.components] that has a [stop] method is not started afterwards;
    it starts no node and leaves the Transport's state and position
    alone. *)
Theorem stop_silences_the_engine this env s e :
  engines s !! this = Some e ->
  let s' := after (SoundEngine_stop this) env s in
  result (SoundEngine_stop this) env s = Ok tt /\
  (forall l, l ∈ scheduled (Transport s') <-> l ∈ scheduled (Transport s) /\ l ∉ loops e) /\
  (forall l, l ∈ loops e -> running <$> toneLoops s' !! l <> Some true) /\
  (forall n, n ∈ components e -> from_option has_stop false (class_of s n) = true ->
             started <$> nodes s' !! n = Some false) /\
  (forall n, started <$> nodes s' !! n = Some true -> started <$> nodes s !! n = Some true) /\
  state (Transport s') = state (Transport s) /\
  position (Transport s') = position (Transport s).
Proof.
  intros He. cbv zeta. unfold result, after.
  rewrite (SoundEngine_stop_run this env s e He). simpl.
  split; [reflexivity |]. split; [| split; [| split; [| split]]].
  - intros l. apply unschedule_all_spec.
  - intros l Hl. apply stop_loops_stopped, Hl.
  - intros n Hn Hstop. apply stop_nodes_spec; assumption.
  - intros n. apply stop_nodes_spec.
  - auto.
Qed.

Lemma stop_silences_the_engine_witness :
  engines science_session !! 0%nat = Some (mkEngine ScientificFocusEngine (config SCIENCE_FOCUS)
                                         (components_of science_session 0)
                                         (loops_of science_session 0)) /\
  result (SoundEngine_stop 0) all_ok science_session = Ok tt /\
  (forall l, l ∈ loops_of science_session 0 ->
     running <$> toneLoops (after (SoundEngine_stop 0) all_ok science_session) !! l <> Some true).
Proof.
  assert (H : engines science_session !! 0%nat
              = Some (mkEngine ScientificFocusEngine (config SCIENCE_FOCUS)
                        (components_of science_session 0) (loops_of science_session 0)))
    by (vm_compute; reflexivity).
  split; [exact H |].
  pose proof (stop_silences_the_engine 0 all_ok science_session _ H) as Hstop.
  cbv zeta in Hstop. destruct Hstop as (Hr & _ & Hl & _).
  split; [exact Hr | exact Hl].
Defined.

Lemma nil_of_no_elements {A} (l : list A) : (forall x, x ∉ l) -> l = [].
Proof. destruct l as [| x l]; [reflexivity |]. intros H. destruct (H x). left. Qed.

(** X6: [stopEngine()] after a [createEngine] call that resolved: it
    returns normally and leaves the Transport stopped at position 0 with no
    registration; no node allocated by the creation is started and none is
    released; no loop of the engine is running; and the engine stays in the
    slot with its lists as they were. *)
Theorem stopEngine_after_createEngine profile env env' s r s1 :
  current_is_program s ->
  createEngine profile env s = (Ok r, s1) ->
  let this := length (engines s) in
  let s2 := after stopEngine env' s1 in
  result stopEngine env' s1 = Ok tt /\
  Transport s2 = reset_transport (Transport s2) /\
  (forall n, n ∈ created s s1 ->
     started <$> nodes s2 !! n = Some false /\ disposed <$> nodes s2 !! n = Some false) /\
  (forall l, l ∈ loops_of s1 this -> running <$> toneLoops s2 !! l <> Some true) /\
  getCurrentEngine s2 = Some (RefEngine this) /\
  engines s2 = engines s1.
Proof.
  intros Hcur Hrun.
  destruct (createEngine_success _ _ _ _ _ Hcur Hrun)
    as (e & Hr & Hc & He & Hlen & Hcfg & Hperm & Hloops & Hst & Hpos & Hai & Hnew).
  assert (Hstop : stopEngine env' s1 =
    (Ok tt,
     mkSession (stop_nodes (components e) (nodes s1)) (stop_loops (loops e) (toneLoops s1))
               (engines s1) (currentEngine s1) (audioInitialized s1)
               (mkTransport Stopped 0 (bpm (Transport s1))
                  (unschedule_all (loops e) (scheduled (Transport s1))))
               (history s1 ++ [Call_stop (length (engines s))]))).
  { unfold stopEngine, bind at 1 2, gets. rewrite Hc. unfold ref_stop, bind.
    rewrite (SoundEngine_stop_run _ env' s1 e He). rewrite ?Hc. reflexivity. }
  cbv zeta. unfold result, after, getCurrentEngine, loops_of.
  rewrite Hstop, He. simpl.
  split; [reflexivity |]. split; [| split; [| split; [| split]]]; auto.
  - unfold reset_transport. simpl. f_equal.
    apply nil_of_no_elements. intros x Hx. apply unschedule_all_spec in Hx as [Hx Hnot].
    apply Hnot. rewrite Hloops. exact Hx.
  - intros n Hn. pose proof Hn as Hlt. apply created_length in Hlt.
    destruct (lookup_lt_is_Some_2 (nodes s1) n) as [nd Hnd]; [lia |].
    destruct (Hnew n nd Hn Hnd) as [Hdisp Hstart].
    destruct (stop_nodes_spec (components e) (nodes s1) n) as (Hcls & Hd & Hs & Hin).
    rewrite Hd, Hnd. split; [| simpl; congruence].
    destruct (started nd) eqn:Hsn.
    + apply Hin; [rewrite Hperm; exact Hn |]. rewrite Hnd. simpl. auto.
    + rewrite Hnd in Hcls, Hs. simpl in *.
      destruct (stop_nodes (components e) (nodes s1) !! n) as [y |]; [| discriminate].
      simpl in *. destruct (started y); [| reflexivity].
      specialize (Hs eq_refl). congruence.
  - intros l Hl. apply stop_loops_stopped, Hl.
Qed.

Lemma stopEngine_after_createEngine_witness :
  current_is_program initial_session /\
  createEngine SCIENCE_FOCUS all_ok initial_session = (Ok (RefEngine 0), science_session) /\
  result stopEngine all_ok science_session = Ok tt.
Proof.
  assert (H : current_is_program initial_session) by exact I.
  assert (Hrun : createEngine SCIENCE_FOCUS all_ok initial_session
                 = (Ok (RefEngine 0), science_session)) by (vm_compute; reflexivity).
  destruct (stopEngine_after_createEngine _ _ all_ok _ _ _ H Hrun) as (Hres & _).
  auto.
Defined.

(** X7: when [createEngine] rejects because an impulse response could not
    be generated, the engine whose [start()] failed stays in the slot, the
    Transport is not started, and at least two nodes allocated by the call
    are in no [components] list of that engine: [disposeEngine()] leaves
    them unreleased. *)
Theorem failed_generation_leaves_unlisted_nodes profile env s s' :
  current_is_program s ->
  createEngine profile env s = (Throw (Rejected "Reverb.generate"), s') ->
  let this := length (engines s) in
  getCurrentEngine s' = Some (RefEngine this) /\
  is_Some (engines s' !! this) /\
  state (Transport s') = Stopped /\
  exists leaked,
    (2 <= length leaked)%nat /\ NoDup leaked /\
    (forall n, n ∈ leaked -> n ∈ created s s' /\ n ∉ components_of s' this) /\
    (forall env' n, n ∈ leaked ->
       disposed <$> nodes (after disposeEngine env' s') !! n = Some false).
Proof.
  intros Hcur Hrun.
  destruct (dispose_current_ok env s Hcur) as (s1 & Hd & Hc1 & Ha1 & Hl1 & Hn1).
  pose proof (createEngine_result profile env s Hcur) as Hres.
  unfold result in Hres. rewrite Hrun in Hres. simpl in Hres.
  unfold createEngine_rejection in Hres. rewrite <- Ha1 in Hres.
  destruct (audioInitialized s1 || Tone_start_ok env) eqn:Hinit; [| discriminate].
  simpl in Hres.
  destruct (lookup_ENGINE_TYPES (type (config profile))) as [c | | |] eqn:Hlook;
    try discriminate.
  destruct (createEngine_start_run _ c _ _ s1 _ _ Hd Hinit Hlook Hrun)
    as [(_ & [=] & _) | (err & Hrej & [= <-] & pn & Hacc & Hlen)].
  specialize (Hlen eq_refl).
  destruct Hacc as (e & dn & dl & He & Hcfg & Hcomp & Hloops & Hoth & Hleng & Hle & Hperm
                    & Hcls & Hnew & Hold & Hsched & Hstate & Hpos & Hcurr & Hai).
  unfold components_of, loops_of in *.
  rewrite current_is_program_before_start in Hcomp, Hloops. simpl in *.
  cbv zeta. unfold getCurrentEngine, components_of. rewrite <- Hl1, He, Hcurr.
  split; [reflexivity |]. split; [eauto |]. split; [exact Hstate |].
  assert (Hnd : NoDup (dn ++ pn.*1)).
  { rewrite <- Hperm. apply NoDup_seq. }
  apply NoDup_app in Hnd as (_ & Hdisj & Hnd).
  exists (pn.*1). rewrite length_fmap. split; [exact Hlen |]. split; [exact Hnd |].
  assert (Hin : forall n, n ∈ pn.*1 -> n ∈ created s s' /\ n ∉ dn).
  { intros n Hn. split.
    - rewrite (created_trans_count s s1) by exact Hn1.
      change (created s1 s') with (created (before_start c (config profile) s1) s').
      rewrite Hperm. apply elem_of_app. right. exact Hn.
    - intros Hdn. apply (Hdisj n Hdn Hn). }
  split.
  - intros n Hn. simpl. rewrite Hcomp. apply Hin, Hn.
  - intros env' n Hn. destruct (Hin n Hn) as [Hcr Hndn].
    destruct (disposeEngine_nodes _ env' s' e Hcurr He) as (_ & _ & Hoth').
    rewrite Hoth' by (rewrite Hcomp; exact Hndn).
    pose proof Hcr as Hlt. apply created_length in Hlt.
    destruct (lookup_lt_is_Some_2 (nodes s') n) as [nd Hx]; [lia |].
    rewrite Hx. simpl. f_equal. apply (Hnew n nd); [| exact Hx].
    rewrite (created_trans_count s s1) in Hcr by exact Hn1. exact Hcr.
Qed.

Lemma failed_generation_leaves_unlisted_nodes_witness :
  current_is_program initial_session /\
  createEngine RAIN (mkEnv true true false) initial_session =
    (Throw (Rejected "Reverb.generate"),
     after (createEngine RAIN) (mkEnv true true false) initial_session) /\
  getCurrentEngine (after (createEngine RAIN) (mkEnv true true false) initial_session)
    = Some (RefEngine 0).
Proof.
  assert (H : current_is_program initial_session) by exact I.
  assert (Hrun : createEngine RAIN (mkEnv true true false) initial_session =
                 (Throw (Rejected "Reverb.generate"),
                  after (createEngine RAIN) (mkEnv true true false) initial_session))
    by (vm_compute; reflexivity).
  destruct (failed_generation_leaves_unlisted_nodes _ _ _ _ H Hrun) as (Hc & _).
  auto.
Defined.

(** ** The playback state across the lifecycle functions *)

Lemma same_playback_refl s : same_playback s s.
Proof. split; reflexivity. Qed.

Lemma same_playback_trans s1 s2 s3 :
  same_playback s1 s2 -> same_playback s2 s3 -> same_playback s1 s3.
Proof. unfold same_playback. intros [? ?] [? ?]. split; congruence. Qed.

Ltac same_playback_tac := unfold same_playback, record; simpl; split; reflexivity.

Lemma SoundEngine_stop_playback this :
  spec same_playback (fun _ => True) (SoundEngine_stop this).
Proof.
  unfold SoundEngine_stop.
  spec_go same_playback_refl same_playback_trans same_playback_tac.
Qed.

Lemma SoundEngine_dispose_playback this :
  spec same_playback (fun _ => True) (SoundEngine_dispose this).
Proof.
  pose proof SoundEngine_stop_playback.
  unfold SoundEngine_dispose.
  spec_go same_playback_refl same_playback_trans same_playback_tac.
Qed.

Lemma dispose_current_playback env s r s1 :
  dispose_current env s = (r, s1) -> same_playback s s1.
Proof.
  unfold dispose_current, bind at 1, gets. simpl.
  destruct (currentEngine s) as [[e | c] |] eqn:Hcur; simpl.
  - unfold bind.
    destruct (SoundEngine_dispose e env s) as [[[] | err] s0] eqn:Hd;
      pose proof (proj1 (spec_run _ _ _ _ _ _ _ (SoundEngine_dispose_playback e) Hd)) as Hp;
      intros [= <- <-]; exact Hp.
  - unfold throw. intros [= <- <-]. apply same_playback_refl.
  - unfold ret. intros [= <- <-]. apply same_playback_refl.
Qed.


Lemma createEngine_steps profile env s s1 :
  dispose_current env s = (Ok tt, s1) ->
  createEngine profile env s = createEngine_from profile env s1.
Proof.
  intros Hd. unfold createEngine_from.
  destruct (audioInitialized s1 || Tone_start_ok env) eqn:Hinit.
  - destruct (lookup_ENGINE_TYPES (type (config profile))) as [c | | |] eqn:Hlook.
    + apply (createEngine_start_phase _ c _ _ _ Hd Hinit Hlook).
    + rewrite createEngine_unfold. unfold bind at 1. rewrite Hd.
      unfold bind at 1. rewrite initProfileEngine_run, Hlook.
      destruct (audioInitialized s1) eqn:Hai; simpl in Hinit; [| rewrite Hinit];
        cbn; destruct s1; simpl in *; subst; reflexivity.
    + rewrite createEngine_unfold. unfold bind at 1. rewrite Hd.
      unfold bind at 1. rewrite initProfileEngine_run, Hlook.
      destruct (audioInitialized s1) eqn:Hai; simpl in Hinit; [| rewrite Hinit];
        cbn; destruct s1; simpl in *; subst; reflexivity.
    + rewrite createEngine_unfold. unfold bind at 1. rewrite Hd.
      unfold bind at 1. rewrite initProfileEngine_run, Hlook.
      destruct (audioInitialized s1) eqn:Hai; simpl in Hinit; [| rewrite Hinit];
        cbn; destruct s1; simpl in *; subst; reflexivity.
  - rewrite createEngine_unfold. unfold bind at 1. rewrite Hd.
    unfold bind at 1. rewrite initProfileEngine_run.
    apply orb_false_elim in Hinit as [-> ->]. reflexivity.
Qed.

(** What any outcome of [createEngine] leaves in the slot and on the
    Transport. *)
Lemma createEngine_keeps profile env s r s' :
  current_is_valid s ->
  createEngine profile env s = (r, s') ->
  current_is_valid s' /\
  match r with
  | Ok _ =>
      current_is_program s /\
      exists e, currentEngine s' = Some (RefEngine (length (engines s))) /\
                engines s' !! (length (engines s)) = Some e /\
                loops e = scheduled (Transport s') /\
                state (Transport s') = Started /\
                audioInitialized s' = true
  | Throw _ =>
      (state (Transport s) <> Started -> state (Transport s') <> Started) /\
      (current_is_program s ->
       lookup_ENGINE_TYPES (type (config profile)) <> Object_constructor ->
       current_is_program s')
  end.
Proof.
  intros Hval Hrun.
  destruct (currentEngine s) as [[e | cfg] |] eqn:Hcur.
  2: { (* a config object in the slot: [dispose] is no function *)
       rewrite createEngine_unfold in Hrun.
       unfold bind at 1, dispose_current, bind at 1, gets in Hrun. simpl in Hrun.
       rewrite Hcur in Hrun. simpl in Hrun. injection Hrun as <- <-.
       repeat split; auto. }
  all: assert (Hprog : current_is_program s)
         by (unfold current_is_program, current_is_valid in *; rewrite Hcur in *; auto).
  all: destruct r as [r | err].
  all: try (destruct (createEngine_success _ _ _ _ _ Hprog Hrun)
              as (e' & Hr & Hc & He & Hlen & Hcfg & Hperm & Hloops & Hst & Hpos & Hai & Hnew);
            unfold current_is_valid; rewrite Hc, He; eauto 12).
  all: destruct (dispose_current_ok env s Hprog) as (s1 & Hd & Hc1 & Ha1 & Hl1 & Hn1).
  all: pose proof (dispose_current_playback _ _ _ _ Hd) as [Hst1 _].
  all: rewrite (createEngine_steps _ _ _ _ Hd) in Hrun; unfold createEngine_from in Hrun.
  all: destruct (audioInitialized s1 || Tone_start_ok env).
  all: try (injection Hrun as <- <-;
            unfold current_is_valid, current_is_program; rewrite Hc1, Hst1; auto).
  all: destruct (lookup_ENGINE_TYPES (type (config profile))) as [c | | |] eqn:Hlook.
  all: try (injection Hrun as <- <-;
            unfold current_is_valid, current_is_program; simpl; rewrite ?Hc1;
            repeat split; auto; try discriminate; congruence).
  all: pose proof (class_start_books env c (length (engines s1))
                     (before_start c (config profile) s1) (config profile)
                     (before_start c (config profile) s1)
                     (accounted_begin _ _ _ _
                        (current_is_program_before_start c (config profile) s1) eq_refl))
         as Hb.
  all: destruct (class_start c (length (engines s1)) env (before_start c (config profile) s1))
         as [[[] | err'] s2]; [discriminate |].
  all: injection Hrun as <- <-.
  all: destruct Hb as (_ & pn & Hacc & _).
  all: destruct Hacc as (e' & dn & dl & He & Hcfg & Hcomp & Hloops & Hoth & Hleng & Hle & Hperm
                         & Hcls & Hnew & Hold & Hsched & Hstate & Hpos & Hcurr & Hai).
  all: simpl in *.
  all: unfold current_is_valid, current_is_program; rewrite Hcurr, He, Hstate.
  all: repeat split; eauto; discriminate.
Qed.

(** Whatever its outcome, [createEngine] first disposes of the engine it
    finds in the slot: that engine's lists are emptied and the nodes of its
    [components] list are released. *)
Lemma createEngine_disposes_previous profile env s this e r s' :
  currentEngine s = Some (RefEngine this) -> engines s !! this = Some e ->
  createEngine profile env s = (r, s') ->
  engines s' !! this = Some (mkEngine (engineClass e) (engineConfig e) [] []) /\
  (forall n, n ∈ components e -> is_Some (nodes s !! n) -> released s' n).
Proof.
  intros Hcur He Hrun.
  destruct (SoundEngine_dispose_ok this env s e He) as (s0 & Hd0 & Hthis & _ & Hrel).
  pose proof (proj1 (spec_run _ _ _ _ _ _ _ (SoundEngine_dispose_node_count this) Hd0)) as Hn.
  assert (Hd : dispose_current env s = (Ok tt, set_currentEngine None s0)).
  { unfold dispose_current, bind, gets. rewrite Hcur. unfold ref_dispose. rewrite Hd0.
    reflexivity. }
  rewrite (createEngine_steps _ _ _ _ Hd) in Hrun. unfold createEngine_from in Hrun.
  set (s1 := set_currentEngine None s0) in *.
  assert (Hthis1 : engines s1 !! this = Some (mkEngine (engineClass e) (engineConfig e) [] []))
    by exact Hthis.
  assert (Hrel1 : forall n, n ∈ components e -> is_Some (nodes s !! n) -> released s1 n)
    by exact Hrel.
  destruct (audioInitialized s1 || Tone_start_ok env).
  2: { injection Hrun as <- <-. auto. }
  destruct (lookup_ENGINE_TYPES (type (config profile))) as [c | | |] eqn:Hlook.
  2-4: injection Hrun as <- <-; auto.
  pose proof (class_start_books env c (length (engines s1))
                (before_start c (config profile) s1) (config profile)
                (before_start c (config profile) s1)
                (accounted_begin _ _ _ _
                   (current_is_program_before_start c (config profile) s1) eq_refl)) as Hb.
  assert (Hlt : (this < length (engines s1))%nat) by (apply lookup_lt_is_Some; eauto).
  assert (Hacc : exists pn pl s2,
            accounted (before_start c (config profile) s1) (length (engines s1))
                      (config profile) pn pl s2 /\
            engines s' = engines s2 /\ nodes s' = nodes s2).
  { destruct (class_start c (length (engines s1)) env (before_start c (config profile) s1))
      as [[[] | err] s2]; injection Hrun as <- <-.
    - destruct Hb as [_ Hacc]. eauto 10.
    - destruct Hb as (_ & pn & Hacc & _). eauto 10. }
  destruct Hacc as (pn & pl & s2 & Hacc & -> & Hnodes).
  destruct Hacc as (e' & dn & dl & He' & Hcfg & Hcomp & Hloops & Hoth & Hleng & Hle & Hperm
                    & Hcls & Hnew & Hold & _).
  split.
  - rewrite Hoth by lia. simpl. rewrite lookup_app_l by exact Hlt. exact Hthis1.
  - intros n Hin Hsome. unfold released. rewrite Hnodes.
    rewrite Hold.
    + apply (Hrel1 n Hin Hsome).
    + simpl. change (nodes s1) with (nodes s0). unfold same_node_count in Hn. rewrite Hn.
      apply lookup_lt_is_Some. exact Hsome.
Qed.

(** ** The audio controller *)

(** [Tone.Transport.pause(); stopEngine()] with an engine in the slot. *)
Lemma pause_then_stopEngine_run env s this e :
  currentEngine s = Some (RefEngine this) -> engines s !! this = Some e ->
  (Transport_pause;; stopEngine) env s =
  (Ok tt,
   mkSession (stop_nodes (components e) (nodes s)) (stop_loops (loops e) (toneLoops s))
             (engines s) (Some (RefEngine this)) (audioInitialized s)
             (mkTransport Stopped 0 (bpm (Transport s))
                (unschedule_all (loops e) (scheduled (Transport s))))
             (history s ++ [Call_stop this])).
Proof.
  intros Hcur He.
  unfold bind at 1, Transport_pause, modify.
  set (s0 := set_Transport _ s).
  assert (He0 : engines s0 !! this = Some e) by exact He.
  unfold stopEngine, bind at 1 2, gets. simpl. rewrite Hcur. unfold ref_stop, bind.
  rewrite (SoundEngine_stop_run _ env s0 e He0). simpl.
  unfold Transport_stop, modify. simpl. rewrite Hcur.
  destruct (state (Transport s)); reflexivity.
Qed.

(** [Tone.Transport.stop(); disposeEngine()] with an engine in the slot. *)
Lemma stop_then_disposeEngine_run env s this e :
  currentEngine s = Some (RefEngine this) -> engines s !! this = Some e ->
  exists s',
    (Transport_stop;; disposeEngine) env s = (Ok tt, s') /\
    currentEngine s' = None /\
    Transport s' = reset_transport (Transport s') /\
    audioInitialized s' = audioInitialized s /\
    length (engines s') = length (engines s) /\
    length (nodes s') = length (nodes s) /\
    engines s' !! this = Some (mkEngine (engineClass e) (engineConfig e) [] []) /\
    (forall n, n ∈ components e -> is_Some (nodes s !! n) -> released s' n).
Proof.
  intros Hcur He.
  unfold bind at 1, Transport_stop, modify.
  set (s0 := set_Transport _ s).
  assert (He0 : engines s0 !! this = Some e) by exact He.
  destruct (SoundEngine_dispose_ok this env s0 e He0) as (s1 & Hrun & Hthis & Hoth & Hrel).
  pose proof (SoundEngine_dispose_control _ _ _ _ _ Hrun) as (Hc & Ha & Hh & Hl & _).
  pose proof (proj1 (spec_run _ _ _ _ _ _ _ (SoundEngine_dispose_node_count this) Hrun)) as Hn.
  exists (set_Transport reset_transport (set_currentEngine None s1)).
  split.
  - unfold disposeEngine, bind, gets. simpl. rewrite Hcur. unfold ref_dispose.
    rewrite Hrun. reflexivity.
  - simpl. repeat split; auto.
Qed.

Lemma startGenerativeMusic_step env c :
  controller_invariant c ->
  exists msg, fst (startGenerativeMusic env c) = Ok msg /\
              controller_invariant (snd (startGenerativeMusic env c)).
Proof.
  intros Hinv. unfold startGenerativeMusic.
  destruct (isPlaying c) eqn:Hp.
  - eexists. split; [reflexivity |]. exact Hinv.
  - destruct Hinv as (Hval & Hplay & Hidle). unfold engine_call.
    destruct (createEngine (currentProfile c) env (audio c)) as [[r | err] s'] eqn:Hrun;
      destruct (createEngine_keeps _ _ _ _ _ Hval Hrun) as [Hval' Hrest]; simpl.
    + eexists. split; [reflexivity |]. simpl.
      destruct Hrest as (_ & e & Hc & He & Hl & Hst & Hai).
      split; [exact Hval' | split]; simpl; [| discriminate].
      intros _. exists (length (engines (audio c))), e. repeat split; assumption.
    + eexists. split; [reflexivity |]. simpl.
      destruct Hrest as [Hst _].
      split; [exact Hval' | split]; simpl; [rewrite Hp; discriminate |].
      intros _. apply Hst, Hidle, Hp.
Qed.

Lemma pauseGenerativeMusic_step env c :
  controller_invariant c ->
  exists msg, fst (pauseGenerativeMusic env c) = Ok msg /\
              controller_invariant (snd (pauseGenerativeMusic env c)).
Proof.
  intros Hinv. unfold pauseGenerativeMusic.
  destruct (isPlaying c) eqn:Hp; simpl.
  - destruct Hinv as (Hval & Hplay & Hidle).
    destruct (Hplay Hp) as (this & e & Hc & He & Hl & Hst & Hai & Hf).
    unfold engine_call. rewrite (pause_then_stopEngine_run env _ this e Hc He). simpl.
    eexists. split; [reflexivity |]. simpl.
    unfold controller_invariant, current_is_valid. simpl. rewrite He.
    split; [eauto | split; discriminate].
  - eexists. split; [reflexivity |]. exact Hinv.
Qed.

Lemma stopGenerativeMusic_step env c :
  controller_invariant c ->
  exists msg, fst (stopGenerativeMusic env c) = Ok msg /\
              controller_invariant (snd (stopGenerativeMusic env c)).
Proof.
  intros Hinv. unfold stopGenerativeMusic.
  destruct (isPlaying c) eqn:Hp; simpl.
  - destruct Hinv as (Hval & Hplay & Hidle).
    destruct (Hplay Hp) as (this & e & Hc & He & Hl & Hst & Hai & Hf).
    unfold engine_call.
    destruct (stop_then_disposeEngine_run env _ this e Hc He)
      as (s' & -> & Hc' & Ht & _). simpl.
    eexists. split; [reflexivity |]. simpl.
    unfold controller_invariant, current_is_valid. simpl. rewrite Hc', Ht.
    split; [exact I | split; discriminate].
  - eexists. split; [reflexivity |]. exact Hinv.
Qed.

Lemma set_currentProfile_invariant p c :
  controller_invariant c -> controller_invariant (set_currentProfile p c).
Proof. intros H. exact H. Qed.

Lemma setProfile_step p env c :
  controller_invariant c ->
  fst (setProfile p env c) = Ok tt /\ controller_invariant (snd (setProfile p env c)).
Proof.
  intros Hinv. unfold setProfile. cbv zeta.
  destruct (isPlaying c) eqn:Hp.
  - destruct (stopGenerativeMusic_step env c Hinv) as (msg & Hr & Hinv1).
    destruct (stopGenerativeMusic env c) as [r1 c1]. simpl in Hr, Hinv1. subst r1.
    destruct (startGenerativeMusic_step env (set_currentProfile p c1)
                (set_currentProfile_invariant p c1 Hinv1)) as (msg' & Hr' & Hinv2).
    destruct (startGenerativeMusic env (set_currentProfile p c1)) as [r2 c2].
    simpl in Hr', Hinv2. subst r2. simpl. auto.
  - simpl. split; [reflexivity | exact Hinv].
Qed.

Lemma controller_steps_invariant allowed c c' :
  controller_steps allowed c c' -> controller_invariant c -> controller_invariant c'.
Proof.
  induction 1 as [| c c' p env _ IH _ | c c' env _ IH | c c' env _ IH | c c' env _ IH];
    intros Hinv.
  - exact Hinv.
  - apply setProfile_step, IH, Hinv.
  - destruct (startGenerativeMusic_step env c' (IH Hinv)) as (_ & _ & H). exact H.
  - destruct (pauseGenerativeMusic_step env c' (IH Hinv)) as (_ & _ & H). exact H.
  - destruct (stopGenerativeMusic_step env c' (IH Hinv)) as (_ & _ & H). exact H.
Qed.

Lemma initial_controller_invariant : controller_invariant initial_controller.
Proof.
  unfold controller_invariant, current_is_valid. simpl.
  split; [exact I | split; discriminate].
Qed.

Lemma controller_reachable_invariant allowed c :
  controller_reachable allowed c -> controller_invariant c.
Proof.
  intros H. apply (controller_steps_invariant _ _ _ H), initial_controller_invariant.
Qed.

(** X8: in every controller state reachable from the page load, whatever
    profiles were selected and whichever asynchronous steps failed, none
    of the four controller functions throws. *)
Theorem controller_calls_never_throw c env p :
  controller_reachable any_profile c ->
  (exists msg, fst (startGenerativeMusic env c) = Ok msg) /\
  (exists msg, fst (pauseGenerativeMusic env c) = Ok msg) /\
  (exists msg, fst (stopGenerativeMusic env c) = Ok msg) /\
  fst (setProfile p env c) = Ok tt.
Proof.
  intros Hreach. pose proof (controller_reachable_invariant _ _ Hreach) as Hinv.
  destruct (startGenerativeMusic_step env c Hinv) as (m1 & H1 & _).
  destruct (pauseGenerativeMusic_step env c Hinv) as (m2 & H2 & _).
  destruct (stopGenerativeMusic_step env c Hinv) as (m3 & H3 & _).
  destruct (setProfile_step p env c Hinv) as [H4 _].
  eauto 10.
Qed.

Lemma controller_calls_never_throw_witness :
  controller_reachable any_profile (snd (startGenerativeMusic all_ok initial_controller)) /\
  fst (setProfile RAIN (mkEnv true true false)
         (snd (startGenerativeMusic all_ok initial_controller))) = Ok tt.
Proof.
  assert (H : controller_reachable any_profile
                (snd (startGenerativeMusic all_ok initial_controller)))
    by (apply steps_start, steps_none).
  split; [exact H |].
  apply (controller_calls_never_throw _ (mkEnv true true false) RAIN H).
Defined.

(** X9: in every reachable controller state, [isPlaying] holds exactly
    when the Transport is started; and while it holds, the slot holds an
    existing engine instance whose [loops] list is the list of
    registrations on the Transport timeline, the audio context is
    initialized, and the favicon shows the note. *)
Theorem playing_flag_matches_transport c :
  controller_reachable any_profile c ->
  (isMusicPlaying c = true <-> state (Transport (audio c)) = Started) /\
  (isMusicPlaying c = true ->
   exists this,
     getCurrentEngine (audio c) = Some (RefEngine this) /\
     is_Some (engines (audio c) !! this) /\
     loops_of (audio c) this = scheduled (Transport (audio c)) /\
     audioInitialized (audio c) = true /\
     favicon c = Some "🎵").
Proof.
  intros Hreach.
  destruct (controller_reachable_invariant _ _ Hreach) as (Hval & Hplay & Hidle).
  unfold isMusicPlaying, getCurrentEngine, loops_of. split.
  - split.
    + intros Hp. destruct (Hplay Hp) as (this & e & _ & _ & _ & Hst & _). exact Hst.
    + intros Hst. destruct (isPlaying c); [reflexivity |].
      destruct (Hidle eq_refl Hst).
  - intros Hp. destruct (Hplay Hp) as (this & e & Hc & He & Hl & Hst & Hai & Hf).
    exists this. rewrite He. simpl. eauto 10.
Qed.

Lemma playing_flag_matches_transport_witness :
  controller_reachable any_profile (snd (startGenerativeMusic all_ok initial_controller)) /\
  (isMusicPlaying (snd (startGenerativeMusic all_ok initial_controller)) = true <->
   state (Transport (audio (snd (startGenerativeMusic all_ok initial_controller)))) = Started).
Proof.
  assert (H : controller_reachable any_profile
                (snd (startGenerativeMusic all_ok initial_controller)))
    by (apply steps_start, steps_none).
  split; [exact H |].
  apply (playing_flag_matches_transport _ H).
Defined.

(** X10: [stopGenerativeMusic()] while the music plays: it returns the
    'Sound stopped' message; afterwards [isPlaying] is off, the slot is
    empty, the Transport is stopped at position 0 with no registration,
    the lists of the engine that played are empty and every node its
    [components] list held is released, and the favicon is the headphones.
    A further stop or pause then changes nothing and returns nothing. *)
Theorem stopGenerativeMusic_is_complete c env :
  controller_reachable any_profile c -> isMusicPlaying c = true ->
  exists this c',
    getCurrentEngine (audio c) = Some (RefEngine this) /\
    stopGenerativeMusic env c = (Ok (Some CONFIG.MESSAGES.MUSIC_STOPPED), c') /\
    isMusicPlaying c' = false /\
    getCurrentProfile c' = getCurrentProfile c /\
    getCurrentEngine (audio c') = None /\
    Transport (audio c') = reset_transport (Transport (audio c')) /\
    components_of (audio c') this = [] /\ loops_of (audio c') this = [] /\
    (forall n, n ∈ components_of (audio c) this -> is_Some (nodes (audio c) !! n) ->
               released (audio c') n) /\
    favicon c' = Some "🎧" /\
    (forall env', stopGenerativeMusic env' c' = (Ok None, c') /\
                  pauseGenerativeMusic env' c' = (Ok None, c')).
Proof.
  intros Hreach Hp. unfold isMusicPlaying in Hp.
  destruct (controller_reachable_invariant _ _ Hreach) as (Hval & Hplay & Hidle).
  destruct (Hplay Hp) as (this & e & Hc & He & Hl & Hst & Hai & Hf).
  destruct (stop_then_disposeEngine_run env _ this e Hc He)
    as (s' & Hrun & Hc' & Ht & Ha' & Hlen & Hn & Hthis & Hrel).
  exists this. eexists. split; [exact Hc |].
  unfold stopGenerativeMusic at 1. rewrite Hp. simpl. unfold engine_call. rewrite Hrun.
  split; [reflexivity |].
  unfold isMusicPlaying, getCurrentProfile, getCurrentEngine, components_of, loops_of,
    stopGenerativeMusic, pauseGenerativeMusic. simpl.
  rewrite Hthis, He. simpl. repeat split; auto.
Qed.

Lemma stopGenerativeMusic_is_complete_witness :
  controller_reachable any_profile (snd (startGenerativeMusic all_ok initial_controller)) /\
  isMusicPlaying (snd (startGenerativeMusic all_ok initial_controller)) = true /\
  fst (stopGenerativeMusic all_ok (snd (startGenerativeMusic all_ok initial_controller)))
  = Ok (Some CONFIG.MESSAGES.MUSIC_STOPPED).
Proof.
  assert (H : controller_reachable any_profile
                (snd (startGenerativeMusic all_ok initial_controller)))
    by (apply steps_start, steps_none).
  assert (Hp : isMusicPlaying (snd (startGenerativeMusic all_ok initial_controller)) = true)
    by (vm_compute; reflexivity).
  destruct (stopGenerativeMusic_is_complete _ all_ok H Hp) as (this & c' & _ & Hrun & _).
  rewrite Hrun. auto.
Defined.

(** X11: [pauseGenerativeMusic()] while the music plays returns the 'Sound
    paused' message and leaves the engine in the slot with its lists, but
    the Transport is then stopped at position 0 with no registration, not
    paused.  A [startGenerativeMusic()] that then reports success has
    built a new engine instance and disposed of the paused one: the paused
    engine's lists are empty and the nodes of its [components] list are
    released. *)
Theorem pause_rewinds_and_resume_rebuilds c env env' :
  controller_reachable any_profile c -> isMusicPlaying c = true ->
  exists this c1,
    getCurrentEngine (audio c) = Some (RefEngine this) /\
    pauseGenerativeMusic env c = (Ok (Some CONFIG.MESSAGES.MUSIC_PAUSED), c1) /\
    isMusicPlaying c1 = false /\ favicon c1 = Some "⏸️" /\
    getCurrentEngine (audio c1) = Some (RefEngine this) /\
    engines (audio c1) = engines (audio c) /\
    Transport (audio c1) = reset_transport (Transport (audio c1)) /\
    (isMusicPlaying (snd (startGenerativeMusic env' c1)) = true ->
     let c2 := snd (startGenerativeMusic env' c1) in
     getCurrentEngine (audio c2) = Some (RefEngine (length (engines (audio c)))) /\
     (this < length (engines (audio c)))%nat /\
     components_of (audio c2) this = [] /\ loops_of (audio c2) this = [] /\
     (forall n, n ∈ components_of (audio c) this -> is_Some (nodes (audio c) !! n) ->
                released (audio c2) n) /\
     position (Transport (audio c2)) = 0).
Proof.
  intros Hreach Hp. unfold isMusicPlaying in Hp.
  destruct (controller_reachable_invariant _ _ Hreach) as (Hval & Hplay & Hidle).
  destruct (Hplay Hp) as (this & e & Hc & He & Hl & Hst & Hai & Hf).
  exists this. eexists. split; [exact Hc |].
  unfold pauseGenerativeMusic. rewrite Hp. simpl. unfold engine_call.
  rewrite (pause_then_stopEngine_run env _ this e Hc He). simpl.
  split; [reflexivity |].
  unfold isMusicPlaying, getCurrentEngine. simpl.
  split; [reflexivity |]. split; [reflexivity |]. split; [reflexivity |].
  split; [reflexivity |]. split.
  { unfold reset_transport. simpl. f_equal.
    apply nil_of_no_elements. intros x Hx. apply unschedule_all_spec in Hx as [Hx Hnot].
    apply Hnot. rewrite Hl. exact Hx. }
  match goal with |- context [startGenerativeMusic env' ?x] => set (c1 := x) end.
  unfold startGenerativeMusic. simpl. unfold engine_call.
  destruct (createEngine (currentProfile c) env' (audio c1)) as [[r | err] s2] eqn:Hrun;
    simpl; [| discriminate].
  intros _.
  assert (Hc1 : currentEngine (audio c1) = Some (RefEngine this)) by reflexivity.
  assert (He1 : engines (audio c1) !! this = Some e) by exact He.
  assert (Hprog : current_is_program (audio c1)).
  { unfold current_is_program. rewrite Hc1, He1. eauto. }
  destruct (createEngine_success _ _ _ _ _ Hprog Hrun)
    as (e' & Hr & Hc2 & He2 & Hlen & Hcfg & Hperm & Hloops & Hst2 & Hpos & _).
  destruct (createEngine_disposes_previous _ _ _ _ _ _ _ Hc1 He1 Hrun) as [Hthis Hrel].
  unfold components_of, loops_of. rewrite Hthis, He. simpl.
  split; [exact Hc2 |]. split; [apply lookup_lt_is_Some; eauto |].
  split; [reflexivity |]. split; [reflexivity |]. split; [| exact Hpos].
  intros n Hn Hsome. apply Hrel; [exact Hn |].
  simpl.
  destruct (stop_nodes_spec (components e) (nodes (audio c)) n) as (Hcls & _).
  destruct Hsome as [nd Hnd]. rewrite Hnd in Hcls. simpl in Hcls.
  destruct (stop_nodes (components e) (nodes (audio c)) !! n); [eauto | discriminate].
Qed.

Lemma pause_rewinds_and_resume_rebuilds_witness :
  controller_reachable any_profile (snd (startGenerativeMusic all_ok initial_controller)) /\
  isMusicPlaying (snd (startGenerativeMusic all_ok initial_controller)) = true /\
  fst (pauseGenerativeMusic all_ok (snd (startGenerativeMusic all_ok initial_controller)))
  = Ok (Some CONFIG.MESSAGES.MUSIC_PAUSED).
Proof.
  assert (H : controller_reachable any_profile
                (snd (startGenerativeMusic all_ok initial_controller)))
    by (apply steps_start, steps_none).
  assert (Hp : isMusicPlaying (snd (startGenerativeMusic all_ok initial_controller)) = true)
    by (vm_compute; reflexivity).
  destruct (pause_rewinds_and_resume_rebuilds _ all_ok all_ok H Hp)
    as (this & c' & _ & Hrun & _).
  rewrite Hrun. auto.
Defined.

(** Every catalog profile names a registered engine class, and none of
    them makes [start()] reject when the impulse responses can be
    generated. *)
Lemma catalog_lookup p :
  p ∈ getAllProfiles ->
  exists c, lookup_ENGINE_TYPES (type (config p)) = Class c /\
            forall env, chain_generate_ok env = true -> thunder_generate_ok env = true ->
                        start_rejection env c (config p) = None.
Proof.
  unfold getAllProfiles, SOUND_PROFILES. simpl. intros H.
  repeat (apply elem_of_cons in H as [-> | H]);
    try (eexists; split; [vm_compute; reflexivity |];
         intros env H1 H2; unfold start_rejection; rewrite H1, ?H2; vm_compute; reflexivity).
  inversion H.
Qed.

Lemma catalog_steps_invariant c c' :
  controller_steps catalog_profile c c' ->
  controller_invariant c /\ current_is_program (audio c) /\ catalog_profile (currentProfile c) ->
  controller_invariant c' /\ current_is_program (audio c') /\
  catalog_profile (currentProfile c').
Proof.
  assert (Hstart : forall env c,
    controller_invariant c /\ current_is_program (audio c) /\
    catalog_profile (currentProfile c) ->
    current_is_program (audio (snd (startGenerativeMusic env c))) /\
    currentProfile (snd (startGenerativeMusic env c)) = currentProfile c).
  { intros env c0 (Hinv & Hprog & Hcat). unfold startGenerativeMusic.
    destruct (isPlaying c0); [auto |]. unfold engine_call.
    destruct (createEngine (currentProfile c0) env (audio c0)) as [[r | err] s'] eqn:Hrun;
      destruct (createEngine_keeps _ _ _ _ _ (proj1 Hinv) Hrun) as [Hval' Hrest]; simpl.
    - destruct Hrest as (_ & e & Hc & He & _). split; [| reflexivity].
      unfold current_is_program. rewrite Hc, He. eauto.
    - destruct Hrest as [_ Hp]. split; [| reflexivity]. apply Hp; [exact Hprog |].
      destruct (catalog_lookup _ Hcat) as (cl & -> & _). discriminate. }
  assert (Hstop : forall env c,
    controller_invariant c /\ current_is_program (audio c) /\
    catalog_profile (currentProfile c) ->
    current_is_program (audio (snd (stopGenerativeMusic env c))) /\
    currentProfile (snd (stopGenerativeMusic env c)) = currentProfile c).
  { intros env c0 (Hinv & Hprog & Hcat). unfold stopGenerativeMusic.
    destruct (isPlaying c0) eqn:Hp; simpl; [| auto].
    destruct Hinv as (Hval & Hplay & Hidle).
    destruct (Hplay Hp) as (this & e & Hc & He & Hl & Hst & Hai & Hf).
    unfold engine_call.
    destruct (stop_then_disposeEngine_run env _ this e Hc He) as (s' & -> & Hc' & _).
    simpl. split; [| reflexivity]. unfold current_is_program. rewrite Hc'. exact I. }
  induction 1 as [| c c' p env _ IH Hp | c c' env _ IH | c c' env _ IH | c c' env _ IH];
    intros Hinv.
  - exact Hinv.
  - specialize (IH Hinv). destruct IH as (Hi & Hprog & Hcat).
    split; [apply setProfile_step, Hi |].
    unfold setProfile. cbv zeta.
    destruct (isPlaying c') eqn:Hplaying.
    + destruct (stopGenerativeMusic_step env c' Hi) as (msg & Hr & Hinv1).
      destruct (Hstop env c' (conj Hi (conj Hprog Hcat))) as [Hprog1 Hprof1].
      destruct (stopGenerativeMusic env c') as [r1 c1]. simpl in *. subst r1.
      assert (H2 : controller_invariant (set_currentProfile p c1) /\
                   current_is_program (audio (set_currentProfile p c1)) /\
                   catalog_profile (currentProfile (set_currentProfile p c1)))
        by (repeat split; auto; apply Hinv1).
      destruct (Hstart env _ H2) as [Hprog2 Hprof2].
      destruct (startGenerativeMusic env (set_currentProfile p c1)) as [[r2 | e2] c2];
        simpl in *; rewrite Hprof2; auto.
    + simpl. auto.
  - specialize (IH Hinv). destruct (startGenerativeMusic_step env c' (proj1 IH)) as (_ & _ & H).
    destruct (Hstart env c' IH) as [Hprog Hprof]. rewrite Hprof. tauto.
  - specialize (IH Hinv). destruct (pauseGenerativeMusic_step env c' (proj1 IH)) as (_ & _ & H).
    split; [exact H |]. destruct IH as (Hi & Hprog & Hcat).
    unfold pauseGenerativeMusic. destruct (isPlaying c') eqn:Hp; simpl; [| auto].
    destruct Hi as (Hval & Hplay & Hidle).
    destruct (Hplay Hp) as (this & e & Hc & He & Hl & Hst & Hai & Hf).
    unfold engine_call. rewrite (pause_then_stopEngine_run env _ this e Hc He). simpl.
    split; [| exact Hcat]. unfold current_is_program. simpl. rewrite He. eauto.
  - specialize (IH Hinv). destruct (stopGenerativeMusic_step env c' (proj1 IH)) as (_ & _ & H).
    destruct (Hstop env c' IH) as [Hprog Hprof]. rewrite Hprof. tauto.
Qed.

(** X12: whatever failed before, a start is never lost for good: in every
    controller state reachable with catalog profiles in which no music
    plays, [startGenerativeMusic()] resolves with the playing message and
    installs a new engine, provided that this time the audio context is
    initialized or can be, and the impulse responses can be generated. *)
Theorem catalog_start_recovers c env :
  controller_reachable catalog_profile c ->
  isMusicPlaying c = false ->
  audioInitialized (audio c) = true \/ Tone_start_ok env = true ->
  chain_generate_ok env = true -> thunder_generate_ok env = true ->
  exists c',
    startGenerativeMusic env c = (Ok (Some (playing_message (getCurrentProfile c))), c') /\
    isMusicPlaying c' = true /\
    getCurrentEngine (audio c') = Some (RefEngine (length (engines (audio c)))).
Proof.
  intros Hreach Hp Hinit Hchain Hthunder. unfold isMusicPlaying in Hp.
  assert (H0 : controller_invariant initial_controller /\
               current_is_program (audio initial_controller) /\
               catalog_profile (currentProfile initial_controller)).
  { split; [apply initial_controller_invariant |]. split; [exact I |].
    unfold catalog_profile. simpl. apply list_elem_of_here. }
  destruct (catalog_steps_invariant _ _ Hreach H0) as (Hinv & Hprog & Hcat).
  destruct (catalog_lookup _ Hcat) as (cl & Hlook & Hrej).
  pose proof (createEngine_result (currentProfile c) env (audio c) Hprog) as Hres.
  unfold createEngine_rejection in Hres.
  assert (Hor : audioInitialized (audio c) || Tone_start_ok env = true)
    by (destruct Hinit as [-> | ->]; [reflexivity | apply orb_true_r]).
  rewrite Hor, Hlook, (Hrej env Hchain Hthunder) in Hres. simpl in Hres.
  unfold startGenerativeMusic. rewrite Hp. unfold engine_call, result in *.
  destruct (createEngine (currentProfile c) env (audio c)) as [r s'] eqn:Hrun.
  simpl in Hres. subst r.
  destruct (createEngine_success _ _ _ _ _ Hprog Hrun) as (e & _ & Hc & _).
  eexists. split; [reflexivity |]. simpl. auto.
Qed.

Lemma catalog_start_recovers_witness :
  controller_reachable catalog_profile
    (snd (startGenerativeMusic (mkEnv true false true) initial_controller)) /\
  isMusicPlaying (snd (startGenerativeMusic (mkEnv true false true) initial_controller))
  = false /\
  fst (startGenerativeMusic all_ok
         (snd (startGenerativeMusic (mkEnv true false true) initial_controller)))
  = Ok (Some (playing_message SCIENCE_FOCUS)).
Proof.
  set (c := snd (startGenerativeMusic (mkEnv true false true) initial_controller)).
  assert (H : controller_reachable catalog_profile c) by (apply steps_start, steps_none).
  assert (Hp : isMusicPlaying c = false) by (vm_compute; reflexivity).
  destruct (catalog_start_recovers c all_ok H Hp (or_intror eq_refl) eq_refl eq_refl)
    as (c' & Hrun & _).
  rewrite Hrun. auto.
Defined.

Lemma start_with_config env c :
  isPlaying c = false -> holds_config (audio c) ->
  startGenerativeMusic env c = (Ok (Some "Failed to start music"), c).
Proof.
  intros Hp [cfg Hc]. unfold startGenerativeMusic. rewrite Hp.
  unfold engine_call. rewrite createEngine_unfold.
  unfold bind at 1, dispose_current, bind at 1, gets. simpl. rewrite Hc. simpl.
  destruct c; reflexivity.
Qed.

Lemma holds_config_steps c c' :
  controller_steps any_profile c c' ->
  isPlaying c = false -> holds_config (audio c) ->
  isPlaying c' = false /\ audio c' = audio c.
Proof.
  pose proof start_with_config as Hstart.
  induction 1 as [| c c' p env _ IH _ | c c' env _ IH | c c' env _ IH | c c' env _ IH];
    intros Hp Hcfg.
  - auto.
  - destruct (IH Hp Hcfg) as [Hp' Ha]. unfold setProfile. rewrite Hp'. simpl. auto.
  - destruct (IH Hp Hcfg) as [Hp' Ha]. rewrite Hstart; [auto | exact Hp' |].
    rewrite Ha. exact Hcfg.
  - destruct (IH Hp Hcfg) as [Hp' Ha]. unfold pauseGenerativeMusic. rewrite Hp'. simpl. auto.
  - destruct (IH Hp Hcfg) as [Hp' Ha]. unfold stopGenerativeMusic. rewrite Hp'. simpl. auto.
Qed.

(** X13: a start with a profile whose [config.type] is 'constructor'
    wedges the controller.  From a reachable state without music, the
    start reports failure and leaves the profile's config object in the
    engine slot; from then on, whatever is called and whichever profile is
    selected, no music plays again and every start reports failure. *)
Theorem constructor_type_wedges_the_controller c env :
  controller_reachable any_profile c ->
  isMusicPlaying c = false ->
  type (config (getCurrentProfile c)) = "constructor" ->
  audioInitialized (audio c) = true \/ Tone_start_ok env = true ->
  let c1 := snd (startGenerativeMusic env c) in
  fst (startGenerativeMusic env c) = Ok (Some "Failed to start music") /\
  holds_config (audio c1) /\
  forall c2, controller_steps any_profile c1 c2 ->
    isMusicPlaying c2 = false /\
    forall env', startGenerativeMusic env' c2 = (Ok (Some "Failed to start music"), c2).
Proof.
  intros Hreach Hp Hty Hinit. unfold isMusicPlaying, getCurrentProfile in *.
  destruct (controller_reachable_invariant _ _ Hreach) as (Hval & Hplay & Hidle).
  assert (H1 : fst (startGenerativeMusic env c) = Ok (Some "Failed to start music") /\
               isPlaying (snd (startGenerativeMusic env c)) = false /\
               holds_config (audio (snd (startGenerativeMusic env c)))).
  { destruct (currentEngine (audio c)) as [[e | cfg] |] eqn:Hcur.
    2: { assert (Hcfg : holds_config (audio c)) by (exists cfg; exact Hcur).
         rewrite (start_with_config env c Hp Hcfg). auto. }
    all: unfold startGenerativeMusic; rewrite Hp; unfold engine_call.
    all: assert (Hprog : current_is_program (audio c))
           by (unfold current_is_program, current_is_valid in *; rewrite Hcur in *; auto).
    all: destruct (dispose_current_ok env _ Hprog) as (s1 & Hd & Hc1 & Ha1 & _).
    all: rewrite (createEngine_steps _ _ _ _ Hd); unfold createEngine_from.
    all: assert (Hor : audioInitialized s1 || Tone_start_ok env = true)
           by (rewrite Ha1; destruct Hinit as [-> | ->]; [reflexivity | apply orb_true_r]).
    all: rewrite Hor, Hty; simpl.
    all: unfold holds_config; simpl; eauto. }
  destruct H1 as (Hr & Hp1 & Hcfg1). cbv zeta.
  split; [exact Hr |]. split; [exact Hcfg1 |].
  intros c2 Hsteps.
  destruct (holds_config_steps _ _ Hsteps Hp1 Hcfg1) as [Hp2 Ha2].
  split; [exact Hp2 |]. intros env'.
  apply start_with_config; [exact Hp2 |]. rewrite Ha2. exact Hcfg1.
Qed.

Lemma constructor_type_wedges_the_controller_witness :
  controller_reachable any_profile
    (snd (setProfile (profile_of_type "constructor") all_ok initial_controller)) /\
  fst (startGenerativeMusic all_ok
         (snd (setProfile (profile_of_type "constructor") all_ok initial_controller)))
  = Ok (Some "Failed to start music").
Proof.
  set (c := snd (setProfile (profile_of_type "constructor") all_ok initial_controller)).
  assert (H : controller_reachable any_profile c)
    by (apply steps_setProfile; [apply steps_none | exact I]).
  split; [exact H |].
  apply (constructor_type_wedges_the_controller c all_ok H eq_refl eq_refl
           (or_intror eq_refl)).
Defined.




(** ** The timer *)

Lemma decrementTimer_valid st :
  timer_valid st ->
  (fst (decrementTimer st) = true <-> remaining st = 0) /\
  (fst (decrementTimer st) = true -> snd (decrementTimer st) = st) /\
  (fst (decrementTimer st) = false ->
   timer_valid (snd (decrementTimer st)) /\
   remaining (snd (decrementTimer st)) = remaining st - 1) /\
  timerInterval (snd (decrementTimer st)) = timerInterval st /\
  isTimerRunning (snd (decrementTimer st)) = isTimerRunning st /\
  isBreakMode (snd (decrementTimer st)) = isBreakMode st /\
  completedSessions (snd (decrementTimer st)) = completedSessions st.
Proof.
  unfold timer_valid, remaining, decrementTimer. intros [Hm Hs].
  destruct (Z.eqb_spec (timerSeconds st) 0) as [H0 | H0];
    [destruct (Z.eqb_spec (timerMinutes st) 0) as [H1 | H1] |]; simpl;
    repeat split; intros; try lia; try discriminate; auto.
Qed.

Lemma countdown_steps k : forall st,
  timer_valid st -> (Z.of_nat k <= remaining st) ->
  exists st',
    countdown k st = Some st' /\ timer_valid st' /\
    remaining st' = remaining st - Z.of_nat k /\
    timerInterval st' = timerInterval st /\
    isTimerRunning st' = isTimerRunning st /\
    isBreakMode st' = isBreakMode st /\
    completedSessions st' = completedSessions st.
Proof.
  induction k as [| k IH]; intros st Hv Hk.
  - exists st. simpl. repeat split; auto; try apply Hv. lia.
  - destruct (decrementTimer_valid st Hv) as (Hdone & _ & Hstep & Hi & Hr & Hb & Hc).
    cbn [countdown]. destruct (decrementTimer st) as [[] st1] eqn:Hd; simpl in *.
    + assert (remaining st = 0) by (apply Hdone; reflexivity). lia.
    + destruct (Hstep eq_refl) as [Hv1 Hrem1].
      destruct (IH st1 Hv1) as (st' & Hrun & Hv' & Hrem' & Hi' & Hr' & Hb' & Hc'); [lia |].
      exists st'. repeat split; try apply Hv'; try congruence. lia.
Qed.

(** X15: the countdown.  On a timer showing [m] minutes and [s] seconds
    (seconds within 0..59), each of the first [60 m + s] calls of
    [decrementTimer] returns [false] and takes one second off; they leave
    the timer at 0:00; the next call is the first to return [true], and it
    changes nothing.  None of the calls touches the other variables. *)
Theorem countdown_completes_after_remaining st :
  timer_valid st ->
  let n := Z.to_nat (remaining st) in
  (forall k, (k <= n)%nat ->
     exists st', countdown k st = Some st' /\ timer_valid st' /\
                 remaining st' = remaining st - Z.of_nat k /\
                 timerInterval st' = timerInterval st /\
                 isTimerRunning st' = isTimerRunning st /\
                 isBreakMode st' = isBreakMode st /\
                 completedSessions st' = completedSessions st) /\
  (exists st0, countdown n st = Some st0 /\
               timerMinutes st0 = 0 /\ timerSeconds st0 = 0 /\
               decrementTimer st0 = (true, st0)) /\
  countdown (S n) st = None.
Proof.
  intros Hv n.
  assert (Hrem : 0 <= remaining st) by (unfold remaining, timer_valid in *; lia).
  assert (Hn : Z.of_nat n = remaining st) by (subst n; lia).
  split; [| split].
  - intros k Hk. apply countdown_steps; [exact Hv | lia].
  - destruct (countdown_steps n st Hv) as (st0 & Hrun & Hv0 & Hrem0 & _); [lia |].
    exists st0. split; [exact Hrun |].
    assert (H0 : remaining st0 = 0) by lia.
    unfold remaining, timer_valid in *.
    assert (Hm : timerMinutes st0 = 0) by lia.
    assert (Hs : timerSeconds st0 = 0) by lia.
    repeat split; auto. unfold decrementTimer. rewrite Hm, Hs. reflexivity.
  - destruct (countdown_steps n st Hv) as (st0 & Hrun & Hv0 & Hrem0 & _); [lia |].
    assert (H0 : remaining st0 = 0) by lia.
    assert (Hgen : forall k st1 st2, countdown k st1 = Some st2 ->
              fst (decrementTimer st2) = true -> countdown (S k) st1 = None).
    { induction k as [| k IH]; intros st1 st2 Hc Hd.
      - injection Hc as ->. simpl. destruct (decrementTimer st2) as [[] ?]; simpl in *;
          [reflexivity | discriminate].
      - cbn [countdown] in *. destruct (decrementTimer st1) as [[] st1']; [discriminate |].
        apply (IH st1' st2 Hc Hd). }
    apply (Hgen n st st0 Hrun).
    apply (decrementTimer_valid st0 Hv0). exact H0.
Qed.

Lemma countdown_completes_after_remaining_witness :
  timer_valid initial /\
  countdown 1500 initial = Some (set_time 0 0 initial) /\
  countdown 1501 initial = None.
Proof.
  assert (H : timer_valid initial) by (unfold timer_valid; cbv; intuition discriminate).
  destruct (countdown_completes_after_remaining initial H) as (_ & _ & Hnone).
  split; [exact H |]. split; [vm_compute; reflexivity | exact Hnone].
Defined.

(** X16: [setTimerValues] stores a valid time whatever it is given:
    minutes below 0 become 0 and seconds are clamped to 0..59, while values
    in range are stored as they are; and every other function that writes
    the timer keeps it valid. *)
Theorem timer_values_stay_valid :
  (forall m s st,
     timer_valid (setTimerValues m s st) /\
     timerMinutes (setTimerValues m s st) = Z.max 0 m /\
     timerSeconds (setTimerValues m s st) = Z.max 0 (Z.min 59 s) /\
     (0 <= m -> 0 <= s <= 59 ->
      timerMinutes (setTimerValues m s st) = m /\
      timerSeconds (setTimerValues m s st) = s)) /\
  (forall st, timer_valid st -> timer_valid (snd (decrementTimer st))) /\
  (forall st, timer_valid (resetTimer st) /\ timer_valid (startBreak st) /\
              timer_valid (endBreak st)) /\
  (forall st, timer_valid st ->
     timer_valid (incrementCompletedSessions st) /\ timer_valid (resetSessionCounter st) /\
     timer_valid (onIncreaseTime st) /\ timer_valid (onDecreaseTime st)).
Proof.
  split; [| split; [| split]].
  - intros m s st. unfold timer_valid, setTimerValues. simpl. repeat split; lia.
  - intros st Hv. destruct (decrementTimer_valid st Hv) as (_ & Hdone & Hstep & _).
    destruct (fst (decrementTimer st)) eqn:Hd.
    + rewrite (Hdone eq_refl). exact Hv.
    + apply (Hstep eq_refl).
  - intros st. unfold timer_valid, resetTimer, startBreak, endBreak. simpl.
    destruct (_ && _); simpl; repeat split; unfold CONFIG.TIMER.LONG_BREAK_MINUTES,
      CONFIG.TIMER.BREAK_MINUTES, CONFIG.TIMER.DEFAULT_MINUTES,
      CONFIG.TIMER.DEFAULT_SECONDS; lia.
  - intros st Hv. unfold timer_valid, onIncreaseTime, onDecreaseTime in *. simpl.
    destruct (isTimerRunning st); simpl;
      [| destruct (_ <=? _)%Z; simpl]; repeat split; lia.
Qed.

(** ** The displayed time *)

Lemma string_length_append (s t : string) :
  String.length (String.append s t) = (String.length s + String.length t)%nat.
Proof. induction s as [| c s IH]; simpl; [reflexivity | rewrite IH; reflexivity]. Qed.

(** Two texts with tails of the same length are equal only piecewise. *)
Lemma string_append_inj (s s' t t' : string) :
  String.length t = String.length t' ->
  String.append s t = String.append s' t' -> s = s' /\ t = t'.
Proof.
  revert s'. induction s as [| c s IH]; intros [| c' s'] Hlen Heq; simpl in *.
  - split; [reflexivity | exact Heq].
  - apply (f_equal String.length) in Heq.
    rewrite !string_length_append in Heq. simpl in Heq. lia.
  - apply (f_equal String.length) in Heq.
    rewrite !string_length_append in Heq. simpl in Heq. lia.
  - injection Heq as -> Heq. destruct (IH s' Hlen Heq) as [-> ->]. split; reflexivity.
Qed.

Lemma pretty_N_char_zero (d : N) :
  (d < 10)%N -> pretty_N_char d = pretty_N_char 0 -> d = 0%N.
Proof.
  intros Hd. destruct d as [| p]; [reflexivity |].
  do 4 (destruct p as [p | p |]; try (vm_compute; discriminate); try lia).
Qed.

(** The decimal text of a positive number starts with a digit other than 0. *)
Lemma pretty_N_go_head (x : N) : forall s,
  (0 < x)%N ->
  exists c rest, pretty_N_go x s = String c rest /\ c <> pretty_N_char 0.
Proof.
  induction (N.lt_wf_0 x) as [x _ IH]. intros s Hx.
  rewrite pretty_N_go_step by exact Hx.
  destruct (N.eq_dec (x / 10) 0) as [H0 | H0].
  - rewrite H0, pretty_N_go_0. eexists _, _. split; [reflexivity |].
    assert (Hlt : (x < 10)%N) by (apply N.div_small_iff in H0; lia).
    rewrite N.mod_small by exact Hlt.
    intros Hc. apply pretty_N_char_zero in Hc; lia.
  - apply IH; [apply N.div_lt; lia | apply N.neq_0_lt_0; exact H0].
Qed.

Lemma pretty_Z_head (x : Z) :
  0 <= x ->
  exists c rest, pretty x = String c rest /\ (c = pretty_N_char 0 -> x = 0 /\ rest = EmptyString).
Proof.
  intros Hx. destruct x as [| p | p]; [| | lia].
  - eexists _, _. split; [reflexivity |]. intros _. split; reflexivity.
  - destruct (pretty_N_go_head (N.pos p) EmptyString) as (c & rest & Hgo & Hc); [lia |].
    exists c, rest. split; [exact Hgo |]. intros Hc'. contradiction.
Qed.

(** Padding to two places loses nothing. *)
Lemma padStart_pretty_inj (x y : Z) :
  0 <= x -> 0 <= y ->
  padStart 2 "0" (pretty x) = padStart 2 "0" (pretty y) -> x = y.
Proof.
  intros Hx Hy.
  destruct (pretty_Z_head x Hx) as (c & r & Ex & Hcx).
  destruct (pretty_Z_head y Hy) as (d & q & Ey & Hcy).
  unfold padStart. rewrite Ex, Ey.
  destruct r as [| c2 r]; destruct q as [| d2 q]; simpl; intros Heq.
  - injection Heq as Hcd. apply (inj pretty). rewrite Ex, Ey, Hcd. reflexivity.
  - injection Heq as Hd _. destruct (Hcy (eq_sym Hd)) as [_ Hq]. discriminate Hq.
  - injection Heq as Hc _. destruct (Hcx Hc) as [_ Hr]. discriminate Hr.
  - apply (inj pretty). rewrite Ex, Ey. exact Heq.
Qed.

Lemma padStart_seconds_length (x : Z) :
  0 <= x <= 59 -> String.length (padStart 2 "0" (pretty x)) = 2%nat.
Proof.
  intros Hx. rewrite <- (Z2Nat.id x) by lia.
  assert (Hn : (Z.to_nat x < 60)%nat) by lia. revert Hn. generalize (Z.to_nat x) as n.
  intros n. do 60 (destruct n as [| n]; [intros _; vm_compute; reflexivity |]). lia.
Qed.

Lemma padStart_length (n : nat) (s : string) :
  (n <= String.length (padStart n "0" s))%nat.
Proof.
  unfold padStart. rewrite string_length_append.
  assert (H : forall k, String.length (repeat_string "0" k) = k).
  { induction k as [| k IH]; cbn [repeat_string];
      [reflexivity | rewrite string_length_append, IH; reflexivity]. }
  rewrite H. lia.
Qed.

Lemma formatTimer_inj st st' :
  timer_valid st -> timer_valid st' -> formatTimer st = formatTimer st' ->
  timerMinutes st = timerMinutes st' /\ timerSeconds st = timerSeconds st'.
Proof.
  intros [Hm Hs] [Hm' Hs'] Heq. unfold formatTimer in Heq. cbv zeta in Heq.
  apply string_append_inj in Heq.
  - destruct Heq as [Hmins Hsecs]. injection Hsecs as Hsecs. split.
    + apply padStart_pretty_inj; assumption.
    + apply padStart_pretty_inj; [lia | lia | assumption].
  - rewrite !string_length_append, !padStart_seconds_length by assumption. reflexivity.
Qed.

(** X17: the displayed time.  On a valid timer, [formatTimer()] is the
    minutes on two or more places, a colon, and the seconds on exactly two
    places; and two valid timers show the same text only when they hold
    the same minutes and seconds. *)
Theorem formatTimer_shows_the_time st :
  timer_valid st ->
  (exists mins secs,
     formatTimer st = String.append mins (String.append ":" secs) /\
     (2 <= String.length mins)%nat /\ String.length secs = 2%nat) /\
  (forall st', timer_valid st' -> formatTimer st = formatTimer st' ->
     timerMinutes st = timerMinutes st' /\ timerSeconds st = timerSeconds st').
Proof.
  intros Hv. split.
  - eexists _, _. split; [reflexivity |]. split.
    + apply padStart_length.
    + apply padStart_seconds_length, Hv.
  - intros st' Hv' Heq. apply formatTimer_inj; assumption.
Qed.

Lemma formatTimer_shows_the_time_witness :
  timer_valid initial /\ formatTimer initial = "25:00" /\
  (forall st', timer_valid st' -> formatTimer initial = formatTimer st' ->
     timerMinutes initial = timerMinutes st' /\ timerSeconds initial = timerSeconds st').
Proof.
  assert (H : timer_valid initial) by (unfold timer_valid; cbv; intuition discriminate).
  split; [exact H |]. split; [vm_compute; reflexivity |].
  apply (formatTimer_shows_the_time initial H).
Defined.

(** X18: the time buttons.  While the timer is stopped and valid, the
    plus button adds five minutes and the minus button undoes it; the minus
    button takes five minutes off when at least five are shown, clamping
    nothing then, and does nothing below five; so pressing minus and then
    plus restores the time exactly from five minutes up.  While the timer
    runs, neither button changes anything. *)
Theorem time_buttons_round_trip st :
  timer_valid st ->
  (isTimerRunning st = true -> onIncreaseTime st = st /\ onDecreaseTime st = st) /\
  (isTimerRunning st = false ->
     onDecreaseTime (onIncreaseTime st) = st /\
     timerMinutes (onIncreaseTime st) = timerMinutes st + 5 /\
     timerSeconds (onIncreaseTime st) = timerSeconds st /\
     timerSeconds (onDecreaseTime st) = timerSeconds st /\
     (5 <= timerMinutes st ->
        timerMinutes (onDecreaseTime st) = timerMinutes st - 5 /\
        onIncreaseTime (onDecreaseTime st) = st) /\
     (timerMinutes st < 5 -> onDecreaseTime st = st)).
Proof.
  intros [Hm Hs]. unfold onIncreaseTime, onDecreaseTime, setTimerValues, set_time.
  unfold CONFIG.TIMER.TIME_ADJUSTMENT_STEP, CONFIG.TIMER.MIN_TIMER_MINUTES.
  destruct st as [m s i r b c]. simpl in *. split.
  - intros ->. split; reflexivity.
  - intros ->. simpl.
    assert (Es : Z.max 0 (Z.min 59 s) = s) by lia.
    assert (Ei : Z.max 0 (m + 5) = m + 5) by lia.
    assert (Eb : Z.max 0 (m + 5 - 5) = m) by lia.
    rewrite Ei. destruct (Z.leb_spec 5 (m + 5)) as [_ | H5]; [| lia]. simpl.
    rewrite ?Eb, ?Es, ?Es.
    split; [reflexivity |]. split; [reflexivity |]. split; [reflexivity |].
    split; [destruct (5 <=? m)%Z; reflexivity |]. split.
    + intros H. destruct (Z.leb_spec 5 m) as [_ | ?]; [| lia]. simpl.
      rewrite ?Es.
      replace (Z.max 0 (m - 5)) with (m - 5) by lia.
      replace (Z.max 0 (m - 5 + 5)) with m by lia.
      split; [reflexivity |]. rewrite ?Es. reflexivity.
    + intros H. destruct (Z.leb_spec 5 m) as [? | _]; [lia |]. reflexivity.
Qed.

Lemma time_buttons_round_trip_witness :
  timer_valid initial /\
  onDecreaseTime (onIncreaseTime initial) = initial /\
  timerMinutes (onIncreaseTime initial) = 30.
Proof.
  assert (H : timer_valid initial) by (unfold timer_valid; cbv; intuition discriminate).
  destruct (time_buttons_round_trip initial H) as [_ Hstop].
  destruct (Hstop eq_refl) as (Hrt & Hinc & _).
  split; [exact H |]. split; [exact Hrt | exact Hinc].
Defined.

(** ** The page *)

Lemma filter_out_only (h : nat) : filter (fun x => x <> h) [h] = [].
Proof. rewrite filter_cons_False by (intros H; apply H; reflexivity). reflexivity. Qed.

Ltac page_simpl := cbn -[formatTimer Z.rem Z.add Z.sub Z.mul Z.max Z.min getAllProfiles filter].

Ltac page_cases :=
  repeat match goal with
         | |- context [(?h =? 0)%nat] => destruct (Nat.eqb_spec h 0); [congruence |]
         | |- context [filter _ [?h]] => rewrite (filter_out_only h)
         | |- context [(?a =? ?b)%Z] => destruct (Z.eqb_spec a b)
         | |- context [(?a <=? ?b)%Z] => destruct (Z.leb_spec a b)
         | |- context [(?a <? ?b)%Z] => destruct (Z.ltb_spec a b)
         | |- context [getAllProfiles !! ?i] => destruct (getAllProfiles !! i)
         end;
  page_simpl.

Lemma handle_invariant ev p :
  page_invariant p -> enabled ev p = true -> page_invariant (handle ev p).
Proof.
  destruct p as [[m s i r b c] ints disp sb stb tb pk sv].
  unfold page_invariant, timer_valid. cbn -[formatTimer].
  intros ((Hm & Hs) & Hint & Hdisp & Hc & Hbreak & Hrun) Hen.
  destruct i as [h |]; destruct Hint as (-> & Hint); [destruct Hint as (Hh & ->) | subst r].
  all: destruct ev; cbn -[formatTimer Z.rem Z.add Z.sub Z.mul Z.max Z.min getAllProfiles filter] in *.
  all: unfold startBtn_click, stopBtn_click, increaseTimeBtn_click, decreaseTimeBtn_click,
         presetBtn_click, selectProfileByIndex, timerControls.tick, timerControls.startTimer,
         timerControls.pauseTimer, timerControls.stopTimer, timerControls.finishSession,
         clearTimerInterval, clearInterval, setInterval, updateTimeButtonsState,
         updateTimerDisplay, decrementTimer, js_rem,
         CONFIG.TIMER.SESSIONS_BEFORE_LONG_BREAK, CONFIG.TIMER.LONG_BREAK_MINUTES,
         CONFIG.TIMER.BREAK_MINUTES, CONFIG.TIMER.DEFAULT_MINUTES, CONFIG.TIMER.DEFAULT_SECONDS,
         CONFIG.TIMER.TIME_ADJUSTMENT_STEP, CONFIG.TIMER.MIN_TIMER_MINUTES;
       page_simpl.
  all: try (destruct b; page_simpl).
  all: page_cases.
  all: try (destruct b; page_simpl).
  all: page_cases.
  all: repeat match goal with
              | |- _ /\ _ => split
              | |- _ -> _ => intro
              end; try reflexivity; try assumption; try discriminate; try lia.
  all: try (apply Hrun; reflexivity).
  all: apply andb_prop in Hen as [Hen _]; apply negb_true_iff, Nat.eqb_neq in Hen; exact Hen.
Qed.

Lemma page_run_invariant evs : forall p p',
  page_invariant p -> page_run evs p = Some p' -> page_invariant p'.
Proof.
  induction evs as [| ev evs IH]; intros p p' Hinv Hrun; simpl in Hrun.
  - injection Hrun as <-. exact Hinv.
  - destruct (enabled ev p) eqn:Hen; [| discriminate].
    apply (IH _ _ (handle_invariant ev p Hinv Hen) Hrun).
Qed.

Lemma initial_page_invariant : page_invariant initial_page.
Proof.
  unfold page_invariant, timer_valid. cbn -[formatTimer].
  repeat split; try reflexivity; try discriminate;
    unfold CONFIG.TIMER.DEFAULT_MINUTES, CONFIG.TIMER.DEFAULT_SECONDS; lia.
Qed.

Lemma page_reachable_invariant p : page_reachable p -> page_invariant p.
Proof. intros [evs Hrun]. exact (page_run_invariant evs _ _ initial_page_invariant Hrun). Qed.


Ltac page_unfold :=
  unfold handle, startBtn_click, stopBtn_click, increaseTimeBtn_click, decreaseTimeBtn_click,
    presetBtn_click, selectProfileByIndex, timerControls.tick, timerControls.startTimer,
    timerControls.pauseTimer, timerControls.stopTimer, timerControls.finishSession,
    clearTimerInterval, clearInterval, setInterval, updateTimeButtonsState,
    updateTimerDisplay, decrementTimer, js_rem,
    CONFIG.TIMER.SESSIONS_BEFORE_LONG_BREAK, CONFIG.TIMER.LONG_BREAK_MINUTES,
    CONFIG.TIMER.BREAK_MINUTES, CONFIG.TIMER.DEFAULT_MINUTES, CONFIG.TIMER.DEFAULT_SECONDS,
    CONFIG.TIMER.TIME_ADJUSTMENT_STEP, CONFIG.TIMER.MIN_TIMER_MINUTES.

Lemma enabled_Tick p h :
  page_invariant p -> enabled (Tick h) p = true ->
  timerInterval (timer p) = Some h /\ intervals p = [h] /\ h <> 0%nat /\
  isTimerRunning (timer p) = true.
Proof.
  intros (_ & Hint & _) Hen. simpl in Hen. apply bool_decide_eq_true in Hen.
  destruct (timerInterval (timer p)) as [h' |].
  - destruct Hint as (Hl & Hh & Hr). rewrite Hl in Hen. apply list_elem_of_singleton in Hen.
    subst h'. auto.
  - destruct Hint as (Hl & _). rewrite Hl in Hen. apply elem_of_nil in Hen. contradiction.
Qed.

(** X19: one countdown at a time.  In every state the page can reach,
    the browser holds an interval for the page exactly while the timer
    runs, it holds only one, and that one is the handle stored in
    [timerInterval]; so the countdown callback can run only while the timer
    runs.  And whenever the time buttons are enabled the timer is not
    running. *)
Theorem one_countdown_at_a_time p :
  page_reachable p ->
  (isTimerRunning (timer p) = true <-> exists h, intervals p = [h]) /\
  (isTimerRunning (timer p) = false <-> intervals p = []) /\
  (forall h, h ∈ intervals p -> timerInterval (timer p) = Some h /\ h <> 0%nat) /\
  (intervals p = [] -> timerInterval (timer p) = None) /\
  (forall h, enabled (Tick h) p = true -> isTimerRunning (timer p) = true) /\
  (timeBtns_disabled p = false -> isTimerRunning (timer p) = false).
Proof.
  intros Hreach. pose proof (page_reachable_invariant p Hreach) as Hinv.
  pose proof Hinv as (_ & Hint & _ & _ & _ & Hrun).
  split; [| split; [| split; [| split; [| split]]]].
  - destruct (timerInterval (timer p)) as [h |].
    + destruct Hint as (-> & _ & ->). split; eauto.
    + destruct Hint as (-> & ->). split; [discriminate | intros [h Hh]; discriminate Hh].
  - destruct (timerInterval (timer p)) as [h |].
    + destruct Hint as (-> & _ & ->). split; discriminate.
    + destruct Hint as (-> & ->). split; reflexivity.
  - intros h Hh. destruct (timerInterval (timer p)) as [h' |].
    + destruct Hint as (Hl & Hz & _). rewrite Hl in Hh. apply list_elem_of_singleton in Hh.
      subst h'. auto.
    + destruct Hint as (Hl & _). rewrite Hl in Hh. apply elem_of_nil in Hh. contradiction.
  - intros Hnil. destruct (timerInterval (timer p)) as [h |]; [| reflexivity].
    destruct Hint as (Hl & _). rewrite Hl in Hnil. discriminate.
  - intros h Hen. apply (enabled_Tick p h Hinv Hen).
  - intros Hoff. destruct (isTimerRunning (timer p)); [| reflexivity].
    destruct (Hrun eq_refl) as (_ & _ & Hon). congruence.
Qed.

Lemma one_countdown_at_a_time_witness :
  page_reachable (handle (Tick 7) (handle (ClickStart 7) initial_page)) /\
  intervals (handle (Tick 7) (handle (ClickStart 7) initial_page)) = [7%nat] /\
  isTimerRunning (timer (handle (Tick 7) (handle (ClickStart 7) initial_page))) = true.
Proof.
  assert (H : page_reachable (handle (Tick 7) (handle (ClickStart 7) initial_page)))
    by (exists [ClickStart 7; Tick 7]; reflexivity).
  split; [exact H |]. split; [reflexivity |].
  apply (one_countdown_at_a_time _ H). exists 7%nat. reflexivity.
Defined.

(** X20: the display is never stale.  In every state the page can
    reach the timer is valid and the timer display shows the formatted
    time of the timer as it is now; so two reachable states showing the
    same text hold the same minutes and seconds. *)
Theorem display_is_never_stale p :
  page_reachable p ->
  timer_valid (timer p) /\
  timerDisplay p = formatTimer (timer p) /\
  (forall p', page_reachable p' -> timerDisplay p' = timerDisplay p ->
     timerMinutes (timer p') = timerMinutes (timer p) /\
     timerSeconds (timer p') = timerSeconds (timer p)).
Proof.
  intros Hreach. destruct (page_reachable_invariant p Hreach) as (Hv & _ & Hd & _).
  split; [exact Hv |]. split; [exact Hd |].
  intros p' Hreach' Heq.
  destruct (page_reachable_invariant p' Hreach') as (Hv' & _ & Hd' & _).
  apply formatTimer_inj; [exact Hv' | exact Hv | congruence].
Qed.

Lemma display_is_never_stale_witness :
  page_reachable (handle ClickIncrease initial_page) /\
  timerDisplay (handle ClickIncrease initial_page) = "30:00".
Proof.
  assert (H : page_reachable (handle ClickIncrease initial_page))
    by (exists [ClickIncrease]; reflexivity).
  split; [exact H |].
  destruct (display_is_never_stale _ H) as (_ & -> & _). vm_compute. reflexivity.
Defined.

Lemma tick_at_zero p h :
  page_invariant p -> enabled (Tick h) p = true -> remaining (timer p) = 0 ->
  let p' := handle (Tick h) p in
  let c := completedSessions (timer p) in
  let profile := name (picker_currentProfile p) in
  isTimerRunning (timer p') = false /\ intervals p' = [] /\
  timerInterval (timer p') = None /\ timerSeconds (timer p') = 0 /\
  startBtn_textContent p' = Some "PAUSE" /\ timeBtns_disabled p' = true /\
  stopBtn_disabled p' = Some false /\
  (isBreakMode (timer p) = false ->
     isBreakMode (timer p') = true /\ completedSessions (timer p') = c + 1 /\
     timerMinutes (timer p') = (if ((c + 1) mod 4 =? 0)%Z then 15 else 5) /\
     sessions_saved p' = ("work", 25, profile) :: sessions_saved p) /\
  (isBreakMode (timer p) = true ->
     isBreakMode (timer p') = false /\ completedSessions (timer p') = c /\
     timerMinutes (timer p') = 25 /\ 1 <= c /\
     sessions_saved p' = ("break", break_minutes c, profile) :: sessions_saved p /\
     break_minutes c = timerMinutes (startBreak (timer p)) /\
     break_minutes c = (if (c mod 4 =? 0)%Z then 15 else 5)).
Proof.
  intros Hinv Hen Hrem.
  destruct (enabled_Tick p h Hinv Hen) as (Hi & Hl & Hh & Hr).
  destruct Hinv as ((Hm & Hs) & _ & _ & Hc & Hbreak & Hrun).
  destruct (Hrun Hr) as (Hsb & Hstb & Htb).
  destruct p as [[m s i r b c] ints disp sb stb tb pk sv].
  unfold remaining, break_minutes in *. cbn -[formatTimer] in *. subst i ints r sb stb tb.
  assert (m = 0) by lia. assert (s = 0) by lia. subst m s.
  page_unfold. page_simpl.
  destruct (Nat.eqb_spec h 0) as [? | _]; [contradiction |].
  rewrite filter_out_only.
  destruct b; page_simpl.
  - specialize (Hbreak eq_refl).
    repeat split; try reflexivity; try discriminate; try lia.
    + rewrite Z.rem_mod_nonneg by lia.
      destruct (Z.ltb_spec 0 c); [| lia]. rewrite andb_true_r. reflexivity.
    + rewrite Z.rem_mod_nonneg by lia. reflexivity.
  - repeat split; try reflexivity; try discriminate.
    unfold js_rem, CONFIG.TIMER.SESSIONS_BEFORE_LONG_BREAK, CONFIG.TIMER.LONG_BREAK_MINUTES,
      CONFIG.TIMER.BREAK_MINUTES.
    rewrite Z.rem_mod_nonneg by lia.
    destruct (Z.ltb_spec 0 (c + 1)); [| lia]. rewrite andb_true_r. reflexivity.
Qed.


(** X21: the end of a session.  When the countdown callback runs with
    the timer at 0:00 it stops the timer and clears the interval.  After a
    work session it counts the session, enters break mode with 15 minutes
    when the new count is a multiple of 4 and 5 minutes otherwise, and has
    recorded a work session of 25 minutes, whatever length was counted
    down.  After a break it returns to work mode at 25:00 and has recorded
    a break of the length [startBreak] gives for the count, which is at
    least 1.  In both cases the start button still reads PAUSE and the
    time buttons stay disabled: nothing uses what [finishSession]
    returns. *)
Theorem session_end_bookkeeping p h :
  page_reachable p -> enabled (Tick h) p = true -> remaining (timer p) = 0 ->
  let p' := handle (Tick h) p in
  let c := completedSessions (timer p) in
  let profile := name (picker_currentProfile p) in
  isTimerRunning (timer p') = false /\ intervals p' = [] /\
  timerInterval (timer p') = None /\ timerSeconds (timer p') = 0 /\
  startBtn_textContent p' = Some "PAUSE" /\ timeBtns_disabled p' = true /\
  stopBtn_disabled p' = Some false /\
  (isBreakMode (timer p) = false ->
     isBreakMode (timer p') = true /\ completedSessions (timer p') = c + 1 /\
     timerMinutes (timer p') = (if ((c + 1) mod 4 =? 0)%Z then 15 else 5) /\
     sessions_saved p' = ("work", 25, profile) :: sessions_saved p) /\
  (isBreakMode (timer p) = true ->
     isBreakMode (timer p') = false /\ completedSessions (timer p') = c /\
     timerMinutes (timer p') = 25 /\ 1 <= c /\
     sessions_saved p' = ("break", break_minutes c, profile) :: sessions_saved p /\
     break_minutes c = timerMinutes (startBreak (timer p)) /\
     break_minutes c = (if (c mod 4 =? 0)%Z then 15 else 5)).
Proof. intros Hreach. apply tick_at_zero, page_reachable_invariant, Hreach. Qed.

Lemma session_end_bookkeeping_witness :
  page_reachable (handle (ClickStart 3) (handle (ClickPreset 0) initial_page)) /\
  sessions_saved (handle (Tick 3) (handle (ClickStart 3) (handle (ClickPreset 0) initial_page)))
  = [("work", 25, name SCIENCE_FOCUS)] /\
  startBtn_textContent
    (handle (Tick 3) (handle (ClickStart 3) (handle (ClickPreset 0) initial_page)))
  = Some "PAUSE".
Proof.
  assert (H : page_reachable (handle (ClickStart 3) (handle (ClickPreset 0) initial_page)))
    by (exists [ClickPreset 0; ClickStart 3]; reflexivity).
  split; [exact H |].
  destruct (session_end_bookkeeping _ 3%nat H eq_refl eq_refl)
    as (_ & _ & _ & _ & Hsb & _ & _ & Hwork & _).
  destruct (Hwork eq_refl) as (_ & _ & _ & Hsaved).
  split; [exact Hsaved | exact Hsb].
Defined.

(** X22: the stop button.  From every state the page can reach, a click
    on the stop button leaves the timer module as it was when the page
    loaded (25:00, not running, no interval, work mode, no completed
    session), no interval with the browser, 25:00 on the display, START on
    the start button, the stop button disabled and the time buttons
    enabled; the recorded sessions and the picked profile stay. *)
Theorem stop_click_resets p :
  page_reachable p ->
  let p' := handle ClickStop p in
  timer p' = initial /\ intervals p' = [] /\ timerDisplay p' = "25:00" /\
  startBtn_textContent p' = Some "START" /\ stopBtn_disabled p' = Some true /\
  timeBtns_disabled p' = false /\
  sessions_saved p' = sessions_saved p /\
  picker_currentProfile p' = picker_currentProfile p.
Proof.
  intros Hreach. destruct (page_reachable_invariant p Hreach) as (_ & Hint & _).
  destruct p as [[m s i r b c] ints disp sb stb tb pk sv]. cbn -[formatTimer] in *.
  destruct i as [h |]; destruct Hint as (-> & Hint); [destruct Hint as (Hh & ->) | subst r].
  all: page_unfold; page_simpl.
  all: try (destruct (Nat.eqb_spec h 0) as [? | _]; [contradiction |]; rewrite filter_out_only).
  all: destruct b; page_simpl; repeat split; reflexivity.
Qed.

Lemma stop_click_resets_witness :
  page_reachable (handle (Tick 2) (handle (ClickStart 2) initial_page)) /\
  timer (handle ClickStop (handle (Tick 2) (handle (ClickStart 2) initial_page))) = initial.
Proof.
  assert (H : page_reachable (handle (Tick 2) (handle (ClickStart 2) initial_page)))
    by (exists [ClickStart 2; Tick 2]; reflexivity).
  split; [exact H |]. apply (stop_click_resets _ H).
Defined.

Lemma page_run_app evs evs' p :
  page_run (evs ++ evs') p =
  match page_run evs p with Some p' => page_run evs' p' | None => None end.
Proof.
  revert p. induction evs as [| ev evs IH]; intros p; simpl; [reflexivity |].
  destruct (enabled ev p); [apply IH | reflexivity].
Qed.

Lemma repeat_snoc {A} (x : A) (n : nat) : repeat x (S n) = repeat x n ++ [x].
Proof. induction n as [| n IH]; simpl in *; [reflexivity | rewrite <- IH; reflexivity]. Qed.

(** The countdown callback, run [k] times on a running timer with at
    least [k] seconds left. *)
Lemma ticks_run k : forall p h,
  page_invariant p -> timerInterval (timer p) = Some h ->
  Z.of_nat k <= remaining (timer p) ->
  exists p',
    page_run (repeat (Tick h) k) p = Some p' /\
    countdown k (timer p) = Some (timer p') /\
    page_invariant p' /\
    intervals p' = intervals p /\ sessions_saved p' = sessions_saved p /\
    picker_currentProfile p' = picker_currentProfile p.
Proof.
  induction k as [| k IH]; intros p h Hinv Hi Hk.
  - exists p. simpl. split; [reflexivity |]. split; [reflexivity |]. split; [exact Hinv |]. auto.
  - assert (Hen : enabled (Tick h) p = true).
    { destruct Hinv as (_ & Hint & _). rewrite Hi in Hint. destruct Hint as (Hl & _).
      simpl. rewrite Hl. apply bool_decide_eq_true, list_elem_of_here. }
    pose proof (handle_invariant (Tick h) p Hinv Hen) as Hinv1.
    pose proof Hinv as (Hv & _).
    destruct (decrementTimer_valid (timer p) Hv) as (Hdone & _ & Hstep & Hi1 & _).
    cbn [repeat page_run countdown]. rewrite Hen.
    cbn [handle] in *. unfold timerControls.tick in *.
    destruct (decrementTimer (timer p)) as [[] st1] eqn:Hd; simpl in Hdone, Hstep, Hi1.
    + assert (remaining (timer p) = 0) by (apply Hdone; reflexivity). lia.
    + destruct (Hstep eq_refl) as [_ Hrem1].
      destruct (IH (updateTimerDisplay (with_timer (fun _ => st1) p)) h Hinv1)
        as (p' & Hrun & Hcd & Hinv' & Hl' & Hs' & Hp').
      * simpl. congruence.
      * simpl. lia.
      * exists p'. simpl in Hcd. split; [exact Hrun |]. split; [exact Hcd |].
        split; [exact Hinv' |]. auto.
Qed.

Lemma click_start_run p h :
  page_invariant p -> isTimerRunning (timer p) = false ->
  let p1 := handle (ClickStart h) p in
  timerInterval (timer p1) = Some h /\
  timerMinutes (timer p1) = timerMinutes (timer p) /\
  timerSeconds (timer p1) = timerSeconds (timer p) /\
  isBreakMode (timer p1) = isBreakMode (timer p) /\
  completedSessions (timer p1) = completedSessions (timer p) /\
  sessions_saved p1 = sessions_saved p /\
  picker_currentProfile p1 = picker_currentProfile p.
Proof.
  intros (_ & Hint & _) Hr.
  destruct p as [[m s i r b c] ints disp sb stb tb pk sv]. cbn -[formatTimer] in *. subst r.
  page_unfold. page_simpl. repeat split; reflexivity.
Qed.

(** X23: a started timer runs to its end.  From a reachable state in
    which the timer does not run and shows [m:s], a click on the start
    button followed by [k] runs of the countdown callback, for [k] up to
    [60 m + s], leaves the timer running with [k] seconds less and records
    nothing; the next run ends the session: the timer stops, the interval
    is cleared, the mode flips between work and break, and one session is
    recorded; after it the callback cannot run again. *)
Theorem started_timer_runs_to_the_end p h :
  page_reachable p -> isTimerRunning (timer p) = false -> enabled (ClickStart h) p = true ->
  let n := Z.to_nat (remaining (timer p)) in
  (forall k, (k <= n)%nat ->
     exists p', page_run (ClickStart h :: repeat (Tick h) k) p = Some p' /\
       isTimerRunning (timer p') = true /\ intervals p' = [h] /\
       remaining (timer p') = remaining (timer p) - Z.of_nat k /\
       isBreakMode (timer p') = isBreakMode (timer p) /\
       completedSessions (timer p') = completedSessions (timer p) /\
       sessions_saved p' = sessions_saved p) /\
  (exists p', page_run (ClickStart h :: repeat (Tick h) (S n)) p = Some p' /\
       isTimerRunning (timer p') = false /\ intervals p' = [] /\
       isBreakMode (timer p') = negb (isBreakMode (timer p)) /\
       length (sessions_saved p') = S (length (sessions_saved p))) /\
  page_run (ClickStart h :: repeat (Tick h) (S (S n))) p = None.
Proof.
  intros Hreach Hr Hen n.
  pose proof (page_reachable_invariant p Hreach) as Hinv.
  pose proof (handle_invariant (ClickStart h) p Hinv Hen) as Hinv1.
  destruct (click_start_run p h Hinv Hr) as (Hi1 & Hm1 & Hs1 & Hb1 & Hc1 & Hsv1 & Hpk1).
  set (p1 := handle (ClickStart h) p) in *.
  assert (Hrem1 : remaining (timer p1) = remaining (timer p))
    by (unfold remaining; rewrite Hm1, Hs1; reflexivity).
  assert (Hpos : 0 <= remaining (timer p))
    by (destruct Hinv as ((? & ?) & _); unfold remaining; lia).
  assert (Hsteps : forall k, (k <= n)%nat ->
     exists p', page_run (repeat (Tick h) k) p1 = Some p' /\ page_invariant p' /\
       timerInterval (timer p') = Some h /\
       isTimerRunning (timer p') = true /\ intervals p' = [h] /\
       remaining (timer p') = remaining (timer p) - Z.of_nat k /\
       isBreakMode (timer p') = isBreakMode (timer p) /\
       completedSessions (timer p') = completedSessions (timer p) /\
       sessions_saved p' = sessions_saved p /\
       picker_currentProfile p' = picker_currentProfile p).
  { intros k Hk.
    destruct (ticks_run k p1 h Hinv1 Hi1) as (p' & Hrun & Hcd & Hinv' & Hl' & Hs' & Hp');
      [rewrite Hrem1; lia |].
    pose proof Hinv1 as (Hv1 & _).
    destruct (countdown_steps k (timer p1) Hv1) as (st' & Hcd' & _ & Hrem' & Hi' & Hr' & Hb' & Hc');
      [rewrite Hrem1; lia |].
    rewrite Hcd in Hcd'. injection Hcd' as <-.
    pose proof Hinv' as (_ & Hint' & _). rewrite Hi', Hi1 in Hint'.
    destruct Hint' as (Hl & _ & Hrun').
    exists p'. split; [exact Hrun |]. split; [exact Hinv' |].
    repeat split; try assumption; try congruence; lia. }
  split; [| split].
  - intros k Hk. destruct (Hsteps k Hk) as (p' & Hrun & _ & _ & Hr' & Hl' & Hrem' & Hb' & Hc' & Hs' & _).
    exists p'. cbn [page_run]. rewrite Hen. fold p1. auto 10.
  - destruct (Hsteps n (le_n n)) as (p' & Hrun & Hinv' & Hi' & Hr' & Hl' & Hrem' & Hb' & Hc' & Hs' & _).
    assert (Hen' : enabled (Tick h) p' = true)
      by (simpl; rewrite Hl'; apply bool_decide_eq_true, list_elem_of_here).
    assert (H0 : remaining (timer p') = 0) by (subst n; lia).
    pose proof (tick_at_zero p' h Hinv' Hen' H0) as Hend. cbv zeta in Hend.
    destruct Hend as (Hr2 & Hl2 & _ & _ & _ & _ & _ & Hwork & Hbreak).
    exists (handle (Tick h) p'). split; [| split; [exact Hr2 | split; [exact Hl2 |]]].
    + cbn [page_run]. rewrite Hen. fold p1. rewrite repeat_snoc, page_run_app, Hrun.
      cbn [page_run]. rewrite Hen'. reflexivity.
    + rewrite <- Hb', <- Hs'. destruct (isBreakMode (timer p')).
      * destruct (Hbreak eq_refl) as (-> & _ & _ & _ & -> & _). split; reflexivity.
      * destruct (Hwork eq_refl) as (-> & _ & _ & ->). split; reflexivity.
  - destruct (Hsteps n (le_n n)) as (p' & Hrun & Hinv' & Hi' & Hr' & Hl' & Hrem' & _).
    assert (Hen' : enabled (Tick h) p' = true)
      by (simpl; rewrite Hl'; apply bool_decide_eq_true, list_elem_of_here).
    assert (H0 : remaining (timer p') = 0) by (subst n; lia).
    pose proof (tick_at_zero p' h Hinv' Hen' H0) as Hend. cbv zeta in Hend.
    destruct Hend as (_ & Hl2 & _).
    cbn [page_run]. rewrite Hen. fold p1.
    rewrite (repeat_snoc _ (S n)), page_run_app, (repeat_snoc _ n), page_run_app, Hrun.
    cbn [page_run]. rewrite Hen'. cbn [page_run enabled]. rewrite Hl2. reflexivity.
Qed.

Lemma started_timer_runs_to_the_end_witness :
  page_reachable (handle (ClickPreset 1) initial_page) /\
  page_run (ClickStart 4 :: repeat (Tick 4) 62) (handle (ClickPreset 1) initial_page) = None.
Proof.
  assert (H : page_reachable (handle (ClickPreset 1) initial_page))
    by (exists [ClickPreset 1]; reflexivity).
  split; [exact H |].
  apply (started_timer_runs_to_the_end _ 4%nat H eq_refl eq_refl).
Defined.

(** The time buttons change the timer module as [onIncreaseTime] and
    [onDecreaseTime] say. *)
Lemma time_buttons_on_the_page p :
  timer (handle ClickIncrease p) = onIncreaseTime (timer p) /\
  timer (handle ClickDecrease p) = onDecreaseTime (timer p).
Proof.
  destruct p as [[m s i r b c] ints disp sb stb tb pk sv].
  unfold handle, increaseTimeBtn_click, decreaseTimeBtn_click, onIncreaseTime, onDecreaseTime.
  cbn -[formatTimer Z.add Z.sub Z.max Z.min Z.leb].
  destruct r; [split; reflexivity |]. split; [reflexivity |].
  destruct (_ <=? _)%Z; reflexivity.
Qed.

Lemma clearTimerInterval_record p :
  sessions_saved (clearTimerInterval p) = sessions_saved p /\
  picker_currentProfile (clearTimerInterval p) = picker_currentProfile p.
Proof.
  unfold clearTimerInterval. destruct (timerInterval (timer p)); [destruct (_ =? _)%nat |];
    split; reflexivity.
Qed.

Lemma finishSession_record p :
  picker_currentProfile p ∈ getAllProfiles ->
  picker_currentProfile (snd (timerControls.finishSession p)) = picker_currentProfile p /\
  exists e, nominal_session e /\
            sessions_saved (snd (timerControls.finishSession p)) = e :: sessions_saved p.
Proof.
  intros Hpk. unfold timerControls.finishSession. cbv zeta.
  destruct (clearTimerInterval_record (with_timer (setTimerRunning false) p)) as [Hs Hp].
  destruct (Snapshot.isBreakMode (getTimerState (timer p))); simpl; rewrite Hs, Hp; simpl.
  - split; [reflexivity |]. eexists. split; [| reflexivity]. split.
    + right. split; [reflexivity |]. simpl. destruct (_ =? _)%Z; [right | left]; reflexivity.
    + exists (picker_currentProfile p). split; [exact Hpk | reflexivity].
  - split; [reflexivity |]. eexists. split; [| reflexivity]. split.
    + left. split; reflexivity.
    + exists (picker_currentProfile p). split; [exact Hpk | reflexivity].
Qed.

(** What an event does to the record of sessions and to the picked
    profile. *)
Lemma handle_sessions ev p :
  picker_currentProfile p ∈ getAllProfiles ->
  picker_currentProfile (handle ev p) ∈ getAllProfiles /\
  (sessions_saved (handle ev p) = sessions_saved p \/
   exists e, nominal_session e /\ sessions_saved (handle ev p) = e :: sessions_saved p).
Proof.
  intros Hpk. destruct ev; cbn [handle].
  - unfold startBtn_click, timerControls.pauseTimer, timerControls.startTimer. cbv zeta.
    destruct (Snapshot.isRunning (getTimerState (timer p))); simpl.
    + destruct (clearTimerInterval_record (with_timer (setTimerRunning false) p)) as [-> ->].
      split; [exact Hpk | left; reflexivity].
    + split; [exact Hpk | left; reflexivity].
  - unfold stopBtn_click, timerControls.stopTimer. cbv zeta.
    destruct (clearTimerInterval_record (with_timer (setTimerRunning false) p)) as [Hs Hp].
    destruct (Snapshot.isBreakMode (getTimerState (timer p))); simpl; rewrite Hs, Hp;
      (split; [exact Hpk | left; reflexivity]).
  - unfold increaseTimeBtn_click. cbv zeta.
    destruct (Snapshot.isRunning (getTimerState (timer p))); simpl;
      (split; [exact Hpk | left; reflexivity]).
  - unfold decreaseTimeBtn_click. cbv zeta.
    destruct (Snapshot.isRunning (getTimerState (timer p))); [| destruct (_ <=? _)%Z]; simpl;
      (split; [exact Hpk | left; reflexivity]).
  - unfold presetBtn_click. cbv zeta.
    destruct (Snapshot.isRunning (getTimerState (timer p))); simpl;
      (split; [exact Hpk | left; reflexivity]).
  - unfold selectProfileByIndex. destruct (getAllProfiles !! index) as [pr |] eqn:Hidx; simpl.
    + split; [apply (list_elem_of_lookup_2 _ _ _ Hidx) | left; reflexivity].
    + split; [exact Hpk | left; reflexivity].
  - unfold timerControls.tick. destruct (decrementTimer (timer p)) as [[] st].
    + destruct (finishSession_record (with_timer (fun _ => st) p) Hpk) as (Hp & e & He & Hs).
      rewrite Hp. split; [exact Hpk | right; exists e; split; [exact He | exact Hs]].
    + simpl. split; [exact Hpk | left; reflexivity].
Qed.

Lemma page_run_sessions evs : forall p p',
  picker_currentProfile p ∈ getAllProfiles -> Forall nominal_session (sessions_saved p) ->
  page_run evs p = Some p' ->
  picker_currentProfile p' ∈ getAllProfiles /\ Forall nominal_session (sessions_saved p').
Proof.
  induction evs as [| ev evs IH]; intros p p' Hpk Hall Hrun; simpl in Hrun.
  - injection Hrun as <-. split; assumption.
  - destruct (enabled ev p); [| discriminate].
    destruct (handle_sessions ev p Hpk) as (Hpk' & [Hsame | (e & He & Hcons)]).
    + apply (IH _ _ Hpk'); [rewrite Hsame; exact Hall | exact Hrun].
    + apply (IH _ _ Hpk'); [rewrite Hcons; constructor; assumption | exact Hrun].
Qed.

(** X24: the record of sessions is nominal.  In every state the page
    can reach, every session recorded is a work session of 25 minutes or a
    break of 5 or 15 minutes, under the name of a profile of the catalog,
    and the picked profile is a profile of the catalog: the lengths set
    with the time buttons and the presets, and the time really counted
    down, are never recorded. *)
Theorem recorded_sessions_are_nominal p :
  page_reachable p ->
  picker_currentProfile p ∈ getAllProfiles /\
  forall e, e ∈ sessions_saved p ->
    (e.1.1 = "work" /\ e.1.2 = 25 \/ e.1.1 = "break" /\ (e.1.2 = 5 \/ e.1.2 = 15)) /\
    exists profile, profile ∈ getAllProfiles /\ e.2 = name profile.
Proof.
  intros [evs Hrun].
  destruct (page_run_sessions evs initial_page p) as (Hpk & Hall);
    [apply list_elem_of_here | constructor | exact Hrun |].
  split; [exact Hpk |]. intros e He.
  rewrite Forall_forall in Hall. exact (Hall e He).
Qed.

Lemma recorded_sessions_are_nominal_witness :
  page_reachable (handle (Tick 3) (handle (ClickStart 3) (handle (ClickPreset 0) initial_page))) /\
  sessions_saved (handle (Tick 3) (handle (ClickStart 3) (handle (ClickPreset 0) initial_page)))
  = [("work", 25, name SCIENCE_FOCUS)] /\
  picker_currentProfile
    (handle (Tick 3) (handle (ClickStart 3) (handle (ClickPreset 0) initial_page)))
  ∈ getAllProfiles.
Proof.
  assert (H : page_reachable
                (handle (Tick 3) (handle (ClickStart 3) (handle (ClickPreset 0) initial_page))))
    by (exists [ClickPreset 0; ClickStart 3; Tick 3]; vm_compute; reflexivity).
  split; [exact H |]. split; [vm_compute; reflexivity |].
  apply (recorded_sessions_are_nominal _ H).
Defined.

(** X25: lookup by id.  [getProfileById] finds every profile of the
    catalog under its own id, so the ids of the catalog are pairwise
    different; what it finds is a profile of the catalog with the id asked
    for; and the default profile is in the catalog. *)
Theorem getProfileById_round_trip :
  (forall p, p ∈ getAllProfiles -> getProfileById (id p) = Some p) /\
  (forall p q, p ∈ getAllProfiles -> q ∈ getAllProfiles -> id p = id q -> p = q) /\
  (forall i p, getProfileById i = Some p -> p ∈ getAllProfiles /\ id p = i) /\
  getDefaultProfile ∈ getAllProfiles.
Proof.
  assert (Hfind : forall p, p ∈ getAllProfiles -> getProfileById (id p) = Some p).
  { intros p H. unfold getAllProfiles, SOUND_PROFILES in H. simpl in H.
    repeat (apply elem_of_cons in H as [-> | H]); try (vm_compute; reflexivity).
    inversion H. }
  split; [exact Hfind |]. split; [| split].
  - intros p q Hp Hq Heq. apply Hfind in Hp, Hq. rewrite Heq in Hp. congruence.
  - clear Hfind. intros i p. unfold getProfileById.
    induction getAllProfiles as [| q l IH]; simpl; [discriminate |].
    destruct (String.eqb (id q) i) eqn:E.
    + intros [= ->]. split; [apply list_elem_of_here | apply String.eqb_eq, E].
    + intros H. destruct (IH H) as [Hin Hid]. split; [apply list_elem_of_further, Hin | exact Hid].
  - apply list_elem_of_here.
Qed.
